(** * FireModel: a shallow embedding of [models/FireModel.js]

    The class gives its subclasses create / fetch / update / delete against
    Firestore, an n-gram token index, a dependency check before deletion and
    transactional auto-numbering.  This file embeds the class as executable
    Rocq definitions and proves the properties its specification states.

    Conventions of the embedding.
    - A JavaScript string is a [string]; each [ascii] stands for one UTF-16
      code unit below 256, so the white-space class and the lower-casing are
      those of the Latin-1 range.
    - A JavaScript number is an integer [Z]; the arithmetic of the class
      ([current + 1], [String(num)]) is exact on the safe integers, and a
      string is built as long as it stays within the length that every
      engine allows; [valid_autonumber], [js_exact] and [safe_numbers]
      record this where a statement depends on it.
    - Attribute names, payload keys and declared token fields are data
      attribute names: none of them is the name of a member that the class or
      [Object.prototype] already defines ([create], [collection],
      [constructor], ...); [data_names] records this where a statement
      depends on it.
    - A call [this.initialize()] reaches the method of the instance's
      class, [this_initialize], which a subclass may override like the
      hooks.
    - The Firestore SDK is modelled by a sequential store; transport
      failures and the retry of a transaction under contention are not
      modelled.  Ids and collection names are valid path segments. *)

From Stdlib Require Import ZArith Ascii String.
From stdpp Require Import gmap strings list fin_maps pretty.

Set Warnings "-register-all".
Local Open Scope Z_scope.

(** ** JavaScript values and the primitives the class uses *)
Module JS.

(** The JSON-like values held by instance attributes and documents. *)
Inductive value : Type :=
| VNull
| VBool (b : bool)
| VNum (n : Z)
| VStr (s : string)
| VArr (l : list value)
| VObj (m : gmap string value).

(** What a [throw] or a rejected promise carries: an [Error] instance
    (its [name] and [message]), or any other value; [ThrowValue None] is
    [undefined]. *)
Inductive thrown : Type :=
| ThrowError (name message : string)
| ThrowValue (v : option value).

Definition result (A : Type) : Type := thrown + A.

(** [new Error(message)] *)
Definition Error (message : string) : thrown := ThrowError "Error" message.
Definition TypeError (message : string) : thrown := ThrowError "TypeError" message.
Definition RangeError (message : string) : thrown := ThrowError "RangeError" message.

Definition chars (s : string) : list ascii := list_ascii_of_string s.
Definition str (l : list ascii) : string := string_of_list_ascii l.

(** [!v] is [negb (truthy v)]. *)
Definition truthy (v : value) : bool :=
  match v with
  | VNull => false
  | VBool b => b
  | VNum n => negb (n =? 0)
  | VStr s => negb (String.eqb s "")
  | VArr _ | VObj _ => true
  end.

(** [x || d] where [x] may be [undefined] ([None]). *)
Definition or_else (x : option value) (d : value) : value :=
  match x with
  | Some v => if truthy v then v else d
  | None => d
  end.

(** [String(n)] for an integer [n] below [10^21] in absolute value, where
    JavaScript writes a number in plain decimal digits. *)
Definition number_to_string (n : Z) : string := pretty n.

Fixpoint join (sep : string) (l : list string) : string :=
  match l with
  | [] => ""
  | [s] => s
  | s :: l' => s +:+ sep +:+ join sep l'
  end.

(** [String(v)], as string concatenation and template literals apply it. *)
Fixpoint to_string (v : value) : string :=
  match v with
  | VNull => "null"
  | VBool true => "true"
  | VBool false => "false"
  | VNum n => number_to_string n
  | VStr s => s
  | VArr l =>
      join "," (map (fun x => match x with VNull => "" | _ => to_string x end) l)
  | VObj _ => "[object Object]"
  end.

(** [`${x}`] where [x] may be [undefined]. *)
Definition template (x : option value) : string :=
  match x with
  | Some v => to_string v
  | None => "undefined"
  end.

Fixpoint repeat_string (k : nat) (s : string) : string :=
  match k with
  | O => ""
  | S k' => s +:+ repeat_string k' s
  end.

(** [Array(n).join(sep)]: [Array(n)] raises a RangeError unless [n] is an
    array length; the [n] empty slots are joined by [n - 1] separators.
    An engine refuses to build a string beyond its own limit (RangeError
    "Invalid string length"), which is at least [2^28 - 16] code units;
    the statements that depend on the joined string keep below it. *)
Definition Array_join (n : Z) (sep : string) : result string :=
  if (0 <=? n) && (n <=? 2 ^ 32 - 1)
  then inr (repeat_string (Z.to_nat (n - 1)) sep)
  else inl (RangeError "Invalid array length").

(** [s.slice(start)]: a negative [start] counts from the end. *)
Definition slice (s : string) (start : Z) : string :=
  let len := Z.of_nat (List.length (chars s)) in
  let from := if start <? 0 then Z.max (len + start) 0 else Z.min start len in
  str (drop (Z.to_nat from) (chars s)).

(** [s.substring(a, b)] for [0 <= a <= b]. *)
Definition substring (a b : nat) (l : list ascii) : list ascii :=
  take (b - a) (drop a l).

(** The code units below 256 that [\s] matches. *)
Definition is_whitespace (c : ascii) : bool :=
  let n := N_of_ascii c in
  ((9 <=? n) && (n <=? 13) || (n =? 32) || (n =? 160))%N.

(** [s.replace(/\s+/g, '')] *)
Definition strip_whitespace (l : list ascii) : list ascii :=
  filter (fun c => is_whitespace c = false) l.

Definition lower_char (c : ascii) : ascii :=
  let n := N_of_ascii c in
  if ((65 <=? n) && (n <=? 90)
      || (192 <=? n) && (n <=? 222) && negb (n =? 215))%N
  then ascii_of_N (n + 32) else c.

(** [s.toLowerCase()] *)
Definition toLowerCase (l : list ascii) : list ascii := map lower_char l.

End JS.
Export JS.

(** ** The document store

    The part of Firestore the class relies on, which is not code of the
    repository: documents keyed by collection and id, the [Autonumbers]
    collection (one typed record per numbered collection, shaped as the
    header of the source file describes it), single-document reads and
    writes, limit-1 queries and atomic transactions.  The definitions follow
    the behaviour the SDK documents for the calls the class makes. *)
Module Firestore.

(** A document payload, [docSnap.data()]. *)
Abbreviation Doc := (gmap string value).

(** A document reference: collection and id. *)
Abbreviation DocRef := (string * string)%type.

(** The document [Autonumbers/<collection>]. *)
Record Autonumber : Type := {
  an_current : Z;
  an_length : Z;
  an_field : string;
  an_condition : bool
}.

Record Store : Type := {
  docs : gmap DocRef Doc;
  autonumbers : gmap string Autonumber
}.

(** The writes a transaction buffers until it commits. *)
Inductive write : Type :=
| WUpdateCurrent (collection : string) (num : Z)
| WSet (ref : DocRef) (data : Doc).

Definition set_current (num : Z) (a : Autonumber) : Autonumber :=
  {| an_current := num; an_length := an_length a;
     an_field := an_field a; an_condition := an_condition a |}.

Definition apply_write (s : Store) (w : write) : Store :=
  match w with
  | WUpdateCurrent c num =>
      {| docs := docs s; autonumbers := alter (set_current num) c (autonumbers s) |}
  | WSet ref data =>
      {| docs := <[ref := data]> (docs s); autonumbers := autonumbers s |}
  end.

Definition commit (s : Store) (ws : list write) : Store :=
  foldl apply_write s ws.

(** A transaction callback reads the store it started from and buffers
    its writes. *)
Definition Tx (A : Type) : Type := Store → list write → result (A * list write).

Definition tx_ret {A} (a : A) : Tx A := fun _ ws => inr (a, ws).
Definition tx_throw {A} (e : thrown) : Tx A := fun _ _ => inl e.
Definition tx_bind {A B} (m : Tx A) (k : A → Tx B) : Tx B :=
  fun s ws => match m s ws with
              | inl e => inl e
              | inr (a, ws') => k a s ws'
              end.
Definition tx_lift {A} (r : result A) : Tx A :=
  match r with inl e => tx_throw e | inr a => tx_ret a end.

(** [transaction.get(doc(firestore, `Autonumbers/${collection}`))] *)
Definition tx_get_autonumber (collection : string) : Tx (option Autonumber) :=
  fun s ws => inr (autonumbers s !! collection, ws).
(** [transaction.update(autonumRef, { current: num })] *)
Definition tx_update_current (collection : string) (num : Z) : Tx unit :=
  fun _ ws => inr (tt, ws ++ [WUpdateCurrent collection num]).
(** [transaction.set(docRef, item)] *)
Definition tx_set (ref : DocRef) (data : Doc) : Tx unit :=
  fun _ ws => inr (tt, ws ++ [WSet ref data]).

(** [getDoc(docRef)]: the payload, or [None] when [exists()] is false. *)
Definition getDoc (ref : DocRef) (s : Store) : option Doc := docs s !! ref.

(** [updateDoc(docRef, data)]: the given fields replace the stored ones,
    the others stay; rejected when the document does not exist. *)
Definition updateDoc (ref : DocRef) (data : Doc) (s : Store) : result unit * Store :=
  match docs s !! ref with
  | Some old =>
      (inr tt, {| docs := <[ref := data ∪ old]> (docs s);
                  autonumbers := autonumbers s |})
  | None =>
      (inl (ThrowError "FirebaseError" "No document to update"), s)
  end.

(** [deleteDoc(docRef)] *)
Definition deleteDoc (ref : DocRef) (s : Store) : Store :=
  {| docs := delete ref (docs s); autonumbers := autonumbers s |}.

(** [getDocs(query(collection, where(field, op, arg), limit(n)))]: the
    documents of the collection whose [field] satisfies the filter, cut to
    the first [n].  [holds] is the meaning of the filter operators, which
    the class passes through uninterpreted. *)
Definition getDocs (holds : string → option value → value → bool)
    (collection field op : string) (arg : value) (n : nat) (s : Store)
    : list (DocRef * Doc) :=
  take n (filter (fun kv => kv.1.1 = collection
                            ∧ holds op (kv.2 !! field) arg = true)
                 (map_to_list (docs s))).

End Firestore.
Export Firestore.

(** ** The class *)

(** The six overridable lifecycle hooks. *)
Inductive Hook : Type :=
| beforeCreate | afterCreate
| beforeUpdate | afterUpdate
| beforeDelete | afterDelete.

(** The [type] argument of [sendConsole]: the [console] method called. *)
Inductive console_type : Type := info | warn | error.

(** An entry of [hasMany]: [{ collection, field, condition }]. *)
Record Dependency : Type := {
  collection : string;
  field : string;
  condition : string
}.

(** An instance: the private slots, the enumerability the constructor gave
    the [tokenMap] accessor, and the own enumerable data attributes. *)
Record FireModel : Type := {
  priv_collection : string;
  priv_hasMany : list Dependency;
  priv_tokenFields : list string;
  tokenMap_enumerable : bool;
  attrs : gmap string value
}.

(** What an operation does that an observer can see. *)
Inductive event : Type :=
| Console (type : console_type) (message : string) (params : list string)
| HookCalled (h : Hook)
| GetDoc (ref : DocRef)
| GetDocs (collection field op : string) (arg : value) (limit : nat)
| Transaction (committed : option (list write))
| UpdateDoc (ref : DocRef) (data : Doc)
| DeleteDoc (ref : DocRef).

(** The instance [this], the store, the signed-in user's [uid]
    ([#auth?.currentUser?.uid]), the number of clock and id requests made so
    far, and the events so far. *)
Record World : Type := {
  this : FireModel;
  store : Store;
  currentUser_uid : option string;
  ticks : nat;
  trace : list event
}.

Definition set_this (i : FireModel) (w : World) : World :=
  {| this := i; store := store w; currentUser_uid := currentUser_uid w;
     ticks := ticks w; trace := trace w |}.
Definition set_store (s : Store) (w : World) : World :=
  {| this := this w; store := s; currentUser_uid := currentUser_uid w;
     ticks := ticks w; trace := trace w |}.
Definition emit (e : event) (w : World) : World :=
  {| this := this w; store := store w; currentUser_uid := currentUser_uid w;
     ticks := ticks w; trace := trace w ++ [e] |}.
Definition tick (w : World) : World :=
  {| this := this w; store := store w; currentUser_uid := currentUser_uid w;
     ticks := S (ticks w); trace := trace w |}.
Definition set_attrs (m : gmap string value) (i : FireModel) : FireModel :=
  {| priv_collection := priv_collection i; priv_hasMany := priv_hasMany i;
     priv_tokenFields := priv_tokenFields i;
     tokenMap_enumerable := tokenMap_enumerable i; attrs := m |}.

(** An asynchronous method: it changes the world and resolves with a value
    or rejects; what it did before rejecting stays done. *)
Definition M (A : Type) : Type := World → result A * World.

Definition ret {A} (a : A) : M A := fun w => (inr a, w).
Definition throw {A} (e : thrown) : M A := fun w => (inl e, w).
Definition bind {A B} (m : M A) (k : A → M B) : M B :=
  fun w => match m w with
           | (inl e, w') => (inl e, w')
           | (inr a, w') => k a w'
           end.
Definition lift {A} (r : result A) : M A :=
  match r with inl e => throw e | inr a => ret a end.
Definition gets {A} (f : World → A) : M A := fun w => (inr (f w), w).
Definition modify (f : World → World) : M unit := fun w => (inr tt, f w).

Declare Scope js_scope.
Delimit Scope js_scope with js.
Notation "x <- m ;; k" := (bind m (fun x => k))
  (at level 100, m at next level, right associativity) : js_scope.
Notation "m ;; k" := (bind m (fun _ => k))
  (at level 100, right associativity) : js_scope.

Declare Scope tx_scope.
Delimit Scope tx_scope with tx.
Notation "x <- m ;; k" := (tx_bind m (fun x => k))
  (at level 100, m at next level, right associativity) : tx_scope.
Notation "m ;; k" := (tx_bind m (fun _ => k))
  (at level 100, right associativity) : tx_scope.

(** How a hook call ends: the promise resolves, the promise rejects, or the
    hook throws before it returns a promise. *)
Inductive outcome : Type :=
| Resolved
| Rejected (reason : thrown)
| Threw (exn : thrown).

(** What a subclass supplies: the bodies of the hooks; the method that a
    call [this.initialize(item)] reaches, which is the [initialize] of the
    base class unless the subclass overrides it; and the names of the
    accessors and methods that it declares besides those of the base
    class. *)
Class Subclass : Type := {
  hooks : Hook → World → outcome * World;
  this_initialize : option Doc → World → result unit * World;
  declared_members : list string
}.

(** What the host supplies: the clock ([dateUtc.getTime()] and
    [dateJst.toLocaleString()] at the n-th request), the ids that [doc(colRef)]
    generates, and the meaning of the query operators. *)
Class Host : Type := {
  clock_utc : nat → Z;
  clock_jst : nat → string;
  auto_id : nat → string;
  where_holds : string → option value → value → bool
}.

(** *** Attributes and the [tokenMap] accessor *)

(** [this[key]] for a data attribute; [None] is [undefined]. *)
Definition get_attr (key : string) (i : FireModel) : option value :=
  attrs i !! key.

(** [this[key] = v]: the [tokenMap] accessor has the setter [set(v) {}],
    every other name is a data attribute. *)
Definition assign (key : string) (v : value) (i : FireModel) : FireModel :=
  if decide (key = "tokenMap") then i else set_attrs (<[key := v]> (attrs i)) i.

(** [key in this] for a key that is not the name of an accessor or method
    of the class or of a member of [Object.prototype]: an own data
    attribute, or [tokenMap]. *)
Definition in_this (key : string) (i : FireModel) : bool :=
  bool_decide (key = "tokenMap") || bool_decide (is_Some (attrs i !! key)).

(** [Object.fromEntries(arr)]: a later entry replaces an earlier one. *)
Definition fromEntries (arr : list (string * bool)) : gmap string bool :=
  foldl (fun m kv => <[kv.1 := kv.2]> m) ∅ arr.

(** The two loops that lines 76-82 and 133-139 share: the entries pushed
    for one string. *)
Definition ngram_entries (value : string) : list (string * bool) :=
  let target := strip_whitespace (chars value) in
  map (fun i => (str (toLowerCase (substring i (i + 1) target)), true))
      (seq 0 (length target))
  ++ map (fun i => (str (toLowerCase (substring i (i + 2) target)), true))
         (seq 0 (length target - 1)).

Definition getNgramTokenMap (value : string) : gmap string bool :=
  fromEntries (ngram_entries value).

(** The [forEach] of the [tokenMap] getter: a declared field that the
    instance lacks is skipped, and [replace] fails on one that does not hold
    a string. *)
Fixpoint tokenMap_entries (fieldNames : list string) (i : FireModel)
    : result (list (string * bool)) :=
  match fieldNames with
  | [] => inr []
  | fieldName :: rest =>
      match attrs i !! fieldName with
      | None => tokenMap_entries rest i
      | Some (VStr s) =>
          match tokenMap_entries rest i with
          | inl e => inl e
          | inr arr => inr (ngram_entries s ++ arr)
          end
      | Some VNull =>
          inl (TypeError "Cannot read properties of null (reading 'replace')")
      | Some _ => inl (TypeError "this[fieldName].replace is not a function")
      end
  end.

(** The getter of [tokenMap]; [inr None] is [null]. *)
Definition tokenMap_get (i : FireModel) : result (option (gmap string bool)) :=
  match priv_tokenFields i with
  | [] => inr None
  | fieldNames =>
      match tokenMap_entries fieldNames i with
      | inl e => inl e
      | inr arr => inr (Some (fromEntries arr))
      end
  end.

(** The setter of [tokenMap]. *)
Definition tokenMap_set (v : value) (i : FireModel) : FireModel :=
  assign "tokenMap" v i.

(** [set tokenFields(v)] and [set hasMany(v)] *)
Definition set_tokenFields (v : list string) (i : FireModel) : FireModel :=
  {| priv_collection := priv_collection i; priv_hasMany := priv_hasMany i;
     priv_tokenFields := v;
     tokenMap_enumerable := tokenMap_enumerable i; attrs := attrs i |}.
Definition set_hasMany (v : list Dependency) (i : FireModel) : FireModel :=
  {| priv_collection := priv_collection i; priv_hasMany := v;
     priv_tokenFields := priv_tokenFields i;
     tokenMap_enumerable := tokenMap_enumerable i; attrs := attrs i |}.

Definition token_value (tm : option (gmap string bool)) : value :=
  match tm with
  | None => VNull
  | Some m => VObj (VBool <$> m)
  end.

(** [const { k1, ..., ...item } = this]: the own enumerable properties
    except the named ones; an enumerable [tokenMap] is read through its
    getter. *)
Definition rest_of_this (named : list string) (i : FireModel) : result Doc :=
  let own := filter (fun kv => kv.1 ∉ named) (attrs i) in
  if tokenMap_enumerable i then
    match tokenMap_get i with
    | inl e => inl e
    | inr tm => inr (own ∪ {[ "tokenMap" := token_value tm ]})
    end
  else inr own.

(** [Object.keys(this)] *)
Definition keys_of_this (i : FireModel) : list string :=
  (map_to_list (attrs i)).*1
  ++ (if tokenMap_enumerable i then ["tokenMap"] else []).

(** [initialize(item)]; [JSON.parse(JSON.stringify(v))] gives back an equal
    [value]. *)
Definition initialize (item : option Doc) (i : FireModel) : FireModel :=
  let of_item key := item ≫= (fun it : Doc => it !! key) in
  let i := assign "docId" (or_else (of_item "docId") (VStr "")) i in
  let i := assign "createAt" (or_else (of_item "createAt") VNull) i in
  let i := assign "createDate" (or_else (of_item "createDate") (VStr "")) i in
  let i := assign "updateAt" (or_else (of_item "updateAt") VNull) i in
  let i := assign "updateDate" (or_else (of_item "updateDate") (VStr "")) i in
  let i := assign "uid" (or_else (of_item "uid") (VStr "")) i in
  match item with
  | None => i
  | Some it =>
      foldl (fun acc kv => if in_this kv.1 acc then assign kv.1 kv.2 acc else acc)
            i (map_to_list it)
  end.

(** *** The methods *)
Section Methods.
Context {subclass : Subclass} {host : Host}.
Local Open Scope js_scope.

(** [sendConsole({ message, params = [], type = 'info' })] *)
Definition sendConsole (type : console_type) (message : string)
    (params : list string) : M unit :=
  modify (emit (Console type ("[FireModel] " +:+ message) params)).

(** [err.message], which itself throws on [undefined] and [null]. *)
Definition message_of (err : thrown) : result (option value) :=
  match err with
  | ThrowError _ message => inr (Some (VStr message))
  | ThrowValue None =>
      inl (TypeError "Cannot read properties of undefined (reading 'message')")
  | ThrowValue (Some VNull) =>
      inl (TypeError "Cannot read properties of null (reading 'message')")
  | ThrowValue (Some (VObj m)) => inr (m !! "message")
  | ThrowValue (Some _) => inr None
  end.

(** [try { body } catch (err) { this.sendConsole({ message: err.message,
    type: 'error' }); throw err }] *)
Definition try_catch {A} (body : M A) : M A :=
  fun w =>
    match body w with
    | (inr a, w') => (inr a, w')
    | (inl err, w') =>
        match message_of err with
        | inl e => (inl e, w')
        | inr message => (sendConsole error (template message) [] ;; throw err) w'
        end
    end.

(** [promise.catch((err) => { this.sendConsole({ message, type: 'error' });
    throw err })] *)
Definition catch_log {A} (promise : M A) (message : string) : M A :=
  fun w =>
    match promise w with
    | (inr a, w') => (inr a, w')
    | (inl err, w') => (sendConsole error message [] ;; throw err) w'
    end.

(** [await this.hook().catch(...)]: a rejection passes through the
    [catch] handler, an exception thrown by the call itself does not. *)
Definition call_hook (h : Hook) (message : string) : M unit :=
  fun w =>
    match hooks h (emit (HookCalled h) w) with
    | (Resolved, w') => (inr tt, w')
    | (Rejected err, w') => (sendConsole error message [] ;; throw err) w'
    | (Threw err, w') => (inl err, w')
    end.

Definition dateUtc_getTime : M Z :=
  fun w => (inr (clock_utc (ticks w)), tick w).
Definition dateJst_toLocaleString : M string :=
  fun w => (inr (clock_jst (ticks w)), tick w).
(** [doc(colRef).id] *)
Definition new_doc_id : M string :=
  fun w => (inr (auto_id (ticks w)), tick w).

Definition set_attr (key : string) (v : value) : M unit :=
  modify (fun w => set_this (assign key v (this w)) w).

(** [this.#auth?.currentUser?.uid || 'unknown'] *)
Definition current_uid (w : World) : string :=
  match currentUser_uid w with
  | Some u => if String.eqb u "" then "unknown" else u
  | None => "unknown"
  end.

(** [doc(colRef, this.docId)]: the SDK refuses a falsy path and then reads
    the path as a string, which fails on [indexOf] or, for an array, on
    [split]. *)
Definition doc_of (collection : string) (docId : option value) : result DocRef :=
  match docId with
  | Some (VStr id) =>
      if String.eqb id ""
      then inl (ThrowError "FirebaseError"
                  "Function doc() cannot be called with an empty path.")
      else inr (collection, id)
  | Some v =>
      if truthy v
      then match v with
           | VArr _ => inl (TypeError "path.split is not a function")
           | _ => inl (TypeError "path.indexOf is not a function")
           end
      else inl (ThrowError "FirebaseError"
                  "Function doc() cannot be called with an empty path.")
  | None =>
      inl (ThrowError "FirebaseError"
             "Function doc() cannot be called with an empty path.")
  end.

(** [runTransaction(firestore, body)]: all buffered writes land, or, when
    the callback throws, none does and the promise rejects with what it
    threw. *)
Definition run_transaction {A} (body : Tx A) : M A :=
  fun w =>
    match body (store w) [] with
    | inl e => (inl e, emit (Transaction None) w)
    | inr (a, ws) =>
        (inr a, emit (Transaction (Some ws)) (set_store (commit (store w) ws) w))
    end.

(** Lines 285-295: the next number and its code, or the exhaustion
    error.  The sum [current + 1] is the sum of JavaScript as long as both
    are safe integers; the statements that depend on it say so. *)
Definition exhausted (collection : string) : thrown :=
  Error ("No more documents can be added to the " +:+ collection +:+ " collection.").

Definition allocate (collection : string) (a : Autonumber) : result (Z * string) :=
  let num := an_current a + 1 in
  let length := an_length a in
  match Array_join length "0" with
  | inl e => inl e
  | inr zeros =>
      let newCode := slice (zeros +:+ number_to_string num) (- length) in
      match Array_join (length + 1) "0" with
      | inl e => inl e
      | inr maxCode =>
          if String.eqb newCode maxCode
          then inl (exhausted collection)
          else inr (num, newCode)
      end
  end.

(** Lines 278-299: the callback given to [runTransaction]. *)
Definition create_transaction (collection : string) (docRef : DocRef)
    (item : Doc) : Tx unit :=
  (autonumDoc <- tx_get_autonumber collection ;;
   item' <- match autonumDoc with
            | Some a =>
                if an_condition a then
                  r <- tx_lift (allocate collection a) ;;
                  tx_update_current collection r.1 ;;
                  tx_ret (<[an_field a := VStr r.2]> item)
                else tx_ret item
            | None => tx_ret item
            end ;;
   tx_set docRef item')%tx.

(** Lines 269-277 of [create]: the reference, the stamps and the payload. *)
Definition create_prepare (docId : option string) : M (DocRef * Doc) :=
  col <- gets (fun w => priv_collection (this w)) ;;
  id <- match docId with
        | Some s => if String.eqb s "" then new_doc_id else ret s
        | None => new_doc_id
        end ;;
  set_attr "docId" (VStr id) ;;
  createAt <- dateUtc_getTime ;;
  set_attr "createAt" (VNum createAt) ;;
  createDate <- dateJst_toLocaleString ;;
  set_attr "createDate" (VStr createDate) ;;
  updateAt <- dateUtc_getTime ;;
  set_attr "updateAt" (VNum updateAt) ;;
  updateDate <- dateJst_toLocaleString ;;
  set_attr "updateDate" (VStr updateDate) ;;
  uid <- gets current_uid ;;
  set_attr "uid" (VStr uid) ;;
  item <- (fun w => lift (rest_of_this [] (this w)) w) ;;
  ret ((col, id), item).

(** Lines 278-306 of [create]. *)
Definition create_commit (docRef : DocRef) (item : Doc) : M unit :=
  col <- gets (fun w => priv_collection (this w)) ;;
  catch_log (run_transaction (create_transaction col docRef item))
            "An error has occured at setDoc() in create().".

(** Lines 255-260 of [create]: the opening console message. *)
Definition create_called (docId : option string) : M unit :=
  match docId with
  | Some s =>
      if String.eqb s ""
      then sendConsole info "create() is called. No document id is specified." []
      else sendConsole info "create() is called. Document id is %s." [s]
  | None => sendConsole info "create() is called. No document id is specified." []
  end.

(** [create(docId = undefined)] *)
Definition create (docId : option string) : M DocRef :=
  create_called docId ;;
  try_catch
    (call_hook beforeCreate "An error has occured at beforeCreate() in create()." ;;
     p <- create_prepare docId ;;
     create_commit p.1 p.2 ;;
     call_hook afterCreate "An error has occured at afterCreate() in create()." ;;
     col <- gets (fun w => priv_collection (this w)) ;;
     sendConsole info
       "A document was successfully created in the %s collection with document id %s."
       [col; p.1.2] ;;
     ret p.1).

(** Lines 351-353 of [fetch]: [Object.keys(this).forEach((key) => { if
    (key in docSnap.data()) this[key] = docSnap.data()[key] })] *)
Definition copy_from (data : Doc) (i : FireModel) : FireModel :=
  foldl (fun acc key => match data !! key with
                        | Some v => assign key v acc
                        | None => acc
                        end)
        i (keys_of_this i).

(** [fetch(docId = undefined)] *)
Definition fetch (docId : option string) : M unit :=
  sendConsole info "fetch() is called." [] ;;
  try_catch
    (match docId with
     | None => throw (Error "fetch() requires docId as argument.")
     | Some id =>
         if String.eqb id "" then throw (Error "fetch() requires docId as argument.")
         else
           col <- gets (fun w => priv_collection (this w)) ;;
           docSnap <- catch_log
                        (fun w => (inr (getDoc (col, id) (store w)),
                                   emit (GetDoc (col, id)) w))
                        "An error has occured at getDoc() in fetch()." ;;
           match docSnap with
           | Some data =>
               sendConsole info
                 "The document corresponding to the specified document id (%s) has been fetched."
                 [id] ;;
               modify (fun w => set_this (copy_from data (this w)) w)
           | None =>
               sendConsole warn
                 "The document corresponding to the specified document id (%s) does not exist. FireModel properties are initialized."
                 [id] ;;
               this_initialize None
           end
     end).

(** [!this.docId] *)
Definition docId_unset (w : World) : bool :=
  match get_attr "docId" (this w) with
  | Some v => negb (truthy v)
  | None => true
  end.

(** Lines 389-394 of [update]: the reference, the stamps and the payload. *)
Definition update_prepare : M (DocRef * Doc) :=
  docRef <- (fun w => lift (doc_of (priv_collection (this w))
                                   (get_attr "docId" (this w))) w) ;;
  updateAt <- dateUtc_getTime ;;
  set_attr "updateAt" (VNum updateAt) ;;
  updateDate <- dateJst_toLocaleString ;;
  set_attr "updateDate" (VStr updateDate) ;;
  uid <- gets current_uid ;;
  set_attr "uid" (VStr uid) ;;
  item <- (fun w => lift (rest_of_this ["createAt"; "createDate"] (this w)) w) ;;
  ret (docRef, item).

(** Lines 395-401 of [update]. *)
Definition update_write (docRef : DocRef) (item : Doc) : M unit :=
  catch_log
    (fun w => let r := updateDoc docRef item (store w) in
              (r.1, emit (UpdateDoc docRef item) (set_store r.2 w)))
    "An error has occured at update().".

(** [update()] *)
Definition update : M DocRef :=
  sendConsole info "update() is called." [] ;;
  try_catch
    (unset <- gets docId_unset ;;
     (if unset : bool
      then throw (Error "update() should have docId as a property. Call fetch() first.")
      else ret tt) ;;
     call_hook beforeUpdate "An error has occured at beforeUpdate() in update()." ;;
     p <- update_prepare ;;
     update_write p.1 p.2 ;;
     call_hook afterUpdate "An error has occured at afterUpdate() in update()." ;;
     col <- gets (fun w => priv_collection (this w)) ;;
     sendConsole info
       "A document was successfully updated in the %s collection with document id %s."
       [col; p.1.2] ;;
     ret p.1).

(** The query of one [hasMany] entry, [query(colRef, whrObj, limit(1))]:
    [where] rejects an [undefined] operand. *)
Definition query_children (item : Dependency) : M (list (DocRef * Doc)) :=
  fun w =>
    match get_attr "docId" (this w) with
    | None =>
        (inl (ThrowError "FirebaseError"
                "Function where() called with invalid data. Unsupported field value: undefined"),
         w)
    | Some docId =>
        (inr (getDocs where_holds (collection item) (field item)
                      (condition item) docId 1 (store w)),
         emit (GetDocs (collection item) (field item) (condition item) docId 1) w)
    end.

(** The loop of [#hasChild()] over the entries still to visit; [None] is
    the [false] it returns when no entry has a child. *)
Fixpoint hasChild_from (items : list Dependency) : M (option Dependency) :=
  match items with
  | [] => ret None
  | item :: rest =>
      snapshot <- query_children item ;;
      match snapshot with
      | [] => hasChild_from rest
      | _ :: _ => ret (Some item)
      end
  end.

(** [#hasChild()] *)
Definition hasChild : M (option Dependency) :=
  fun w => hasChild_from (priv_hasMany (this w)) w.

(** The message of the error that refuses a deletion (the source text
    opens with a Japanese sentence, kept here as its UTF-8 bytes). *)
Definition conflict_message (hasChild : Dependency) (docId : option value) : string :=
  "関連する情報が登録されているため削除できません。" +:+ String "010" "Collection: "
  +:+ collection hasChild +:+ String "010" "docId: " +:+ template docId.

Definition dependency_conflict (hasChild : Dependency) (docId : option value) : thrown :=
  Error (conflict_message hasChild docId).

(** Lines 450-458 of [delete]. *)
Definition delete_write : M DocRef :=
  docRef <- (fun w => lift (doc_of (priv_collection (this w))
                                   (get_attr "docId" (this w))) w) ;;
  catch_log
    (modify (fun w => emit (DeleteDoc docRef) (set_store (deleteDoc docRef (store w)) w)))
    "An error has occured at delete()." ;;
  ret docRef.

(** [delete()] *)
Definition delete : M unit :=
  sendConsole info "delete() is called." [] ;;
  try_catch
    (unset <- gets docId_unset ;;
     (if unset : bool
      then throw (Error "delete() should have docId as a property. Call fetch() first.")
      else ret tt) ;;
     found <- hasChild ;;
     match found with
     | Some item =>
         docId <- gets (fun w => get_attr "docId" (this w)) ;;
         throw (dependency_conflict item docId)
     | None =>
         call_hook beforeDelete "An error has occured at beforeDelete() in delete()." ;;
         docRef <- delete_write ;;
         call_hook afterDelete "An error has occured at afterDelete() in delete()." ;;
         col <- gets (fun w => priv_collection (this w)) ;;
         sendConsole info
           "A document was successfully deleted in the %s collection with document id %s."
           [col; docRef.2]
     end).

(** [constructor(firestore, collection, auth)]: the instance it leaves in
    [this], whatever was there.  The private fields start empty,
    [this.initialize()] runs, and the [tokenMap] accessor is defined,
    enumerable when token fields are declared by then. *)
Definition constructor (collection : string) : M unit :=
  (if String.eqb collection ""
   then sendConsole error "A collection is required at FireModel constructor." []
   else ret tt) ;;
  modify (fun w =>
    set_this {| priv_collection := collection; priv_hasMany := [];
                priv_tokenFields := []; tokenMap_enumerable := false;
                attrs := ∅ |} w) ;;
  this_initialize None ;;
  modify (fun w =>
    set_this {| priv_collection := priv_collection (this w);
                priv_hasMany := priv_hasMany (this w);
                priv_tokenFields := priv_tokenFields (this w);
                tokenMap_enumerable :=
                  match priv_tokenFields (this w) with
                  | [] => false
                  | _ :: _ => true
                  end;
                attrs := attrs (this w) |} w).

End Methods.

(** ** The notions the specification speaks in *)

(** [this.initialize(item)] of a class that does not override the method:
    the [initialize] of the base class. *)
Definition base_initialize (item : option Doc) : M unit :=
  modify (fun w => set_this (initialize item (this w)) w).

(** The base class: each default hook resolves at once, and [initialize]
    is its own. *)
Definition base_class : Subclass :=
  {| hooks := fun _ w => (Resolved, w); this_initialize := base_initialize;
     declared_members := [] |}.

(** [n] written with exactly [len] digits: zeros on the left, then the
    decimal digits of [n]. *)
Definition zero_padded (len : nat) (n : Z) : string :=
  repeat_string (len - String.length (number_to_string n)) "0"
  +:+ number_to_string n.

(** An autonumber record inside its range: at least one digit, a width
    that [Array] accepts, a current number that the width can show, and a
    next number that is a safe integer. *)
Definition valid_autonumber (a : Autonumber) : Prop :=
  1 <= an_length a <= 2 ^ 32 - 2
  ∧ 0 <= an_current a < 10 ^ an_length a
  ∧ an_current a + 1 <= 2 ^ 53 - 1.

(** The longest string that every engine in use builds: the smallest limit
    is the one of V8 on 32-bit platforms, [2^28 - 16] code units. *)
Definition max_string_length : Z := 2 ^ 28 - 16.

(** A record on which JavaScript computes what the embedding computes:
    [current] and [current + 1] are safe integers, so that the sum is exact
    and [String] writes it in at most 17 characters; and the longest string
    that the allocation builds, the padding followed by the number, stays
    within [max_string_length]. *)
Definition js_exact (a : Autonumber) : Prop :=
  an_length a + 16 <= max_string_length
  ∧ - (2 ^ 53 - 1) <= an_current a
  ∧ an_current a + 1 <= 2 ^ 53 - 1.

(** [k] is a token of [s]: the lower-cased substring of length 1 or 2 that
    starts at some position of [s] without its white space. *)
Definition is_token (k : string) (s : string) : Prop :=
  ∃ (i n : nat),
    (n = 1 ∨ n = 2)%nat
    ∧ (i + n <= length (strip_whitespace (chars s)))%nat
    ∧ k = str (toLowerCase (take n (drop i (strip_whitespace (chars s))))).

(** The six attributes that [initialize] sets, with their empty values. *)
Definition base_attrs : list (string * value) :=
  [("docId", VStr ""); ("createAt", VNull); ("createDate", VStr "");
   ("updateAt", VNull); ("updateDate", VStr ""); ("uid", VStr "")].

(** A value whose numbers, also those in its arrays, are safe integers:
    [String] writes them in plain decimal digits, as the embedding does. *)
Fixpoint safe_numbers (v : value) : bool :=
  match v with
  | VNum n => Z.abs n <=? 2 ^ 53 - 1
  | VArr l => forallb safe_numbers l
  | _ => true
  end.

(** The world in which [fetch(id)] calls [this.initialize()] when the
    document is absent: the call, the read and the warning are logged. *)
Definition fetch_missed (id : string) (w : World) : World :=
  emit (Console warn
          "[FireModel] The document corresponding to the specified document id (%s) does not exist. FireModel properties are initialized."
          [id])
    (emit (GetDoc (priv_collection (this w), id))
       (emit (Console info "[FireModel] fetch() is called." []) w)).

(** A dependency has a child of [docId] in the store. *)
Definition has_child `{Host} (s : Store) (docId : value) (d : Dependency) : bool :=
  match getDocs where_holds (collection d) (field d) (condition d) docId 1 s with
  | [] => false
  | _ :: _ => true
  end.

(** The [k] low-order decimal digits of [n], most significant first. *)
Fixpoint low_digits (k : nat) (n : N) : list ascii :=
  match k with
  | O => []
  | S k' => low_digits k' (n / 10)%N ++ [pretty_N_char (n mod 10)%N]
  end.

(** ** Concrete hosts, instances and stores for the examples *)

(** A host whose only query operator is [==] on strings. *)
Definition equality_host : Host :=
  {| clock_utc := fun n => 1700000000000 + Z.of_nat n;
     clock_jst := fun _ => "2023/11/15 7:13:20";
     auto_id := fun n => "auto" +:+ pretty n;
     where_holds := fun op stored arg =>
       String.eqb op "=="
       && match stored, arg with
          | Some (VStr a), VStr b => String.eqb a b
          | _, _ => false
          end |}.

(** [new FireModel(firestore, collection, auth)] *)
Definition new_FireModel (collection : string) : FireModel :=
  initialize None
    {| priv_collection := collection; priv_hasMany := [];
       priv_tokenFields := []; tokenMap_enumerable := false; attrs := ∅ |}.

Definition world_of (i : FireModel) (s : Store) : World :=
  {| this := i; store := s; currentUser_uid := Some "u1"; ticks := 0; trace := [] |}.

Definition empty_store : Store := {| docs := ∅; autonumbers := ∅ |}.

(** A fresh [Users] model over an empty store. *)
Definition fresh_users : World := world_of (new_FireModel "Users") empty_store.

(** The event of the limit-1 query that [#hasChild()] issues for an entry. *)
Definition query_of (docId : value) (d : Dependency) : event :=
  GetDocs (collection d) (field d) (condition d) docId 1.

Definition emit_all (es : list event) (w : World) : World :=
  foldl (fun w e => emit e w) w es.

(** A store whose [Users] collection is numbered in the field [code]. *)
Definition numbered_store (current length : Z) : Store :=
  {| docs := ∅;
     autonumbers := {[ "Users" := {| an_current := current; an_length := length;
                                     an_field := "code"; an_condition := true |} ]} |}.

Definition numbered_users (current length : Z) : World :=
  world_of (new_FireModel "Users") (numbered_store current length).

(** A subclass whose hooks all reject without a reason:
    [beforeCreate() { return Promise.reject() }] and the like. *)
Definition rejecting_without_reason : Subclass :=
  {| hooks := fun _ w => (Rejected (ThrowValue None), w);
     this_initialize := base_initialize;
     declared_members := [] |}.

(** A subclass whose hooks all reject with [new Error("no")]. *)
Definition rejecting_with_error : Subclass :=
  {| hooks := fun _ w => (Rejected (Error "no"), w);
     this_initialize := base_initialize;
     declared_members := [] |}.

(** What the [catch] blocks of an operation add when a hook rejects: the
    message of the hook's [catch] handler, then the message of the error. *)
Definition hook_failure_logged (message : string) (reason : option value)
    (w : World) : World :=
  emit (Console error ("[FireModel] " +:+ template reason) [])
    (emit (Console error ("[FireModel] " +:+ message) []) w).

(** A [Customers] model with three declared dependencies and the id [c1];
    in the store, [c1] has an order and a ticket but no invoice. *)
Definition customer_c1 : FireModel :=
  set_hasMany
    [ {| collection := "Invoices"; field := "customerId"; condition := "==" |};
      {| collection := "Orders"; field := "customerId"; condition := "==" |};
      {| collection := "Tickets"; field := "customerId"; condition := "==" |} ]
    (assign "docId" (VStr "c1") (new_FireModel "Customers")).

Definition customer_doc : Doc :=
  {[ "docId" := VStr "c1"; "createAt" := VNum 5;
     "createDate" := VStr "2020/1/1 0:00:00"; "legacy" := VBool true ]}.

Definition customer_store : Store :=
  {| docs :=
       {[ ("Customers", "c1") := customer_doc;
          ("Orders", "o1") := {[ "customerId" := VStr "c1" ]};
          ("Tickets", "t1") := {[ "customerId" := VStr "c1" ]} ]};
     autonumbers := ∅ |}.

Definition customer_world : World := world_of customer_c1 customer_store.

(** A [Books] model that declares [title] as its one token field. *)
Definition book : FireModel :=
  set_tokenFields ["title"] (assign "title" (VStr "A b") (new_FireModel "Books")).

(** An [Items] model as a subclass constructor leaves it, with its own
    attribute [name] empty, and the same model after [name] was set. *)
Definition item_constructed : FireModel :=
  assign "name" (VStr "") (new_FireModel "Items").
Definition item_named : FireModel :=
  assign "name" (VStr "pen") item_constructed.

Definition item_store : Store :=
  {| docs := {[ ("Items", "i1") :=
                  {[ "docId" := VStr "i1"; "name" := VStr "ink";
                     "price" := VNum 3 ]} ]};
     autonumbers := ∅ |}.

(** The queries among the events of a trace. *)
Definition queries (tr : list event) : list event :=
  List.filter (fun e => match e with GetDocs _ _ _ _ _ => true | _ => false end) tr.

(** The value an operation resolved with, or [d] when it rejected. *)
Definition resolved {A} (d : A) (r : result A * World) : A :=
  match r.1 with
  | inr a => a
  | inl _ => d
  end.

(** ** Further notions used by the statements *)

(** A string as the token index sees it: without white space, in lower
    case. *)
Definition normalized (s : string) : list ascii :=
  toLowerCase (strip_whitespace (chars s)).

(** A value that holds a string. *)
Definition is_string (v : value) : bool :=
  match v with
  | VStr _ => true
  | _ => false
  end.

(** The id of the reference that [create(docId)] makes: the given id, or a
    generated one when none or the empty string is given. *)
Definition create_id `{Host} (docId : option string) (w : World) : string :=
  match docId with
  | Some s => if String.eqb s "" then auto_id (ticks w) else s
  | None => auto_id (ticks w)
  end.

(** The clock request that stamps [createAt]: generating an id takes one
    request first. *)
Definition create_clock (docId : option string) (w : World) : nat :=
  match docId with
  | Some s => if String.eqb s "" then S (ticks w) else ticks w
  | None => S (ticks w)
  end.

(** The attributes of the instance once [create] has stamped them. *)
Definition create_stamped `{Host} (docId : option string) (w : World)
    : gmap string value :=
  let t := create_clock docId w in
  <["uid" := VStr (current_uid w)]>
    (<["updateDate" := VStr (clock_jst (S (S (S t))))]>
       (<["updateAt" := VNum (clock_utc (S (S t)))]>
          (<["createDate" := VStr (clock_jst (S t))]>
             (<["createAt" := VNum (clock_utc t)]>
                (<["docId" := VStr (create_id docId w)]> (attrs (this w))))))).

(** The world in which the transaction of [create] starts. *)
Definition create_prepared `{Host} (docId : option string) (w : World) : World :=
  {| this := set_attrs (create_stamped docId w) (this w);
     store := store w;
     currentUser_uid := currentUser_uid w;
     ticks := S (S (S (S (create_clock docId w))));
     trace := trace w |}.

(** The attributes of the instance once [update] has stamped them. *)
Definition update_stamped `{Host} (w : World) : gmap string value :=
  <["uid" := VStr (current_uid w)]>
    (<["updateDate" := VStr (clock_jst (S (ticks w)))]>
       (<["updateAt" := VNum (clock_utc (ticks w))]> (attrs (this w)))).

(** A method that leaves the store as it is, however it ends. *)
Definition keeps_store {A} (m : M A) : Prop :=
  ∀ w r w', m w = (r, w') → store w' = store w.

(** The entries that the loop of [#hasChild()] visits: each entry in order,
    up to and including the first that has a child. *)
Fixpoint visited (has : Dependency → bool) (items : list Dependency)
    : list Dependency :=
  match items with
  | [] => []
  | item :: rest => item :: (if has item then [] else visited has rest)
  end.

(** The payload [update] writes: the stamped attributes without
    [createAt] and [createDate]. *)
Definition update_payload `{Host} (w : World) : Doc :=
  filter (fun kv : string * value => kv.1 ∉ ["createAt"; "createDate"])
         (update_stamped w).

(** A subclass whose [before] hooks resolve and whose [after] hooks reject
    with [new Error("late")]. *)
Definition rejecting_afterwards : Subclass :=
  {| hooks := fun h w =>
       match h with
       | afterCreate | afterUpdate | afterDelete => (Rejected (Error "late"), w)
       | _ => (Resolved, w)
       end;
     this_initialize := base_initialize;
     declared_members := [] |}.

(** The names that [in] finds on every plain object: the members of
    [Object.prototype]. *)
Definition object_prototype_names : list string :=
  ["constructor"; "__defineGetter__"; "__defineSetter__"; "hasOwnProperty";
   "__lookupGetter__"; "__lookupSetter__"; "isPrototypeOf";
   "propertyIsEnumerable"; "toString"; "valueOf"; "__proto__";
   "toLocaleString"].

(** The names that [in] finds on an instance of [FireModel] itself besides
    its data attributes and [tokenMap]: the accessors and methods of the
    class and the members of [Object.prototype]. *)
Definition member_names : list string :=
  ["tokenFields"; "hasMany"; "collection"; "firestore"; "auth";
   "getNgramTokenMap"; "initialize";
   "beforeCreate"; "beforeUpdate"; "beforeDelete";
   "afterCreate"; "afterUpdate"; "afterDelete";
   "dateUtc"; "dateJst"; "create"; "fetch"; "update"; "delete"; "sendConsole"]
  ++ object_prototype_names.

(** An object whose keys are data names for the instances of a class: it
    has no key among the members of the base class and those that the
    class declares. *)
Definition data_names `{Subclass} (m : gmap string value) : Prop :=
  Forall (fun k => m !! k = None) (member_names ++ declared_members).

(** * The master-data store: the Vuex module [masters]

    The module keeps one array per master collection as a property of its
    state, next to the object [listeners] that holds, per collection, the
    function that ends its realtime subscription.  Conventions of the
    embedding.
    - A payload's [data] is an object ([doc.data()]) or absent; the
      elements of the arrays are such objects.
    - Two objects are never the same reference, so [===] holds between
      primitives only.
    - A listener is named by a number; calling it is recorded, and it does
      not throw.
    - [Object.keys(state.listeners)] is the order of [listeners]: the
      collection names are not integer-like.
    - [listeners] is a plain object, on which [in] also finds the members
      of [Object.prototype]; the embedding follows the source for
      collection names that are none of these, and the statements that
      depend on it say so. *)
Module Masters.

(** What the mutations and actions do besides changing the state. *)
Inductive event : Type :=
| ConsoleError (message : string)
| ConsoleErrorOf (err : thrown)
| Alert (message : string)
| ListenerCalled (listener : nat).

Record State : Type := {
  arrays : gmap string (list Doc);
  listeners : list (string * option nat)
}.

Record World : Type := {
  state : State;
  log : list event
}.

Definition emit (e : event) (w : World) : World :=
  {| state := state w; log := log w ++ [e] |}.
Definition set_state (s : State) (w : World) : World :=
  {| state := s; log := log w |}.

(** [a === b] on what a property read gives; [None] is [undefined]. *)
Definition strict_equal (a b : option value) : bool :=
  match a, b with
  | None, None => true
  | Some VNull, Some VNull => true
  | Some (VBool x), Some (VBool y) => Bool.eqb x y
  | Some (VNum x), Some (VNum y) => Z.eqb x y
  | Some (VStr x), Some (VStr y) => String.eqb x y
  | _, _ => false
  end.

(** [items.findIndex(p)]; [None] is [-1]. *)
Fixpoint findIndex {A} (p : A → bool) (items : list A) : option nat :=
  match items with
  | [] => None
  | x :: rest => if p x then Some O else S <$> findIndex p rest
  end.

(** [({ docId }) => docId === data.docId] *)
Definition same_docId (data : Doc) (item : Doc) : bool :=
  strict_equal (item !! "docId") (data !! "docId").

(** What [state[key]] holds. *)
Inductive property : Type :=
| PListeners
| PArray (items : list Doc).

(** [state[key]] *)
Definition state_get (key : string) (s : State) : option property :=
  if String.eqb key "listeners" then Some PListeners
  else PArray <$> arrays s !! key.

(** The array [state[key]] after a change in place. *)
Definition set_array (key : string) (items : list Doc) (s : State) : State :=
  {| arrays := <[key := items]> (arrays s); listeners := listeners s |}.

(** [!collection]: absent or the empty string. *)
Definition no_collection (collection : option string) : bool :=
  match collection with
  | Some c => String.eqb c ""
  | None => true
  end.

(** [state[collection]] as the receiver of [findIndex]. *)
Definition items_of (collection : string) (s : State) : result (list Doc) :=
  match state_get collection s with
  | Some (PArray items) => inr items
  | Some PListeners => inl (TypeError "items.findIndex is not a function")
  | None =>
      inl (TypeError "Cannot read properties of undefined (reading 'findIndex')")
  end.

(** [addMaster(state, { collection, data })] *)
Definition addMaster (collection : option string) (data : option Doc)
    (w : World) : result unit * World :=
  match collection, data with
  | Some c, Some d =>
      if no_collection collection then (inr tt, w)
      else
        match items_of c (state w) with
        | inl e => (inl e, w)
        | inr items =>
            match findIndex (same_docId d) items with
            | None => (inr tt, set_state (set_array c (items ++ [d]) (state w)) w)
            | Some index =>
                (inr tt, set_state (set_array c (<[index := d]> items) (state w)) w)
            end
        end
  | _, _ => (inr tt, w)
  end.

(** [removeMaster(state, { collection, data })] *)
Definition removeMaster (collection : option string) (data : option Doc)
    (w : World) : result unit * World :=
  match collection, data with
  | Some c, Some d =>
      if no_collection collection then (inr tt, w)
      else
        match items_of c (state w) with
        | inl e => (inl e, w)
        | inr items =>
            match findIndex (same_docId d) items with
            | None => (inr tt, w)
            | Some index =>
                (inr tt, set_state (set_array c (base.delete index items) (state w)) w)
            end
        end
  | _, _ => (inr tt, w)
  end.

(** [state.listeners[collection]]; the outer [None] is [undefined]. *)
Fixpoint listener_of (collection : string) (ls : list (string * option nat))
    : option (option nat) :=
  match ls with
  | [] => None
  | (key, l) :: rest =>
      if String.eqb key collection then Some l else listener_of collection rest
  end.

(** [collection in state.listeners] for a name that is not the name of a
    member of [Object.prototype]. *)
Definition in_listeners (collection : string) (s : State) : bool :=
  match listener_of collection (listeners s) with
  | Some _ => true
  | None => false
  end.

(** [state.listeners[collection] = listener] for a name the object has. *)
Definition set_listener (collection : string) (listener : option nat)
    (s : State) : State :=
  {| arrays := arrays s;
     listeners := map (fun kv : string * option nat =>
                         if String.eqb kv.1 collection then (kv.1, listener) else kv)
                      (listeners s) |}.

Definition not_exist (collection : string) : string :=
  "[Vuex] The " +:+ collection +:+ " collection does not exist.".

(** [addListener(state, { collection, listener })] *)
Definition addListener (collection : option string) (listener : option nat)
    (w : World) : World :=
  match collection, listener with
  | Some c, Some l =>
      if no_collection collection
      then emit (ConsoleError
                   "[Vuex] Parameter 'collection' and 'listeners' must be specified.") w
      else if in_listeners c (state w)
      then set_state (set_listener c (Some l) (state w)) w
      else emit (ConsoleError (not_exist c)) w
  | _, _ =>
      emit (ConsoleError
              "[Vuex] Parameter 'collection' and 'listeners' must be specified.") w
  end.

(** [keys.forEach((key) => { state[key].splice(0) })] *)
Fixpoint clear_arrays (keys : list string) (s : State) : result unit * State :=
  match keys with
  | [] => (inr tt, s)
  | key :: rest =>
      match state_get key s with
      | Some (PArray _) => clear_arrays rest (set_array key [] s)
      | Some PListeners => (inl (TypeError "state[key].splice is not a function"), s)
      | None =>
          (inl (TypeError "Cannot read properties of undefined (reading 'splice')"), s)
      end
  end.

(** [removeListener(state, collection)] *)
Definition removeListener (collection : option string) (w : World)
    : result unit * World :=
  match collection with
  | Some c =>
      if no_collection collection
      then (inr tt, emit (ConsoleError
                            "[Vuex] Parameter 'collection' must be specified.") w)
      else
        match listener_of c (listeners (state w)) with
        | None => (inr tt, emit (ConsoleError (not_exist c)) w)
        | Some listener =>
            let w1 := match listener with
                      | Some l => emit (ListenerCalled l) w
                      | None => w
                      end in
            let r := clear_arrays (listeners (state w1)).*1 (state w1) in
            (r.1, set_state r.2 w1)
        end
  | None =>
      (inr tt, emit (ConsoleError
                       "[Vuex] Parameter 'collection' must be specified.") w)
  end.

(** The loop of [unsubscribe]: [commit('removeListener', key)] for each
    key, up to the first that throws. *)
Fixpoint removeListener_each (keys : list string) (w : World)
    : result unit * World :=
  match keys with
  | [] => (inr tt, w)
  | key :: rest =>
      match removeListener (Some key) w with
      | (inr _, w') => removeListener_each rest w'
      | (inl e, w') => (inl e, w')
      end
  end.

(** [err.message] of what a [catch] block of the module caught. *)
Definition message_of (err : thrown) : result (option value) :=
  match err with
  | ThrowError _ message => inr (Some (VStr message))
  | ThrowValue None =>
      inl (TypeError "Cannot read properties of undefined (reading 'message')")
  | ThrowValue (Some VNull) =>
      inl (TypeError "Cannot read properties of null (reading 'message')")
  | ThrowValue (Some (VObj m)) => inr (m !! "message")
  | ThrowValue (Some _) => inr None
  end.

(** [unsubscribe({ state, commit })]: the promise resolves, or rejects
    with what the loop threw. *)
Definition unsubscribe (w : World) : result unit * World :=
  match removeListener_each (listeners (state w)).*1 w with
  | (inr _, w') => (inr tt, w')
  | (inl err, w') =>
      let w2 := emit (ConsoleErrorOf err) w' in
      match message_of err with
      | inl e => (inl e, w2)
      | inr message => (inl err, emit (Alert (template message)) w2)
      end
  end.

(** The kinds of a document change. *)
Inductive change_type : Type := added | modified | removed.

(** The body of the [docChanges().forEach] of the snapshot callback that
    [subscribe] registers for [key]. *)
Definition on_change (key : string) (change : change_type * Doc) (w : World)
    : result unit * World :=
  match change.1 with
  | added | modified => addMaster (Some key) (Some change.2) w
  | removed => removeMaster (Some key) (Some change.2) w
  end.

(** The snapshot callback: the changes in order, up to the first commit
    that throws. *)
Fixpoint on_snapshot (key : string) (changes : list (change_type * Doc))
    (w : World) : result unit * World :=
  match changes with
  | [] => (inr tt, w)
  | change :: rest =>
      match on_change key change w with
      | (inr _, w') => on_snapshot key rest w'
      | (inl e, w') => (inl e, w')
      end
  end.

(** The second loop of [subscribe] for one key: [commit('addMaster', ...)]
    for each document that [getDocs] returned. *)
Definition preload (key : string) (docs : list Doc) (w : World)
    : result unit * World :=
  on_snapshot key (map (fun d => (added, d)) docs) w.

End Masters.

(** ** Notions for the statements about the master-data store *)

(** The document id of a master record, when it is a string. *)
Definition id_of (d : Doc) : option string :=
  match d !! "docId" with
  | Some (VStr id) => Some id
  | _ => None
  end.

(** The string ids of the records, in the order of the array. *)
Definition ids (items : list Doc) : list string := omap id_of items.

(** The array read as a map from id to record. *)
Definition by_id (items : list Doc) : gmap string Doc :=
  list_to_map (omap (fun d => (fun id => (id, d)) <$> id_of d) items).

(** A document change read as a change of that map. *)
Definition change_map (change : Masters.change_type * Doc)
    (m : gmap string Doc) : gmap string Doc :=
  match id_of change.2 with
  | Some id =>
      match change.1 with
      | Masters.removed => base.delete id m
      | _ => <[id := change.2]> m
      end
  | None => m
  end.

(** The calls that end the subscriptions registered in [listeners]. *)
Definition listener_calls (ls : list (string * option nat)) : list Masters.event :=
  omap (fun kv : string * option nat => Masters.ListenerCalled <$> kv.2) ls.

(** A state with the arrays [Customers] and [Sites], both registered in
    [listeners], the first with a listener. *)
Definition masters_demo : Masters.World :=
  {| Masters.state :=
       {| Masters.arrays :=
            {[ "Customers" := [ {[ "docId" := VStr "c1"; "name" := VStr "Ann" ]};
                                {[ "docId" := VStr "c2"; "name" := VStr "Bob" ]} ];
               "Sites" := [ {[ "docId" := VStr "s1" ]} ] ]};
          Masters.listeners := [("Customers", Some 7%nat); ("Sites", None)] |};
     Masters.log := [] |}.

(** ** Further concrete inputs *)


(** The customer [c1] over a store that holds its document and no
    dependent one. *)
Definition customer_alone : World :=
  world_of customer_c1
    {| docs := {[ ("Customers", "c1") := customer_doc ]}; autonumbers := ∅ |}.

(** The named item over the store that holds the item [i1]. *)
Definition item_world : World := world_of item_named item_store.

(** The record of [numbered_store 41 5]. *)
Definition users_41 : Autonumber :=
  {| an_current := 41; an_length := 5; an_field := "code"; an_condition := true |}.

(** A record whose width is no array length, and one of width 0. *)
Definition users_negative : Autonumber :=
  {| an_current := 7; an_length := -1; an_field := "code"; an_condition := true |}.
Definition users_unpadded : Autonumber :=
  {| an_current := 7; an_length := 0; an_field := "code"; an_condition := true |}.

(** A book whose declared token field holds a number. *)
Definition book_numbered : FireModel :=
  set_tokenFields ["title"] (assign "title" (VNum 7) (new_FireModel "Books")).

(** Two master records, the second a newer version of [c2]. *)
Definition master_c3 : Doc := {[ "docId" := VStr "c3"; "name" := VStr "Cy" ]}.
Definition master_c2 : Doc := {[ "docId" := VStr "c2"; "name" := VStr "Bea" ]}.

(** The array [Customers] of [masters_demo]. *)
Definition demo_customers : list Doc :=
  [ {[ "docId" := VStr "c1"; "name" := VStr "Ann" ]};
    {[ "docId" := VStr "c2"; "name" := VStr "Bob" ]} ].

(** ** Facts about the JavaScript primitives *)
Section JsFacts.

Lemma chars_str l : chars (str l) = l.
Proof. apply list_ascii_of_string_of_list_ascii. Qed.

Lemma str_chars s : str (chars s) = s.
Proof. apply string_of_list_ascii_of_string. Qed.

Lemma append_nil s : "" +:+ s = s.
Proof. reflexivity. Qed.

Lemma append_cons c s t : String c s +:+ t = String c (s +:+ t).
Proof. reflexivity. Qed.

Lemma chars_app s t : chars (s +:+ t) = chars s ++ chars t.
Proof.
  induction s as [|c s IH]; [done|].
  rewrite append_cons. simpl. f_equal. exact IH.
Qed.

Lemma chars_inj s t : chars s = chars t → s = t.
Proof. intros E. by rewrite <- (str_chars s), <- (str_chars t), E. Qed.

Lemma length_chars s : length (chars s) = String.length s.
Proof. induction s as [|c s IH]; simpl; [done | f_equal; exact IH]. Qed.

Lemma chars_repeat_zero k : chars (repeat_string k "0") = replicate k "0"%char.
Proof.
  induction k as [|k IH]; [done|].
  simpl repeat_string. rewrite chars_app, IH. done.
Qed.

Lemma app_singleton_assoc s c t : (s +:+ String c "") +:+ t = s +:+ String c t.
Proof.
  induction s as [|d s IH]; [done|].
  rewrite !append_cons. f_equal. exact IH.
Qed.

(** The accumulator of stdpp's printer is a suffix of its output. *)
Lemma pretty_N_go_app (x : N) s : pretty_N_go x s = pretty_N_go x "" +:+ s.
Proof.
  revert s. induction (N.lt_wf_0 x) as [x _ IH]; intros s.
  destruct (decide (x = 0)%N) as [->|Hx]; [done|].
  rewrite !(pretty_N_go_step x) by lia.
  rewrite (IH (x / 10)%N) by (apply N.div_lt; lia).
  rewrite (IH (x / 10)%N ltac:(apply N.div_lt; lia) (String _ "")).
  by rewrite app_singleton_assoc.
Qed.

Lemma pretty_N_small (x : N) :
  (x < 10)%N → pretty x = String (pretty_N_char x) "".
Proof.
  intros Hx. unfold pretty, pretty_N. case_decide as H0; [by subst|].
  rewrite pretty_N_go_step by lia.
  rewrite N.div_small, N.mod_small by done. done.
Qed.

Lemma pretty_N_large (x : N) :
  (10 <= x)%N →
  pretty x = pretty (x / 10)%N +:+ String (pretty_N_char (x mod 10)%N) "".
Proof.
  intros Hx. unfold pretty, pretty_N.
  assert (0 < x / 10)%N by (apply N.div_str_pos; lia).
  rewrite !decide_False by lia.
  rewrite pretty_N_go_step by lia. apply pretty_N_go_app.
Qed.

Lemma number_to_string_nonneg (n : Z) :
  0 <= n → number_to_string n = pretty (Z.to_N n).
Proof. intros Hn. destruct n as [|p|p]; [done | done | lia]. Qed.

Lemma pretty_N_nonempty (x : N) : (0 < length (chars (pretty x)))%nat.
Proof.
  destruct (decide (x < 10)%N).
  - rewrite pretty_N_small by done. simpl. lia.
  - rewrite pretty_N_large by lia. rewrite chars_app, length_app. simpl. lia.
Qed.

Lemma length_low_digits k n : length (low_digits k n) = k.
Proof.
  revert n. induction k as [|k IH]; intros n; simpl; [done|].
  rewrite length_app, IH. simpl. lia.
Qed.

Lemma low_digits_0 k : low_digits k 0 = replicate k "0"%char.
Proof.
  induction k as [|k IH]; [done|].
  change (low_digits (S k) 0) with (low_digits k 0 ++ ["0"%char]).
  rewrite IH. by rewrite <- replicate_cons_app.
Qed.

(** The [k] last characters of a zero-padded number are its [k] low
    digits, as soon as the padding brings it to [k] characters. *)
Lemma drop_padded k : ∀ (m : nat) (n : N),
  (k <= m + 1)%nat →
  drop (length (replicate m "0"%char ++ chars (pretty n)) - k)
       (replicate m "0"%char ++ chars (pretty n))
  = low_digits k n.
Proof.
  induction k as [|k IH]; intros m n Hk.
  - rewrite Nat.sub_0_r. by rewrite drop_all.
  - destruct (decide (n < 10)%N) as [Hn|Hn].
    + rewrite pretty_N_small by done. simpl chars.
      rewrite length_app, length_replicate. simpl length.
      replace (m + 1 - S k)%nat with (m - k)%nat by lia.
      rewrite drop_app_le by (rewrite length_replicate; lia).
      rewrite drop_replicate. simpl low_digits.
      rewrite N.div_small, N.mod_small by done.
      rewrite low_digits_0. do 2 f_equal. lia.
    + rewrite pretty_N_large by lia. rewrite chars_app. simpl (chars (String _ "")).
      rewrite app_assoc.
      rewrite length_app. simpl length.
      replace (length (replicate m "0"%char ++ chars (pretty (n / 10)%N)) + 1 - S k)%nat
        with (length (replicate m "0"%char ++ chars (pretty (n / 10)%N)) - k)%nat by lia.
      rewrite drop_app_le by lia.
      rewrite IH by lia. done.
Qed.

Lemma low_digits_zero_iff k : ∀ n : N,
  low_digits k n = replicate k "0"%char ↔ (n mod 10 ^ N.of_nat k = 0)%N.
Proof.
  induction k as [|k IH]; intros n.
  - simpl. rewrite N.mod_1_r. done.
  - change (low_digits (S k) n)
      with (low_digits k (n / 10)%N ++ [pretty_N_char (n mod 10)%N]).
    rewrite replicate_S_end.
    rewrite Nat2N.inj_succ, N.pow_succ_r'.
    assert (n mod (10 * 10 ^ N.of_nat k)
            = n mod 10 + 10 * ((n / 10) mod 10 ^ N.of_nat k))%N as ->.
    { apply N.Div0.mod_mul_r. }
    assert (n mod 10 < 10)%N as Hr by (apply N.mod_lt; lia).
    specialize (IH (n / 10)%N).
    destruct IH as [IH1 IH2].
    generalize dependent ((n / 10) mod 10 ^ N.of_nat k)%N.
    generalize dependent (n mod 10)%N.
    intros r Hr q IH1 IH2. split.
    + intros E. apply app_inj_tail in E as [E1 E2].
      apply IH1 in E1.
      apply (pretty_N_char_inj _ 0%N) in E2; [lia | done | lia].
    + intros E.
      assert (q = 0)%N as E1 by lia.
      assert (r = 0)%N as E2 by lia.
      rewrite IH2 by done. by rewrite E2.
Qed.

Lemma low_digits_padded k : ∀ n : N,
  (n < 10 ^ N.of_nat k)%N → (0 < k)%nat →
  low_digits k n
  = replicate (k - length (chars (pretty n))) "0"%char ++ chars (pretty n).
Proof.
  induction k as [|k IH]; intros n Hn Hk; [lia|].
  change (low_digits (S k) n)
    with (low_digits k (n / 10)%N ++ [pretty_N_char (n mod 10)%N]).
  destruct (decide (n < 10)%N) as [Hs|Hs].
  - rewrite pretty_N_small by done. simpl chars. simpl length.
    rewrite N.div_small, N.mod_small by done. rewrite low_digits_0.
    do 2 f_equal. lia.
  - rewrite pretty_N_large by lia. rewrite chars_app. simpl (chars (String _ "")).
    rewrite length_app. simpl length.
    assert (n / 10 < 10 ^ N.of_nat k)%N as Hd.
    { apply N.Div0.div_lt_upper_bound.
      rewrite Nat2N.inj_succ, N.pow_succ_r' in Hn. lia. }
    assert (0 < k)%nat as Hk'.
    { destruct k; [simpl in Hd|lia].
      assert (0 < n / 10)%N by (apply N.div_str_pos; lia). lia. }
    rewrite IH by done. rewrite <- app_assoc. f_equal.
    + f_equal. lia.
Qed.

End JsFacts.

(** ** Facts about the plumbing of the methods *)
Section Plumbing.
Context {subclass : Subclass} {host : Host}.

Lemma bind_inr {A B} (m : M A) (k : A → M B) w b w' :
  bind m k w = (inr b, w') ↔ ∃ a w1, m w = (inr a, w1) ∧ k a w1 = (inr b, w').
Proof.
  unfold bind. destruct (m w) as [[e|a] w1]; split.
  - discriminate.
  - intros (a & w2 & [=] & _).
  - eauto.
  - by intros (a' & w2 & [= -> ->] & Hk).
Qed.

Lemma bind_inl {A B} (m : M A) (k : A → M B) w e w' :
  m w = (inl e, w') → bind m k w = (inl e, w').
Proof. unfold bind. by intros ->. Qed.

Lemma bind_step {A B} (m : M A) (k : A → M B) w a w1 :
  m w = (inr a, w1) → bind m k w = k a w1.
Proof. unfold bind. by intros ->. Qed.

Lemma try_catch_inr {A} (body : M A) w a w' :
  try_catch body w = (inr a, w') ↔ body w = (inr a, w').
Proof.
  unfold try_catch. destruct (body w) as [[e|a'] w1]; [|done].
  split; [|discriminate].
  destruct (message_of e); [discriminate|]. unfold bind, sendConsole, modify, throw.
  discriminate.
Qed.

Lemma catch_log_inr {A} (promise : M A) message w a w' :
  catch_log promise message w = (inr a, w') ↔ promise w = (inr a, w').
Proof.
  unfold catch_log. destruct (promise w) as [[e|a'] w1]; [|done].
  split; [|discriminate]. unfold bind, sendConsole, modify, throw. discriminate.
Qed.

Lemma call_hook_inr h message w u w' :
  call_hook h message w = (inr u, w') ↔ hooks h (emit (HookCalled h) w) = (Resolved, w').
Proof.
  unfold call_hook. destruct (hooks h _) as [[|e|e] w1]; split;
    try discriminate; try (destruct u; congruence).
  all: unfold bind, sendConsole, modify, throw; discriminate.
Qed.

Lemma sendConsole_run type message params w :
  sendConsole type message params w
  = (inr tt, emit (Console type ("[FireModel] " +:+ message) params) w).
Proof. reflexivity. Qed.

Lemma trace_emit e w : trace (emit e w) = trace w ++ [e].
Proof. reflexivity. Qed.
Lemma store_emit e w : store (emit e w) = store w.
Proof. reflexivity. Qed.
Lemma this_emit e w : this (emit e w) = this w.
Proof. reflexivity. Qed.
Lemma ticks_emit e w : ticks (emit e w) = ticks w.
Proof. reflexivity. Qed.
Lemma uid_emit e w : currentUser_uid (emit e w) = currentUser_uid w.
Proof. reflexivity. Qed.

End Plumbing.

(** ** Auto-numbering *)
Section Autonumbering.

Lemma Array_join_ok (n : Z) sep :
  0 <= n <= 2 ^ 32 - 1 →
  Array_join n sep = inr (repeat_string (Z.to_nat (n - 1)) sep).
Proof.
  intros Hn. unfold Array_join.
  destruct (Z.leb_spec 0 n); [|lia].
  destruct (Z.leb_spec n (2 ^ 32 - 1)); [done|lia].
Qed.

(** The code that lines 287 computes is made of the low digits of the
    next number. *)
Lemma newCode_low_digits (len num : Z) :
  1 <= len → 0 <= num →
  slice (repeat_string (Z.to_nat (len - 1)) "0" +:+ number_to_string num) (- len)
  = str (low_digits (Z.to_nat len) (Z.to_N num)).
Proof.
  intros Hlen Hnum. unfold slice.
  rewrite number_to_string_nonneg by done.
  rewrite chars_app, chars_repeat_zero.
  destruct (Z.ltb_spec (- len) 0); [|lia].
  f_equal.
  set (l := replicate (Z.to_nat (len - 1)) "0"%char ++ chars (pretty (Z.to_N num))).
  replace (Z.to_nat (Z.max (Z.of_nat (length l) + - len) 0))
    with (length l - Z.to_nat len)%nat by lia.
  apply drop_padded. lia.
Qed.

Lemma low_digits_all_zero (len num : Z) :
  0 <= len → 0 <= num →
  str (low_digits (Z.to_nat len) (Z.to_N num)) = repeat_string (Z.to_nat len) "0"
  ↔ num mod 10 ^ len = 0.
Proof.
  intros Hlen Hnum.
  assert (Z.of_N (Z.to_N num mod 10 ^ N.of_nat (Z.to_nat len)) = num mod 10 ^ len) as Hmod.
  { rewrite N2Z.inj_mod, N2Z.inj_pow, Z2N.id, nat_N_Z, Z2Nat.id by done. done. }
  rewrite <- Hmod. change 0 with (Z.of_N 0).
  rewrite (inj_iff Z.of_N), <- low_digits_zero_iff. split.
  - intros E. apply (f_equal chars) in E.
    by rewrite chars_str, chars_repeat_zero in E.
  - intros E. apply chars_inj. by rewrite chars_str, chars_repeat_zero.
Qed.

(** What the allocation does on every record whose width [Array] accepts
    and whose current number is not negative. *)
Lemma allocate_spec (col : string) (a : Autonumber) :
  1 <= an_length a <= 2 ^ 32 - 2 → 0 <= an_current a →
  allocate col a
  = if decide ((an_current a + 1) mod 10 ^ an_length a = 0)
    then inl (exhausted col)
    else inr (an_current a + 1,
              str (low_digits (Z.to_nat (an_length a)) (Z.to_N (an_current a + 1)))).
Proof.
  intros Hlen Hcur. unfold allocate.
  rewrite !Array_join_ok by lia.
  rewrite newCode_low_digits by lia.
  replace (an_length a + 1 - 1) with (an_length a) by lia.
  destruct (String.eqb_spec
              (str (low_digits (Z.to_nat (an_length a)) (Z.to_N (an_current a + 1))))
              (repeat_string (Z.to_nat (an_length a)) "0")) as [E|E];
    rewrite low_digits_all_zero in E by lia.
  - by rewrite decide_True.
  - by rewrite decide_False.
Qed.

Lemma str_low_digits_padded (len num : Z) :
  1 <= len → 0 <= num < 10 ^ len →
  str (low_digits (Z.to_nat len) (Z.to_N num)) = zero_padded (Z.to_nat len) num
  ∧ String.length (zero_padded (Z.to_nat len) num) = Z.to_nat len.
Proof.
  intros Hlen Hnum.
  assert (str (low_digits (Z.to_nat len) (Z.to_N num)) = zero_padded (Z.to_nat len) num) as E.
  { apply chars_inj. unfold zero_padded.
    rewrite chars_str, chars_app, chars_repeat_zero.
    rewrite number_to_string_nonneg by lia.
    rewrite <- length_chars. apply low_digits_padded; [|lia].
    apply N2Z.inj_lt.
    rewrite N2Z.inj_pow, Z2N.id, nat_N_Z, Z2Nat.id by lia. lia. }
  split; [done|].
  rewrite <- E, <- length_chars, chars_str. apply length_low_digits.
Qed.

(** Inside its range a record is exhausted exactly at the last code. *)
Lemma valid_mod_zero_iff (a : Autonumber) :
  valid_autonumber a →
  (an_current a + 1) mod 10 ^ an_length a = 0 ↔ 10 ^ an_length a <= an_current a + 1.
Proof.
  intros (Hlen & Hcur & _).
  assert (0 < 10 ^ an_length a) by (apply Z.pow_pos_nonneg; lia).
  split.
  - intros E. destruct (decide (an_current a + 1 < 10 ^ an_length a)); [|lia].
    rewrite Z.mod_small in E by lia. lia.
  - intros E. replace (an_current a + 1) with (10 ^ an_length a) by lia.
    apply Z_mod_same_full.
Qed.

End Autonumbering.

(** ** The token index *)
Section TokenIndex.

Lemma fromEntries_from (arr : list (string * bool)) : ∀ (m : gmap string bool) k v,
  Forall (fun kv => kv.2 = true) arr →
  (∀ k' v', m !! k' = Some v' → v' = true) →
  foldl (fun m kv => <[kv.1 := kv.2]> m) m arr !! k = Some v
  ↔ v = true ∧ (k ∈ arr.*1 ∨ is_Some (m !! k)).
Proof.
  induction arr as [|[k0 v0] arr IH]; intros m k v Hall Hm.
  - simpl. rewrite elem_of_nil. split.
    + intros E. split; [by eapply Hm | right; eauto].
    + intros [-> [[]|[v' E]]]. rewrite E. f_equal. by eapply Hm.
  - apply Forall_cons in Hall as [Hv0 Hall]. simpl in Hv0. subst v0.
    simpl foldl. rewrite IH; [|done|].
    + rewrite fmap_cons, elem_of_cons. simpl.
      destruct (decide (k = k0)) as [->|Hne].
      * rewrite lookup_insert_eq. split; intros [-> _]; eauto.
      * rewrite lookup_insert_ne by done. split; intros [-> H]; (split; [done|]).
        -- destruct H; eauto.
        -- destruct H as [[?|?]|?]; eauto. done.
    + intros k' v'. destruct (decide (k' = k0)) as [->|Hne].
      * rewrite lookup_insert_eq. by intros [= <-].
      * rewrite lookup_insert_ne by done. apply Hm.
Qed.

Lemma fromEntries_lookup (arr : list (string * bool)) k v :
  Forall (fun kv => kv.2 = true) arr →
  fromEntries arr !! k = Some v ↔ v = true ∧ k ∈ arr.*1.
Proof.
  intros Hall. unfold fromEntries. rewrite fromEntries_from; [|done|].
  - rewrite lookup_empty. split; intros [-> H]; (split; [done|]); eauto.
    destruct H as [?|[? ?]]; done.
  - intros k' v'. by rewrite lookup_empty.
Qed.

Lemma ngram_entries_true s : Forall (fun kv => kv.2 = true) (ngram_entries s).
Proof.
  unfold ngram_entries. apply Forall_app. split; apply Forall_forall;
    intros kv Hkv; apply list_elem_of_fmap in Hkv as (i & -> & _); done.
Qed.

Lemma ngram_entries_keys s k : k ∈ (ngram_entries s).*1 ↔ is_token k s.
Proof.
  unfold ngram_entries, is_token, substring.
  set (t := strip_whitespace (chars s)).
  rewrite fmap_app, elem_of_app, <- !list_fmap_compose. split.
  - intros [H|H]; apply list_elem_of_fmap in H as (i & -> & Hi);
      apply elem_of_seq in Hi; simpl.
    + exists i, 1%nat. split; [by left|]. split; [lia|].
      by replace (i + 1 - i)%nat with 1%nat by lia.
    + exists i, 2%nat. split; [by right|]. split; [lia|].
      by replace (i + 2 - i)%nat with 2%nat by lia.
  - intros (i & n & [->| ->] & Hi & ->).
    + left. apply list_elem_of_fmap. exists i. split.
      * simpl. by replace (i + 1 - i)%nat with 1%nat by lia.
      * apply elem_of_seq. lia.
    + right. apply list_elem_of_fmap. exists i. split.
      * simpl. by replace (i + 2 - i)%nat with 2%nat by lia.
      * apply elem_of_seq. lia.
Qed.

Lemma tokenMap_entries_true fs i arr :
  tokenMap_entries fs i = inr arr → Forall (fun kv => kv.2 = true) arr.
Proof.
  revert arr. induction fs as [|f fs IH]; intros arr; simpl.
  - intros [= <-]. constructor.
  - destruct (attrs i !! f) as [[]|]; try discriminate; [|by apply IH].
    destruct (tokenMap_entries fs i) as [e|arr']; [discriminate|].
    intros [= <-]. apply Forall_app. split; [apply ngram_entries_true | by apply IH].
Qed.

Lemma tokenMap_entries_keys fs i arr k :
  tokenMap_entries fs i = inr arr →
  k ∈ arr.*1 ↔ ∃ f s, f ∈ fs ∧ attrs i !! f = Some (VStr s) ∧ is_token k s.
Proof.
  revert arr. induction fs as [|f fs IH]; intros arr; simpl.
  - intros [= <-]. split; [by intros ?%elem_of_nil|].
    by intros (f & s & ?%elem_of_nil & _).
  - destruct (attrs i !! f) as [[| | |s| |]|] eqn:Ef; try discriminate.
    + destruct (tokenMap_entries fs i) as [e|arr']; [discriminate|].
      intros [= <-]. rewrite fmap_app, elem_of_app, ngram_entries_keys, (IH arr' eq_refl).
      split.
      * intros [H|(f' & s' & Hf' & Ha & Ht)].
        -- exists f, s. rewrite elem_of_cons. eauto.
        -- exists f', s'. rewrite elem_of_cons. eauto.
      * intros (f' & s' & Hf' & Ha & Ht). apply elem_of_cons in Hf' as [->|Hf'].
        -- left. rewrite Ef in Ha. by injection Ha as ->.
        -- right. eauto.
    + intros E. rewrite (IH arr E). split.
      * intros (f' & s' & Hf' & Ha & Ht). exists f', s'. rewrite elem_of_cons. eauto.
      * intros (f' & s' & Hf' & Ha & Ht). apply elem_of_cons in Hf' as [->|Hf'].
        -- by rewrite Ef in Ha.
        -- eauto.
Qed.

Lemma tokenMap_entries_total fs i :
  (∀ f v, f ∈ fs → attrs i !! f = Some v → ∃ s, v = VStr s) →
  ∃ arr, tokenMap_entries fs i = inr arr.
Proof.
  induction fs as [|f fs IH]; intros Hstr; simpl; [eauto|].
  destruct IH as [arr Harr].
  { intros f' v Hf'. apply Hstr. by right. }
  destruct (attrs i !! f) as [v|] eqn:Ef; [|eauto].
  destruct (Hstr f v) as [s ->]; [by left | done |].
  rewrite Harr. eauto.
Qed.

(** C6. The token map of a string has exactly the tokens of the string as
    keys, each mapped to [true]; the [tokenMap] property has exactly the
    tokens of the declared fields that hold a string, is produced whenever
    the declared fields present hold strings, and over one field is the
    token map of its value. *)
Theorem token_map_exact :
  (∀ s k v, getNgramTokenMap s !! k = Some v ↔ v = true ∧ is_token k s)
  ∧ (∀ i m, tokenMap_get i = inr (Some m) →
       ∀ k v, m !! k = Some v
              ↔ v = true ∧ ∃ f s, f ∈ priv_tokenFields i
                                  ∧ attrs i !! f = Some (VStr s) ∧ is_token k s)
  ∧ (∀ i, priv_tokenFields i ≠ [] →
       (∀ f v, f ∈ priv_tokenFields i → attrs i !! f = Some v → ∃ s, v = VStr s) →
       ∃ m, tokenMap_get i = inr (Some m))
  ∧ (∀ i f s, priv_tokenFields i = [f] → attrs i !! f = Some (VStr s) →
       tokenMap_get i = inr (Some (getNgramTokenMap s))).
Proof.
  split; [|split; [|split]].
  - intros s k v. unfold getNgramTokenMap.
    rewrite fromEntries_lookup by apply ngram_entries_true.
    by rewrite ngram_entries_keys.
  - intros i m Hget k v. unfold tokenMap_get in Hget.
    destruct (priv_tokenFields i) as [|f fs] eqn:Efs; [discriminate|].
    destruct (tokenMap_entries (f :: fs) i) as [e|arr] eqn:Earr; [discriminate|].
    injection Hget as <-.
    rewrite fromEntries_lookup by (by eapply tokenMap_entries_true).
    by rewrite (tokenMap_entries_keys _ _ _ _ Earr).
  - intros i Hne Hstr. unfold tokenMap_get.
    destruct (tokenMap_entries_total _ _ Hstr) as [arr Harr].
    destruct (priv_tokenFields i) as [|f fs]; [done|].
    rewrite Harr. eauto.
  - intros i f s Hfs Hf. unfold tokenMap_get. rewrite Hfs. simpl.
    rewrite Hf. simpl. by rewrite app_nil_r.
Qed.

(** C7. Without declared token fields the property reads [null], which is
    not the empty map; the setter leaves the instance as it is, so a read
    after an assignment gives what it gave before; a read depends on the
    declared fields and the current attributes only, and follows an
    attribute that changes. *)
Theorem tokenMap_absent_and_derived :
  (∀ i, priv_tokenFields i = [] →
     tokenMap_get i = inr None ∧ tokenMap_get i ≠ inr (Some ∅))
  ∧ (∀ i v, tokenMap_set v i = i ∧ tokenMap_get (tokenMap_set v i) = tokenMap_get i)
  ∧ (∀ i j, priv_tokenFields i = priv_tokenFields j → attrs i = attrs j →
       tokenMap_get i = tokenMap_get j)
  ∧ (∀ i f s, priv_tokenFields i = [f] → f ≠ "tokenMap" →
       tokenMap_get (assign f (VStr s) i) = inr (Some (getNgramTokenMap s))).
Proof.
  split; [|split; [|split]].
  - intros i Hfs. unfold tokenMap_get. rewrite Hfs. by split.
  - intros i v. by split.
  - intros i j Hfs Hattrs. unfold tokenMap_get. rewrite Hfs.
    assert (∀ fs, tokenMap_entries fs i = tokenMap_entries fs j) as Hsame.
    { induction fs as [|f fs IH]; simpl; [done|]. by rewrite Hattrs, IH. }
    destruct (priv_tokenFields j); [done|]. by rewrite Hsame.
  - intros i f s Hfs Hne. unfold tokenMap_get, assign.
    rewrite decide_False by done. simpl. rewrite Hfs. simpl.
    rewrite lookup_insert_eq. simpl. by rewrite app_nil_r.
Qed.

End TokenIndex.

(** ** The lifecycle operations *)
Section Lifecycle.
Context {subclass : Subclass} {host : Host}.

Lemma docId_unset_emit e w : docId_unset (emit e w) = docId_unset w.
Proof. reflexivity. Qed.

(** C8. With [docId] unset (empty), [update()] and [delete()] each reject
    with their state error; nothing happens but the two console messages:
    no hook is called, no store operation is issued, and the store and the
    instance are as they were. *)
Theorem update_delete_require_docId (w : World) :
  docId_unset w = true →
  (∃ w',
      update w
      = (inl (Error "update() should have docId as a property. Call fetch() first."), w')
      ∧ store w' = store w ∧ this w' = this w
      ∧ trace w' = trace w
          ++ [Console info "[FireModel] update() is called." [];
              Console error
                "[FireModel] update() should have docId as a property. Call fetch() first."
                []])
  ∧ (∃ w',
      delete w
      = (inl (Error "delete() should have docId as a property. Call fetch() first."), w')
      ∧ store w' = store w ∧ this w' = this w
      ∧ trace w' = trace w
          ++ [Console info "[FireModel] delete() is called." [];
              Console error
                "[FireModel] delete() should have docId as a property. Call fetch() first."
                []]).
Proof.
  intros Hunset. split.
  - eexists. unfold update, try_catch, bind, gets, sendConsole, modify.
    rewrite docId_unset_emit, Hunset. cbn.
    split; [reflexivity|].
    by rewrite !trace_emit, !store_emit, !this_emit, <- app_assoc.
  - eexists. unfold delete, try_catch, bind, gets, sendConsole, modify.
    rewrite docId_unset_emit, Hunset. cbn.
    split; [reflexivity|].
    by rewrite !trace_emit, !store_emit, !this_emit, <- app_assoc.
Qed.

End Lifecycle.

(** ** [initialize] and [fetch] *)
Section Fetch.
Context {subclass : Subclass} {host : Host}.

Lemma initialize_None_attrs i :
  attrs (initialize None i)
  = <["uid" := VStr ""]> (<["updateDate" := VStr ""]> (<["updateAt" := VNull]>
      (<["createDate" := VStr ""]> (<["createAt" := VNull]>
        (<["docId" := VStr ""]> (attrs i)))))).
Proof. reflexivity. Qed.

(** The constructor of the base class leaves a fresh instance of the
    collection in [this]. *)
Lemma constructor_this (collection : string) (w : World) :
  this (@constructor base_class collection w).2 = new_FireModel collection.
Proof. unfold constructor, bind. by destruct (String.eqb collection ""). Qed.

Lemma initialize_None_private i :
  priv_collection (initialize None i) = priv_collection i
  ∧ priv_hasMany (initialize None i) = priv_hasMany i
  ∧ priv_tokenFields (initialize None i) = priv_tokenFields i
  ∧ tokenMap_enumerable (initialize None i) = tokenMap_enumerable i.
Proof. done. Qed.

Lemma initialize_None_base i k v :
  (k, v) ∈ base_attrs → attrs (initialize None i) !! k = Some v.
Proof.
  intros Hk. rewrite initialize_None_attrs. unfold base_attrs in Hk.
  repeat (apply elem_of_cons in Hk as [[= -> ->]|Hk]; [by simplify_map_eq|]).
  by apply elem_of_nil in Hk.
Qed.

Lemma initialize_None_other i k :
  k ∉ base_attrs.*1 → attrs (initialize None i) !! k = attrs i !! k.
Proof.
  intros Hk. rewrite initialize_None_attrs. unfold base_attrs in Hk. simpl in Hk.
  rewrite !not_elem_of_cons in Hk. destruct Hk as (?&?&?&?&?&?&_).
  by rewrite !lookup_insert_ne by done.
Qed.

Lemma assign_private key v i :
  priv_collection (assign key v i) = priv_collection i
  ∧ priv_hasMany (assign key v i) = priv_hasMany i
  ∧ priv_tokenFields (assign key v i) = priv_tokenFields i
  ∧ tokenMap_enumerable (assign key v i) = tokenMap_enumerable i.
Proof. unfold assign. by case_decide. Qed.

Lemma assign_attrs key v i k :
  attrs (assign key v i) !! k
  = if decide (key = k ∧ key ≠ "tokenMap") then Some v else attrs i !! k.
Proof.
  unfold assign. destruct (decide (key = "tokenMap")) as [->|Hne].
  - by rewrite decide_False by (intros [_ ?]; done).
  - simpl. destruct (decide (key = k)) as [->|Hk].
    + by rewrite lookup_insert_eq, decide_True.
    + rewrite lookup_insert_ne by done. by rewrite decide_False by (intros [? _]; done).
Qed.

Lemma copy_keys_attrs (data : Doc) (ks : list string) : ∀ (acc : FireModel) k,
  attrs (foldl (fun acc key => match data !! key with
                               | Some v => assign key v acc
                               | None => acc
                               end) acc ks) !! k
  = if decide (k ∈ ks ∧ k ≠ "tokenMap")
    then match data !! k with Some v => Some v | None => attrs acc !! k end
    else attrs acc !! k.
Proof.
  induction ks as [|key ks IH]; intros acc k.
  - cbn [foldl]. by rewrite decide_False by (intros [?%elem_of_nil _]; done).
  - cbn [foldl]. rewrite IH. clear IH.
    destruct (decide (k = "tokenMap")) as [->|Htm].
    + rewrite !decide_False by (intros [_ ?]; done).
      destruct (data !! key); [|done]. rewrite assign_attrs.
      by rewrite decide_False by (intros [-> ?]; done).
    + destruct (decide (k ∈ ks)) as [Hin|Hin].
      * rewrite !decide_True by (split; [by (try right)|done]).
        destruct (data !! k) eqn:Ek; [done|].
        destruct (data !! key) eqn:Ekey; [|done]. rewrite assign_attrs.
        by rewrite decide_False by (intros [-> _]; congruence).
      * rewrite (decide_False (P := k ∈ ks ∧ _)) by (intros [? _]; done).
        destruct (decide (k = key)) as [->|Hk].
        -- rewrite decide_True by (split; [by left|done]).
           destruct (data !! key); [|done]. rewrite assign_attrs.
           by rewrite decide_True.
        -- rewrite decide_False by (intros [[?|?]%elem_of_cons _]; done).
           destruct (data !! key); [|done]. rewrite assign_attrs.
           by rewrite decide_False by (intros [? _]; done).
Qed.

Lemma copy_keys_private (data : Doc) (ks : list string) : ∀ acc : FireModel,
  let r := foldl (fun acc key => match data !! key with
                                 | Some v => assign key v acc
                                 | None => acc
                                 end) acc ks in
  priv_collection r = priv_collection acc
  ∧ priv_hasMany r = priv_hasMany acc
  ∧ priv_tokenFields r = priv_tokenFields acc
  ∧ tokenMap_enumerable r = tokenMap_enumerable acc.
Proof.
  induction ks as [|key ks IH]; intros acc; simpl; [done|].
  destruct (IH (match data !! key with Some v => assign key v acc | None => acc end))
    as (-> & -> & -> & ->).
  destruct (data !! key); [apply assign_private | done].
Qed.

Lemma elem_of_keys_of_this i k :
  k ≠ "tokenMap" → k ∈ keys_of_this i ↔ is_Some (attrs i !! k).
Proof.
  intros Hk. unfold keys_of_this. rewrite elem_of_app, list_elem_of_fmap. split.
  - intros [([k' v] & -> & Hkv)|Htm].
    + apply elem_of_map_to_list in Hkv. simpl. eauto.
    + destruct (tokenMap_enumerable i); [|by apply elem_of_nil in Htm].
      apply list_elem_of_singleton in Htm. done.
  - intros [v Hv]. left. exists (k, v). split; [done|]. by apply elem_of_map_to_list.
Qed.

(** What lines 351-353 leave in each attribute. *)
Lemma copy_from_attrs data i k :
  k ≠ "tokenMap" →
  attrs (copy_from data i) !! k
  = match attrs i !! k with
    | Some v => Some (default v (data !! k))
    | None => None
    end.
Proof.
  intros Hk. unfold copy_from. rewrite copy_keys_attrs.
  destruct (attrs i !! k) as [v|] eqn:Ek.
  - rewrite decide_True by (split; [apply elem_of_keys_of_this; eauto | done]).
    by destruct (data !! k).
  - rewrite decide_False; [done|]. intros [Hin _].
    apply elem_of_keys_of_this in Hin as [v Hv]; [|done]. congruence.
Qed.

(** [fetch] of an absent document ends as [this.initialize()] does. *)
Lemma fetch_absent_run (id : string) (w wi : World) :
  id ≠ "" →
  docs (store w) !! (priv_collection (this w), id) = None →
  this_initialize None (fetch_missed id w) = (inr tt, wi) →
  fetch (Some id) w = (inr tt, wi).
Proof.
  intros Hid Habsent Hinit. apply String.eqb_neq in Hid.
  unfold fetch. rewrite (bind_step _ _ _ _ _ (sendConsole_run _ _ _ _)).
  apply try_catch_inr. rewrite Hid.
  unfold bind at 1. unfold gets at 1.
  unfold bind at 1. unfold catch_log at 1. unfold getDoc.
  rewrite store_emit, this_emit, Habsent.
  rewrite (bind_step _ _ _ _ _ (sendConsole_run _ _ _ _)).
  exact Hinit.
Qed.

(** C9, with the reset stated for the class's own [initialize].  [fetch]
    of a non-empty id whose document is absent leaves the store alone and
    calls [this.initialize()]: it resolves with the world that this method
    leaves.  When the class does not override the method, it resolves, the
    six base attributes get their empty values and every other attribute
    and the private slots stay as they are.  On a present document it resolves and
    each attribute of the instance takes the payload's value when the
    payload has its name and keeps its own otherwise; no attribute is
    added. *)
Theorem fetch_absent_resets_base_present_copies (w : World) (id : string) :
  id ≠ "" →
  (docs (store w) !! (priv_collection (this w), id) = None →
   store (fetch_missed id w) = store w
   ∧ this (fetch_missed id w) = this w
   ∧ (∀ wi, this_initialize None (fetch_missed id w) = (inr tt, wi) →
            fetch (Some id) w = (inr tt, wi))
   ∧ ((∀ w0, this_initialize None w0 = base_initialize None w0) →
      ∃ w', fetch (Some id) w = (inr tt, w')
            ∧ store w' = store w
            ∧ this w' = initialize None (this w)
            ∧ (∀ k v, (k, v) ∈ base_attrs → attrs (this w') !! k = Some v)
            ∧ (∀ k, k ∉ base_attrs.*1 → attrs (this w') !! k = attrs (this w) !! k)
            ∧ priv_tokenFields (this w') = priv_tokenFields (this w)
            ∧ priv_hasMany (this w') = priv_hasMany (this w)
            ∧ priv_collection (this w') = priv_collection (this w)))
  ∧ (∀ data, docs (store w) !! (priv_collection (this w), id) = Some data →
     ∃ w', fetch (Some id) w = (inr tt, w')
           ∧ store w' = store w
           ∧ this w' = copy_from data (this w)
           ∧ (∀ k, k ≠ "tokenMap" →
                attrs (this w') !! k
                = match attrs (this w) !! k with
                  | Some v => Some (default v (data !! k))
                  | None => None
                  end)
           ∧ priv_tokenFields (this w') = priv_tokenFields (this w)
           ∧ priv_hasMany (this w') = priv_hasMany (this w)
           ∧ priv_collection (this w') = priv_collection (this w)).
Proof.
  intros Hid. split.
  - intros Habsent.
    split; [reflexivity|]. split; [reflexivity|]. split.
    + intros wi Hinit. by apply fetch_absent_run.
    + intros Hbase. eexists. split.
      * apply fetch_absent_run; [done..|]. rewrite Hbase. reflexivity.
      * cbn. split; [done|]. split; [done|].
        split; [apply initialize_None_base|]. split; [apply initialize_None_other|].
        done.
  - intros data Hdata. apply String.eqb_neq in Hid. eexists.
    unfold fetch, try_catch, catch_log, bind, gets, sendConsole, modify, getDoc.
    rewrite Hid. cbn. rewrite Hdata. cbn.
    split; [reflexivity|]. cbn.
    split; [done|]. split; [done|].
    split; [intros k Hk; by apply copy_from_attrs|].
    destruct (copy_keys_private data (keys_of_this (this w)) (this w)) as (?&?&?&?).
    done.
Qed.

End Fetch.

(** ** [delete] and the dependency check *)
Section Delete.
Context {subclass : Subclass} {host : Host}.

Lemma emit_all_fields es : ∀ w,
  trace (emit_all es w) = trace w ++ es
  ∧ store (emit_all es w) = store w
  ∧ this (emit_all es w) = this w.
Proof.
  induction es as [|e es IH]; intros w.
  - simpl. by rewrite app_nil_r.
  - simpl. destruct (IH (emit e w)) as (-> & -> & ->).
    rewrite trace_emit, <- app_assoc. done.
Qed.

Lemma first_child (P : Dependency → bool) (l : list Dependency) :
  Exists (fun x => P x = true) l →
  ∃ pre d post, l = pre ++ d :: post
                ∧ Forall (fun x => P x = false) pre ∧ P d = true.
Proof.
  induction l as [|x l IH]; intros Hex; [by apply Exists_nil in Hex|].
  destruct (P x) eqn:Ex.
  - exists [], x, l. by repeat split.
  - apply Exists_cons in Hex as [Hx|Hl]; [congruence|].
    destruct (IH Hl) as (pre & d & post & -> & Hpre & Hd).
    exists (x :: pre), d, post. repeat split; [|done]. by constructor.
Qed.

(** The loop queries the entries in order and stops at the first one that
    has a child. *)
Lemma hasChild_from_first docId d post : ∀ pre w,
  get_attr "docId" (this w) = Some docId →
  Forall (fun x => has_child (store w) docId x = false) pre →
  has_child (store w) docId d = true →
  hasChild_from (pre ++ d :: post) w
  = (inr (Some d), emit_all (map (query_of docId) (pre ++ [d])) w).
Proof.
  induction pre as [|x pre IH]; intros w Hid Hpre Hd.
  - simpl. unfold bind, query_children. rewrite Hid.
    unfold has_child in Hd.
    destruct (getDocs _ _ _ _ _ _ _); [discriminate|done].
  - apply Forall_cons in Hpre as [Hx Hpre].
    simpl. unfold bind at 1. unfold query_children at 1. rewrite Hid.
    unfold has_child in Hx.
    destruct (getDocs _ _ _ _ _ _ _) eqn:E; [|discriminate].
    by rewrite IH.
Qed.

(** C4.  When some declared dependency has a child of this [docId], a
    truthy value whose numbers, if it has any, are safe integers,
    [delete()] queries the entries in their order, one query of limit 1
    each, up to the first entry that has a child and no further, and rejects
    with the error whose message names that entry's collection and the
    [docId]; each of these queries answers with one document at most.
    Besides the queries there are only the two console messages: no hook is
    called and the store and the instance are as they were. *)
Theorem delete_refused_by_first_dependency (w : World) (docId : value) :
  get_attr "docId" (this w) = Some docId →
  truthy docId = true →
  safe_numbers docId = true →
  Exists (fun x => has_child (store w) docId x = true) (priv_hasMany (this w)) →
  ∃ pre d post w' message,
    priv_hasMany (this w) = pre ++ d :: post
    ∧ Forall (fun x => has_child (store w) docId x = false) pre
    ∧ has_child (store w) docId d = true
    ∧ message
      = "関連する情報が登録されているため削除できません。" +:+ String "010" "Collection: "
        +:+ collection d +:+ String "010" "docId: " +:+ to_string docId
    ∧ delete w = (inl (Error message), w')
    ∧ store w' = store w
    ∧ this w' = this w
    ∧ trace w'
      = trace w
        ++ [Console info "[FireModel] delete() is called." []]
        ++ map (fun x => GetDocs (collection x) (field x) (condition x) docId 1)
               (pre ++ [d])
        ++ [Console error ("[FireModel] " +:+ message) []]
    ∧ Forall (fun x =>
                (length (getDocs where_holds (collection x) (field x) (condition x)
                           docId 1 (store w)) <= 1)%nat)
             (pre ++ [d]).
Proof.
  intros Hid Htruthy _ Hex.
  destruct (first_child _ _ Hex) as (pre & d & post & Hmany & Hpre & Hd).
  exists pre, d, post. eexists. eexists.
  split; [done|]. split; [done|]. split; [done|]. split; [reflexivity|].
  unfold delete, try_catch, bind, gets, sendConsole, modify, hasChild.
  unfold docId_unset. rewrite this_emit, Hid, Htruthy. cbn [negb].
  unfold throw at 2. unfold ret at 1.
  rewrite this_emit, Hmany.
  rewrite (hasChild_from_first docId d post pre) by done.
  destruct (emit_all_fields (map (query_of docId) (pre ++ [d]))
              (emit (Console info ("[FireModel] " +:+ "delete() is called.") []) w))
    as (Ht & Hs & Hthis).
  rewrite Hthis, this_emit. unfold get_attr in Hid |- *. rewrite Hid.
  cbn. split; [reflexivity|].
  rewrite trace_emit, store_emit, this_emit, Ht, Hs, Hthis, trace_emit, store_emit, this_emit.
  split; [done|]. split; [done|]. split; [by rewrite <- !app_assoc|].
  apply Forall_forall. intros x _. unfold getDocs. rewrite length_take. lia.
Qed.

End Delete.

(** ** [update] *)
Section Update.
Context {subclass : Subclass} {host : Host}.

(** The payload of a destructuring: the named attributes are left out and
    every other attribute is in it with its value. *)
Lemma rest_of_this_lookup named i item :
  rest_of_this named i = inr item →
  (∀ k, k ∈ named → k ≠ "tokenMap" → item !! k = None)
  ∧ (∀ k v, attrs i !! k = Some v → k ∉ named → item !! k = Some v)
  ∧ (∀ k, attrs i !! k = None → k ≠ "tokenMap" → item !! k = None).
Proof.
  unfold rest_of_this. intros Hitem.
  set (own := filter (fun kv : string * value => kv.1 ∉ named) (attrs i)) in *.
  assert (∀ k, k ∈ named → own !! k = None) as Hnamed.
  { intros k Hk. apply map_lookup_filter_None. right. intros v _ Hn. simpl in Hn. done. }
  assert (∀ k v, attrs i !! k = Some v → k ∉ named → own !! k = Some v) as Hkept.
  { intros k v Hk Hn. by apply map_lookup_filter_Some. }
  assert (∀ k, attrs i !! k = None → own !! k = None) as Hnone.
  { intros k Hk. apply map_lookup_filter_None. by left. }
  destruct (tokenMap_enumerable i).
  - destruct (tokenMap_get i) as [e|tm]; [discriminate|]. injection Hitem as <-.
    split; [|split].
    + intros k Hk Htm. apply lookup_union_None. split; [by apply Hnamed|].
      by rewrite lookup_singleton_ne.
    + intros k v Hk Hn. apply lookup_union_Some_l. by apply Hkept.
    + intros k Hk Htm. apply lookup_union_None. split; [by apply Hnone|].
      by rewrite lookup_singleton_ne.
  - injection Hitem as <-. split; [|split]; eauto.
Qed.

Lemma update_prepare_inv w1 ref item w2 :
  update_prepare w1 = (inr (ref, item), w2) →
  store w2 = store w1
  ∧ rest_of_this ["createAt"; "createDate"] (this w2) = inr item
  ∧ doc_of (priv_collection (this w1)) (get_attr "docId" (this w1)) = inr ref.
Proof.
  unfold update_prepare. intros H.
  apply (proj1 (bind_inr _ _ _ _ _)) in H as (ref' & wa & Hdoc & H).
  destruct (doc_of _ _) as [e|r] eqn:Edoc; [discriminate|].
  injection Hdoc as <- <-.
  unfold bind, dateUtc_getTime, dateJst_toLocaleString, set_attr, modify, gets in H.
  cbn in H.
  match type of H with
  | context [rest_of_this ?n ?i] => destruct (rest_of_this n i) as [e|it] eqn:Erest
  end; [discriminate|].
  cbn in H. injection H as <- <- <-. by cbn.
Qed.

Lemma update_write_inv ref item w2 w3 :
  update_write ref item w2 = (inr tt, w3) →
  ∃ old, docs (store w2) !! ref = Some old
         ∧ this w3 = this w2
         ∧ docs (store w3) = <[ref := item ∪ old]> (docs (store w2))
         ∧ autonumbers (store w3) = autonumbers (store w2)
         ∧ trace w3 = trace w2 ++ [UpdateDoc ref item].
Proof.
  unfold update_write. intros H. apply (proj1 (catch_log_inr _ _ _ _ _)) in H.
  unfold updateDoc in H. destruct (docs (store w2) !! ref) as [old|]; [|discriminate].
  cbn in H. injection H as <-. by exists old.
Qed.

(** C10. A successful [update()] goes through the [beforeUpdate] hook, the
    stamping, the write and the [afterUpdate] hook.  The payload it writes
    has every attribute the instance holds at that moment except [createAt]
    and [createDate], which it lacks; the write merges the payload into the
    stored document, so the stored [createAt] and [createDate] and every
    stored field the payload lacks are as before, and no other document
    changes. *)
Theorem update_writes_all_but_creation_stamps (w : World) (ref : DocRef) (w' : World) :
  update w = (inr ref, w') →
  ∃ w1 w2 w3 w4 item old,
    call_hook beforeUpdate "An error has occured at beforeUpdate() in update()."
      (emit (Console info "[FireModel] update() is called." []) w) = (inr tt, w1)
    ∧ update_prepare w1 = (inr (ref, item), w2)
    ∧ update_write ref item w2 = (inr tt, w3)
    ∧ call_hook afterUpdate "An error has occured at afterUpdate() in update()." w3
      = (inr tt, w4)
    ∧ store w' = store w4
    ∧ item !! "createAt" = None
    ∧ item !! "createDate" = None
    ∧ (∀ k v, attrs (this w2) !! k = Some v →
              k ≠ "createAt" → k ≠ "createDate" → item !! k = Some v)
    ∧ docs (store w2) !! ref = Some old
    ∧ docs (store w3) !! ref = Some (item ∪ old)
    ∧ (item ∪ old) !! "createAt" = old !! "createAt"
    ∧ (item ∪ old) !! "createDate" = old !! "createDate"
    ∧ (∀ k, item !! k = None → (item ∪ old) !! k = old !! k)
    ∧ (∀ k v, item !! k = Some v → (item ∪ old) !! k = Some v)
    ∧ (∀ r, r ≠ ref → docs (store w3) !! r = docs (store w2) !! r)
    ∧ autonumbers (store w3) = autonumbers (store w2).
Proof.
  unfold update. intros H.
  rewrite (bind_step _ _ _ _ _ (sendConsole_run _ _ _ _)) in H.
  apply (proj1 (try_catch_inr _ _ _ _)) in H.
  apply (proj1 (bind_inr _ _ _ _ _)) in H as (unset & wa & Hgets & H).
  injection Hgets as <- <-.
  apply (proj1 (bind_inr _ _ _ _ _)) in H as ([] & wb & Hguard & H).
  destruct (docId_unset _); [discriminate|]. injection Hguard as <-.
  apply (proj1 (bind_inr _ _ _ _ _)) in H as ([] & w1 & Hbefore & H).
  apply (proj1 (bind_inr _ _ _ _ _)) in H as ([ref' item] & w2 & Hprep & H).
  apply (proj1 (bind_inr _ _ _ _ _)) in H as ([] & w3 & Hwrite & H).
  apply (proj1 (bind_inr _ _ _ _ _)) in H as ([] & w4 & Hafter & H).
  cbn in H. injection H as <- <-.
  destruct (update_prepare_inv _ _ _ _ Hprep) as (Hstore & Hrest & Hdoc).
  destruct (rest_of_this_lookup _ _ _ Hrest) as (Hnamed & Hkept & Hnone).
  destruct (update_write_inv _ _ _ _ Hwrite) as (old & Hold & Hthis & Hdocs & Hauto & _).
  assert (item !! "createAt" = None) as HcA.
  { apply Hnamed; [|done]. rewrite !elem_of_cons. auto. }
  assert (item !! "createDate" = None) as HcD.
  { apply Hnamed; [|done]. rewrite !elem_of_cons. auto. }
  exists w1, w2, w3, w4, item, old. simpl in *.
  repeat split; try done.
  - intros k v Hk H1 H2. apply Hkept; [done|].
    rewrite !not_elem_of_cons. repeat split; [done..|]. apply not_elem_of_nil.
  - rewrite Hdocs. apply lookup_insert_eq.
  - by rewrite lookup_union_r.
  - by rewrite lookup_union_r.
  - intros k Hk. by rewrite lookup_union_r.
  - intros k v Hk. by apply lookup_union_Some_l.
  - intros r Hr. rewrite Hdocs. by rewrite lookup_insert_ne.
Qed.

End Update.

(** ** [create] and the allocation of codes *)
Section Create.
Context {subclass : Subclass} {host : Host}.

(** The writes that the callback of lines 278-299 buffers. *)
Lemma create_transaction_run col ref item s :
  create_transaction col ref item s []
  = match autonumbers s !! col with
    | Some a =>
        if an_condition a then
          match allocate col a with
          | inl e => inl e
          | inr r => inr (tt, [WUpdateCurrent col r.1;
                               WSet ref (<[an_field a := VStr r.2]> item)])
          end
        else inr (tt, [WSet ref item])
    | None => inr (tt, [WSet ref item])
    end.
Proof.
  unfold create_transaction, tx_bind, tx_get_autonumber.
  destruct (autonumbers s !! col) as [a|]; [|done].
  destruct (an_condition a); [|done].
  unfold tx_lift. by destruct (allocate col a).
Qed.

Lemma create_prepare_inv docId w1 ref item w2 :
  create_prepare docId w1 = (inr (ref, item), w2) →
  store w2 = store w1
  ∧ rest_of_this [] (this w2) = inr item
  ∧ ref.1 = priv_collection (this w1)
  ∧ priv_collection (this w2) = priv_collection (this w1).
Proof.
  unfold create_prepare. intros H.
  apply (proj1 (bind_inr _ _ _ _ _)) in H as (col & wa & Hcol & H).
  injection Hcol as <- <-.
  apply (proj1 (bind_inr _ _ _ _ _)) in H as (id & wb & Hid & H).
  assert (store wb = store w1 ∧ this wb = this w1) as [Hs Ht].
  { unfold new_doc_id, ret in Hid.
    destruct docId as [s|]; [destruct (String.eqb s "")|]; by injection Hid as <- <-. }
  unfold bind, dateUtc_getTime, dateJst_toLocaleString, set_attr, modify, gets in H.
  cbn in H.
  match type of H with
  | context [rest_of_this ?n ?i] => destruct (rest_of_this n i) as [e|it] eqn:Erest
  end; [discriminate|].
  cbn in H. injection H as <- <- <-. cbn.
  repeat split; [done|by rewrite Erest|].
  rewrite Ht. by repeat (etrans; [apply assign_private|]).
Qed.

(** An allocation that succeeds returns the current number plus one. *)
Lemma allocate_next col a r : allocate col a = inr r → r.1 = an_current a + 1.
Proof.
  unfold allocate. destruct (Array_join (an_length a) "0"); [discriminate|].
  destruct (Array_join (an_length a + 1) "0"); [discriminate|].
  destruct (String.eqb _ _); [discriminate|]. by intros [= <-].
Qed.

(** Inside its range a record is refused exactly at its last code, and
    served with the zero-padded next number before. *)
Lemma allocate_in_range (col : string) (a : Autonumber) :
  valid_autonumber a →
  (allocate col a = inl (exhausted col) ↔ 10 ^ an_length a <= an_current a + 1)
  ∧ (∀ e, allocate col a = inl e → e = exhausted col)
  ∧ (an_current a + 1 < 10 ^ an_length a →
     allocate col a
     = inr (an_current a + 1,
            zero_padded (Z.to_nat (an_length a)) (an_current a + 1))).
Proof.
  intros Hvalid. pose proof (valid_mod_zero_iff a Hvalid) as Hmod.
  destruct Hvalid as (Hlen & Hcur & Hsafe).
  rewrite allocate_spec by lia.
  destruct (decide ((an_current a + 1) mod 10 ^ an_length a = 0)) as [E|E].
  - split; [|split].
    + split; [intros _; by apply Hmod | done].
    + by intros e [= <-].
    + intros Hlt. apply Hmod in E. lia.
  - split; [|split].
    + split; [discriminate | intros Hle; by apply Hmod in Hle].
    + discriminate.
    + intros Hlt. do 2 f_equal.
      by destruct (str_low_digits_padded (an_length a) (an_current a + 1)
                     ltac:(lia) ltac:(lia)).
Qed.

(** C3, for records inside their range whose strings an engine builds.  On
    an autonumber record inside its range, of a width that keeps the padded
    number within the string length of every engine, the allocation raises
    the exhaustion error if and only if the next number no longer fits in
    [length] digits; it raises no other error, and otherwise returns the
    next number with its zero-padded code. *)
Theorem allocate_exhausted_iff_full (col : string) (a : Autonumber) :
  valid_autonumber a →
  js_exact a →
  (allocate col a = inl (exhausted col) ↔ 10 ^ an_length a <= an_current a + 1)
  ∧ (∀ e, allocate col a = inl e → e = exhausted col)
  ∧ (an_current a + 1 < 10 ^ an_length a →
     allocate col a
     = inr (an_current a + 1,
            zero_padded (Z.to_nat (an_length a)) (an_current a + 1))).
Proof. intros Hvalid _. by apply allocate_in_range. Qed.

(** C1, for records inside their range.  With numbering enabled on a record
    inside its range whose
    next number no longer fits, a [create()] that got through [beforeCreate]
    and the stamping rejects with the exhaustion error; the transaction is
    reported as aborted, and the store, hence the new document and the
    record's [current], is as it was before the transaction. *)
Theorem create_exhausted_writes_nothing (w w0 w1 w2 : World)
    (docId : option string) (ref : DocRef) (item : Doc) (a : Autonumber) :
  create_called docId w = (inr tt, w0) →
  call_hook beforeCreate "An error has occured at beforeCreate() in create()." w0
  = (inr tt, w1) →
  create_prepare docId w1 = (inr (ref, item), w2) →
  autonumbers (store w2) !! priv_collection (this w2) = Some a →
  an_condition a = true →
  valid_autonumber a →
  10 ^ an_length a <= an_current a + 1 →
  ∃ w',
    create docId w = (inl (exhausted (priv_collection (this w2))), w')
    ∧ store w' = store w2
    ∧ store w' = store w1
    ∧ docs (store w') !! ref = docs (store w1) !! ref
    ∧ autonumbers (store w') !! priv_collection (this w2) = Some a
    ∧ this w' = this w2
    ∧ trace w'
      = trace w2
        ++ [Transaction None;
            Console error "[FireModel] An error has occured at setDoc() in create()." [];
            Console error
              ("[FireModel] No more documents can be added to the "
               +:+ priv_collection (this w2) +:+ " collection.") []].
Proof.
  intros Hcalled Hbefore Hprep Hauto Hcond Hvalid Hfull.
  destruct (create_prepare_inv _ _ _ _ _ Hprep) as (Hstore & _ & _ & _).
  destruct (allocate_in_range (priv_collection (this w2)) a Hvalid)
    as ((_ & Halloc) & _ & _).
  specialize (Halloc Hfull).
  eexists. unfold create.
  rewrite (bind_step _ _ _ _ _ Hcalled). unfold try_catch.
  rewrite (bind_step _ _ _ _ _ Hbefore).
  rewrite (bind_step _ _ _ _ _ Hprep).
  cbn [fst snd]. unfold create_commit at 1, catch_log, run_transaction.
  unfold bind at 1. unfold bind at 1. unfold gets at 1.
  rewrite create_transaction_run, Hauto, Hcond, Halloc.
  cbn. split; [reflexivity|]. cbn. rewrite <- Hstore.
  repeat split; try done. rewrite <- !app_assoc. reflexivity.
Qed.

Lemma create_commit_inv ref item w2 w3 :
  create_commit ref item w2 = (inr tt, w3) →
  ∃ ws, create_transaction (priv_collection (this w2)) ref item (store w2) []
        = inr (tt, ws)
        ∧ store w3 = commit (store w2) ws
        ∧ this w3 = this w2.
Proof.
  unfold create_commit. intros H.
  apply (proj1 (bind_inr _ _ _ _ _)) in H as (col & wa & Hcol & H).
  injection Hcol as <- <-.
  apply (proj1 (catch_log_inr _ _ _ _ _)) in H. unfold run_transaction in H.
  destruct (create_transaction _ _ _ _ _) as [e|[[] ws]]; [discriminate|].
  injection H as <-. by exists ws.
Qed.

(** C2, for records on which JavaScript computes exactly, with the padding
    stated for records inside their range.  A successful [create()] goes
    through [beforeCreate], the stamping, the transaction and [afterCreate].
    When the transaction finds the collection's record with [condition]
    true, [current] and [current + 1] safe integers and a width that keeps
    the padded number within the string length of every engine, it leaves
    the record with [current] one higher and the new document with the
    allocated code in the record's field; when moreover the record is
    inside its range, the code is [current + 1] zero-padded to exactly
    [length] digits. *)
Theorem create_allocates_next_code (w : World) (docId : option string)
    (ref : DocRef) (w' : World) :
  create docId w = (inr ref, w') →
  ∃ w0 w1 w2 w3 w4 item,
    create_called docId w = (inr tt, w0)
    ∧ call_hook beforeCreate "An error has occured at beforeCreate() in create()." w0
      = (inr tt, w1)
    ∧ create_prepare docId w1 = (inr (ref, item), w2)
    ∧ create_commit ref item w2 = (inr tt, w3)
    ∧ call_hook afterCreate "An error has occured at afterCreate() in create()." w3
      = (inr tt, w4)
    ∧ store w' = store w4
    ∧ ∀ a, autonumbers (store w2) !! priv_collection (this w2) = Some a →
           an_condition a = true →
           js_exact a →
           ∃ newCode,
             autonumbers (store w3) !! priv_collection (this w2)
             = Some (set_current (an_current a + 1) a)
             ∧ docs (store w3) !! ref = Some (<[an_field a := VStr newCode]> item)
             ∧ (valid_autonumber a →
                newCode = zero_padded (Z.to_nat (an_length a)) (an_current a + 1)
                ∧ String.length newCode = Z.to_nat (an_length a)
                ∧ an_current a + 1 < 10 ^ an_length a).
Proof.
  unfold create. intros H.
  apply (proj1 (bind_inr _ _ _ _ _)) in H as ([] & w0 & Hcalled & H).
  apply (proj1 (try_catch_inr _ _ _ _)) in H.
  apply (proj1 (bind_inr _ _ _ _ _)) in H as ([] & w1 & Hbefore & H).
  apply (proj1 (bind_inr _ _ _ _ _)) in H as ([ref' item] & w2 & Hprep & H).
  apply (proj1 (bind_inr _ _ _ _ _)) in H as ([] & w3 & Hcommit & H).
  apply (proj1 (bind_inr _ _ _ _ _)) in H as ([] & w4 & Hafter & H).
  cbn in H. injection H as <- <-. cbn [fst snd] in *.
  exists w0, w1, w2, w3, w4, item. repeat split; try done.
  intros a Hauto Hcond _.
  destruct (create_commit_inv _ _ _ _ Hcommit) as (ws & Htx & Hstore & _).
  rewrite create_transaction_run, Hauto, Hcond in Htx.
  destruct (allocate (priv_collection (this w2)) a) as [e|r] eqn:Ealloc; [discriminate|].
  injection Htx as <-. exists r.2.
  rewrite (allocate_next _ _ _ Ealloc) in Hstore.
  rewrite Hstore. cbn. split; [|split].
  - by rewrite lookup_alter_eq, Hauto.
  - apply lookup_insert_eq.
  - intros Hvalid.
    destruct (allocate_in_range (priv_collection (this w2)) a Hvalid)
      as ((_ & Hex) & Honly & Hfit).
    destruct (decide (an_current a + 1 < 10 ^ an_length a)) as [Hlt|Hge].
    + rewrite (Hfit Hlt) in Ealloc. injection Ealloc as <-. cbn.
      split; [done|]. split; [|done].
      destruct Hvalid as (? & ? & ?).
      by destruct (str_low_digits_padded (an_length a) (an_current a + 1)
                     ltac:(lia) ltac:(lia)).
    + assert (allocate (priv_collection (this w2)) a
              = inl (exhausted (priv_collection (this w2)))) as E
        by (apply Hex; lia).
      congruence.
Qed.

End Create.

(** ** Hooks that fail *)
Section Hooks.
Context {subclass : Subclass} {host : Host}.

Lemma call_hook_rejected h message w e w1 :
  hooks h (emit (HookCalled h) w) = (Rejected e, w1) →
  call_hook h message w
  = (inl e, emit (Console error ("[FireModel] " +:+ message) []) w1).
Proof. unfold call_hook. by intros ->. Qed.

Lemma try_catch_inl {A} (body : M A) w e w1 m :
  body w = (inl e, w1) → message_of e = inr m →
  try_catch body w
  = (inl e, emit (Console error ("[FireModel] " +:+ template m) []) w1).
Proof. unfold try_catch. by intros -> ->. Qed.

(** A rejection of [beforeCreate] whose reason has a readable [message]:
    [create()] rejects with that reason and, after the hook, only logs. *)
Lemma create_aborts_on_beforeCreate docId w w0 e m w1 :
  create_called docId w = (inr tt, w0) →
  hooks beforeCreate (emit (HookCalled beforeCreate) w0) = (Rejected e, w1) →
  message_of e = inr m →
  create docId w
  = (inl e, hook_failure_logged "An error has occured at beforeCreate() in create()." m w1).
Proof.
  intros Hcalled Hhook Hm. unfold create.
  rewrite (bind_step _ _ _ _ _ Hcalled).
  apply try_catch_inl; [|done].
  apply bind_inl. by apply call_hook_rejected.
Qed.

Lemma create_aborts_on_afterCreate docId w w0 w1 ref item w2 w3 e m w4 :
  create_called docId w = (inr tt, w0) →
  call_hook beforeCreate "An error has occured at beforeCreate() in create()." w0
  = (inr tt, w1) →
  create_prepare docId w1 = (inr (ref, item), w2) →
  create_commit ref item w2 = (inr tt, w3) →
  hooks afterCreate (emit (HookCalled afterCreate) w3) = (Rejected e, w4) →
  message_of e = inr m →
  create docId w
  = (inl e, hook_failure_logged "An error has occured at afterCreate() in create()." m w4).
Proof.
  intros Hcalled Hbefore Hprep Hcommit Hhook Hm. unfold create.
  rewrite (bind_step _ _ _ _ _ Hcalled).
  apply try_catch_inl; [|done].
  rewrite (bind_step _ _ _ _ _ Hbefore), (bind_step _ _ _ _ _ Hprep).
  cbn [fst snd]. rewrite (bind_step _ _ _ _ _ Hcommit).
  apply bind_inl. by apply call_hook_rejected.
Qed.

Lemma update_aborts_on_beforeUpdate w e m w1 :
  docId_unset w = false →
  hooks beforeUpdate
    (emit (HookCalled beforeUpdate)
       (emit (Console info "[FireModel] update() is called." []) w))
  = (Rejected e, w1) →
  message_of e = inr m →
  update w
  = (inl e, hook_failure_logged "An error has occured at beforeUpdate() in update()." m w1).
Proof.
  intros Hset Hhook Hm. unfold update.
  rewrite (bind_step _ _ _ _ _ (sendConsole_run _ _ _ _)).
  apply try_catch_inl; [|done].
  unfold bind at 1. unfold gets at 1. rewrite docId_unset_emit, Hset.
  unfold bind at 1. unfold ret at 1.
  apply bind_inl. by apply call_hook_rejected.
Qed.

Lemma update_aborts_on_afterUpdate w w1 ref item w2 w3 e m w4 :
  docId_unset w = false →
  call_hook beforeUpdate "An error has occured at beforeUpdate() in update()."
    (emit (Console info "[FireModel] update() is called." []) w) = (inr tt, w1) →
  update_prepare w1 = (inr (ref, item), w2) →
  update_write ref item w2 = (inr tt, w3) →
  hooks afterUpdate (emit (HookCalled afterUpdate) w3) = (Rejected e, w4) →
  message_of e = inr m →
  update w
  = (inl e, hook_failure_logged "An error has occured at afterUpdate() in update()." m w4).
Proof.
  intros Hset Hbefore Hprep Hwrite Hhook Hm. unfold update.
  rewrite (bind_step _ _ _ _ _ (sendConsole_run _ _ _ _)).
  apply try_catch_inl; [|done].
  unfold bind at 1. unfold gets at 1. rewrite docId_unset_emit, Hset.
  unfold bind at 1. unfold ret at 1.
  rewrite (bind_step _ _ _ _ _ Hbefore), (bind_step _ _ _ _ _ Hprep).
  cbn [fst snd]. rewrite (bind_step _ _ _ _ _ Hwrite).
  apply bind_inl. by apply call_hook_rejected.
Qed.

Lemma delete_aborts_on_beforeDelete w wq e m w1 :
  docId_unset w = false →
  hasChild (emit (Console info "[FireModel] delete() is called." []) w)
  = (inr None, wq) →
  hooks beforeDelete (emit (HookCalled beforeDelete) wq) = (Rejected e, w1) →
  message_of e = inr m →
  delete w
  = (inl e, hook_failure_logged "An error has occured at beforeDelete() in delete()." m w1).
Proof.
  intros Hset Hnone Hhook Hm. unfold delete.
  rewrite (bind_step _ _ _ _ _ (sendConsole_run _ _ _ _)).
  apply try_catch_inl; [|done].
  unfold bind at 1. unfold gets at 1. rewrite docId_unset_emit, Hset.
  unfold bind at 1. unfold ret at 1.
  rewrite (bind_step _ _ _ _ _ Hnone).
  apply bind_inl. by apply call_hook_rejected.
Qed.

Lemma delete_aborts_on_afterDelete w wq w1 ref w2 e m w3 :
  docId_unset w = false →
  hasChild (emit (Console info "[FireModel] delete() is called." []) w)
  = (inr None, wq) →
  call_hook beforeDelete "An error has occured at beforeDelete() in delete()." wq
  = (inr tt, w1) →
  delete_write w1 = (inr ref, w2) →
  hooks afterDelete (emit (HookCalled afterDelete) w2) = (Rejected e, w3) →
  message_of e = inr m →
  delete w
  = (inl e, hook_failure_logged "An error has occured at afterDelete() in delete()." m w3).
Proof.
  intros Hset Hnone Hbefore Hwrite Hhook Hm. unfold delete.
  rewrite (bind_step _ _ _ _ _ (sendConsole_run _ _ _ _)).
  apply try_catch_inl; [|done].
  unfold bind at 1. unfold gets at 1. rewrite docId_unset_emit, Hset.
  unfold bind at 1. unfold ret at 1.
  rewrite (bind_step _ _ _ _ _ Hnone).
  rewrite (bind_step _ _ _ _ _ Hbefore), (bind_step _ _ _ _ _ Hwrite).
  apply bind_inl. by apply call_hook_rejected.
Qed.

End Hooks.

(** C5, at a rejection without a reason.  When a hook rejects without a reason,
    as [Promise.reject()] does, [create()] does not reject with the hook's
    (absent) reason: reading [err.message] in the outer [catch] raises a
    TypeError, and that is what the caller gets. *)
Theorem create_replaces_reasonless_rejection (host : Host) (docId : option string)
    (w : World) :
  (@create rejecting_without_reason host docId w).1
  = inl (TypeError "Cannot read properties of undefined (reading 'message')")
  ∧ (@create rejecting_without_reason host docId w).1 ≠ inl (ThrowValue None).
Proof.
  assert ((@create rejecting_without_reason host docId w).1
          = inl (TypeError "Cannot read properties of undefined (reading 'message')")) as E.
  { unfold create, create_called.
    destruct docId as [s|]; [destruct (String.eqb s "")|]; reflexivity. }
  split; [done|]. rewrite E. discriminate.
Qed.


(** For contrast: a rejection with [new Error("no")] reaches the caller as
    it is. *)
Lemma create_rethrows_error_rejection (host : Host) (docId : option string)
    (w : World) :
  (@create rejecting_with_error host docId w).1 = inl (Error "no").
Proof.
  unfold create, create_called.
  destruct docId as [s|]; [destruct (String.eqb s "")|]; reflexivity.
Qed.

(** ** More on the token index *)
Section TokenIndexMore.

Lemma is_whitespace_lower c : is_whitespace (lower_char c) = is_whitespace c.
Proof. destruct c as [[] [] [] [] [] [] [] []]; reflexivity. Qed.

Lemma strip_lower l :
  strip_whitespace (toLowerCase l) = toLowerCase (strip_whitespace l).
Proof.
  unfold strip_whitespace, toLowerCase.
  induction l as [|c l IH]; [done|].
  rewrite fmap_cons.
  destruct (is_whitespace c) eqn:Ec.
  - rewrite !filter_cons_False by (rewrite ?is_whitespace_lower, Ec; done). exact IH.
  - rewrite !filter_cons_True by (rewrite ?is_whitespace_lower, Ec; done).
    rewrite fmap_cons. f_equal. exact IH.
Qed.

(** The entries depend on the normalized string only. *)
Lemma ngram_entries_normalized s :
  ngram_entries s
  = map (fun i => (str (take 1 (drop i (normalized s))), true))
        (seq 0 (length (normalized s)))
    ++ map (fun i => (str (take 2 (drop i (normalized s))), true))
           (seq 0 (length (normalized s) - 1)).
Proof.
  unfold ngram_entries, normalized, substring, toLowerCase.
  rewrite length_fmap. f_equal; apply map_ext; intros i.
  - replace (i + 1 - i)%nat with 1%nat by lia.
    by rewrite fmap_take, fmap_drop.
  - replace (i + 2 - i)%nat with 2%nat by lia.
    by rewrite fmap_take, fmap_drop.
Qed.

Lemma getNgramTokenMap_lookup s k v :
  getNgramTokenMap s !! k = Some v
  ↔ v = true ∧ ∃ (i n : nat), (n = 1 ∨ n = 2)%nat
                              ∧ (i + n <= length (normalized s))%nat
                              ∧ k = str (take n (drop i (normalized s))).
Proof.
  unfold getNgramTokenMap.
  rewrite fromEntries_lookup by apply ngram_entries_true.
  rewrite ngram_entries_keys. unfold is_token, normalized, toLowerCase.
  rewrite length_fmap.
  split; intros [-> (i & n & Hn & Hi & ->)]; (split; [done|]);
    exists i, n; (split; [done|]); (split; [done|]);
    by rewrite fmap_take, fmap_drop.
Qed.

(** X1. For the strings of the embedding, whose code units are below 256
    and are lower-cased each by itself: two strings that differ only in
    white space and in the case of their letters have the same token
    map. *)
Theorem getNgramTokenMap_normalized (s t : string) :
  normalized s = normalized t → getNgramTokenMap s = getNgramTokenMap t.
Proof.
  intros E. unfold getNgramTokenMap. by rewrite !ngram_entries_normalized, E.
Qed.

(** X2. For the strings of the embedding, whose code units are below 256
    and are lower-cased each by itself: when the normalized query occurs in
    the normalized text, every token of the query is a token of the text; a
    search that asks for all the tokens of the query finds the text. *)
Theorem getNgramTokenMap_of_substring (q s : string) (before after : list ascii) :
  normalized s = before ++ normalized q ++ after →
  getNgramTokenMap q ⊆ getNgramTokenMap s.
Proof.
  intros Hs. apply map_subseteq_spec. intros k v.
  rewrite !getNgramTokenMap_lookup.
  intros [-> (i & n & Hn & Hi & ->)]. split; [done|].
  exists (length before + i)%nat, n. split; [done|].
  rewrite Hs. split.
  - rewrite !length_app. lia.
  - f_equal. rewrite drop_app_add'; [|done].
    rewrite drop_app_le by lia.
    rewrite take_app_le; [done|]. rewrite length_drop. lia.
Qed.

(** X3. For the strings of the embedding, whose code units are below 256
    and are lower-cased each by itself: the token map is empty exactly when
    the string has nothing but white space, and each of its keys has one or
    two code units, none of them white space and none changed by
    lower-casing. *)
Theorem getNgramTokenMap_keys_shape (s : string) :
  (getNgramTokenMap s = ∅ ↔ strip_whitespace (chars s) = [])
  ∧ (∀ k, is_Some (getNgramTokenMap s !! k) →
       (1 <= String.length k <= 2)%nat
       ∧ Forall (fun c => is_whitespace c = false ∧ lower_char c = c) (chars k)).
Proof.
  split.
  - split.
    + intros Hempty.
      destruct (strip_whitespace (chars s)) as [|c l] eqn:El; [done|].
      assert (getNgramTokenMap s !! str (take 1 (drop 0 (normalized s))) = Some true)
        as Hin.
      { apply getNgramTokenMap_lookup. split; [done|]. exists 0%nat, 1%nat.
        split; [by left|]. split; [|done].
        unfold normalized, toLowerCase. rewrite length_fmap, El. simpl. lia. }
      rewrite Hempty in Hin. by rewrite lookup_empty in Hin.
    + intros Hnil. apply map_empty. intros k.
      destruct (getNgramTokenMap s !! k) as [v|] eqn:Ek; [|done].
      apply getNgramTokenMap_lookup in Ek as [_ (i & n & Hn & Hi & _)].
      unfold normalized, toLowerCase in Hi. rewrite length_fmap, Hnil in Hi.
      simpl in Hi. lia.
  - intros k [v Hk].
    apply getNgramTokenMap_lookup in Hk as [_ (i & n & Hn & Hi & ->)].
    rewrite <- length_chars, chars_str. split.
    + rewrite length_take, length_drop. lia.
    + apply Forall_forall. intros c Hc.
      apply elem_of_take in Hc as (j & Hj & _). rewrite lookup_drop in Hj.
      apply list_elem_of_lookup_2 in Hj as Hc.
      unfold normalized, toLowerCase in Hc.
      apply list_elem_of_fmap in Hc as (c0 & -> & Hc0).
      unfold strip_whitespace in Hc0. apply list_elem_of_filter in Hc0 as [Hws _].
      split; [by rewrite is_whitespace_lower|].
      clear. destruct c0 as [[] [] [] [] [] [] [] []]; reflexivity.
Qed.

Lemma tokenMap_entries_error fs i e :
  tokenMap_entries fs i = inl e →
  (∃ f v, f ∈ fs ∧ attrs i !! f = Some v ∧ is_string v = false)
  ∧ ∃ m, e = TypeError m.
Proof.
  induction fs as [|f fs IH]; simpl; [discriminate|].
  destruct (attrs i !! f) as [v|] eqn:Ef.
  - destruct v as [| | |s| |];
      try (intros [= <-]; split; [exists f; eexists; split; [by left|]; eauto | eauto]).
    destruct (tokenMap_entries fs i) as [e'|arr]; [|discriminate].
    intros [= <-]. destruct (IH eq_refl) as [(f' & v & Hf' & Hv & Hs) Hm].
    split; [|done]. exists f', v. split; [by right | done].
  - intros He. destruct (IH He) as [(f' & v & Hf' & Hv & Hs) Hm].
    split; [|done]. exists f', v. split; [by right | done].
Qed.

Lemma tokenMap_entries_not_string fs i f v :
  f ∈ fs → attrs i !! f = Some v → is_string v = false →
  ∃ m, tokenMap_entries fs i = inl (TypeError m).
Proof.
  intros Hf Hv Hs. induction fs as [|f0 fs IH]; [by apply elem_of_nil in Hf|].
  simpl. destruct (decide (f0 = f)) as [->|Hne].
  - rewrite Hv. destruct v; try discriminate; eauto.
  - apply elem_of_cons in Hf as [->|Hf]; [done|].
    destruct (IH Hf) as [m Hm]. rewrite Hm.
    destruct (attrs i !! f0) as [[]|]; eauto.
Qed.

Lemma tokenMap_get_error_kind (i : FireModel) e :
  tokenMap_get i = inl e → ∃ m, e = TypeError m.
Proof.
  unfold tokenMap_get. destruct (priv_tokenFields i) as [|f fs]; [discriminate|].
  destruct (tokenMap_entries (f :: fs) i) as [e'|arr] eqn:Earr; [|discriminate].
  intros [= <-]. by destruct (tokenMap_entries_error _ _ _ Earr).
Qed.

(** X4. Reading [tokenMap] throws exactly when a declared token field of
    the instance holds something else than a string, and what it throws is a
    TypeError; a declared field that the instance lacks is passed over. *)
Theorem tokenMap_get_throws_iff (i : FireModel) :
  ((∃ e, tokenMap_get i = inl e)
   ↔ ∃ f v, f ∈ priv_tokenFields i ∧ attrs i !! f = Some v ∧ is_string v = false)
  ∧ (∀ e, tokenMap_get i = inl e → ∃ m, e = TypeError m).
Proof.
  split; [|apply tokenMap_get_error_kind].
  unfold tokenMap_get. split.
  - intros [e He]. destruct (priv_tokenFields i) as [|f fs] eqn:Efs; [discriminate|].
    destruct (tokenMap_entries (f :: fs) i) as [e'|arr] eqn:Earr; [|discriminate].
    by destruct (tokenMap_entries_error _ _ _ Earr).
  - intros (f & v & Hf & Hv & Hs).
    destruct (tokenMap_entries_not_string _ _ _ _ Hf Hv Hs) as [m Hm].
    destruct (priv_tokenFields i) as [|f0 fs]; [by apply elem_of_nil in Hf|].
    rewrite Hm. eauto.
Qed.

End TokenIndexMore.

(** ** More on the allocation of codes *)
Section AllocateMore.

Lemma low_digits_mod k : ∀ n : N,
  low_digits k (n mod 10 ^ N.of_nat k) = low_digits k n.
Proof.
  induction k as [|k IH]; intros n; [done|].
  change (low_digits (S k) ?m)
    with (low_digits k (m / 10)%N ++ [pretty_N_char (m mod 10)%N]).
  rewrite Nat2N.inj_succ, N.pow_succ_r'.
  assert (n mod (10 * 10 ^ N.of_nat k)
          = n mod 10 + 10 * ((n / 10) mod 10 ^ N.of_nat k))%N as ->
    by apply N.Div0.mod_mul_r.
  assert (n mod 10 < 10)%N as Hr by (apply N.mod_lt; lia).
  assert ((n mod 10 + 10 * ((n / 10) mod 10 ^ N.of_nat k)) / 10
          = (n / 10) mod 10 ^ N.of_nat k)%N as ->.
  { rewrite N.mul_comm, N.div_add by lia. rewrite N.div_small by done. lia. }
  assert ((n mod 10 + 10 * ((n / 10) mod 10 ^ N.of_nat k)) mod 10 = n mod 10)%N as ->.
  { rewrite N.mul_comm, N.Div0.mod_add. by apply N.mod_small. }
  by rewrite IH.
Qed.

Lemma low_digits_inj k : ∀ n m : N,
  low_digits k n = low_digits k m →
  (n mod 10 ^ N.of_nat k = m mod 10 ^ N.of_nat k)%N.
Proof.
  induction k as [|k IH]; intros n m E.
  - simpl. by rewrite !N.mod_1_r.
  - change (low_digits (S k) n)
      with (low_digits k (n / 10)%N ++ [pretty_N_char (n mod 10)%N]) in E.
    change (low_digits (S k) m)
      with (low_digits k (m / 10)%N ++ [pretty_N_char (m mod 10)%N]) in E.
    apply app_inj_tail in E as [E1 E2].
    apply IH in E1.
    apply pretty_N_char_inj in E2; [|apply N.mod_lt; lia..].
    rewrite Nat2N.inj_succ, N.pow_succ_r'.
    rewrite !(N.Div0.mod_mul_r _ 10). by rewrite E1, E2.
Qed.

Lemma residue_code (len num : Z) :
  1 <= len → 0 <= num →
  str (low_digits (Z.to_nat len) (Z.to_N num))
  = zero_padded (Z.to_nat len) (num mod 10 ^ len).
Proof.
  intros Hlen Hnum.
  assert (0 < 10 ^ len) by (apply Z.pow_pos_nonneg; lia).
  assert (0 <= num mod 10 ^ len < 10 ^ len) as Hmod by (apply Z.mod_pos_bound; lia).
  destruct (str_low_digits_padded len (num mod 10 ^ len) Hlen Hmod) as [<- _].
  f_equal. rewrite <- (low_digits_mod _ (Z.to_N num)). f_equal.
  apply N2Z.inj.
  rewrite N2Z.inj_mod, N2Z.inj_pow, !Z2N.id, nat_N_Z, Z2Nat.id by lia. done.
Qed.

Lemma number_to_string_nonempty (n : Z) : number_to_string n ≠ "".
Proof.
  intros E. apply (f_equal (fun s => length (chars s))) in E. simpl in E.
  destruct n as [|p|p].
  - discriminate E.
  - pose proof (pretty_N_nonempty (Npos p)). unfold number_to_string in E.
    change (pretty (Z.pos p)) with (pretty (N.pos p)) in E. lia.
  - unfold number_to_string in E.
    change (pretty (Z.neg p)) with ("-" +:+ pretty (N.pos p)) in E.
    rewrite chars_app, length_app in E. simpl in E. lia.
Qed.

Lemma slice_0 s : slice s 0 = s.
Proof.
  unfold slice. change (0 <? 0) with false. cbv iota.
  replace (Z.to_nat (Z.min 0 _)) with 0%nat by lia.
  by rewrite drop_0, str_chars.
Qed.

(** X5. On a record of positive width whose current number is not
    negative and on which JavaScript computes exactly (safe integers, and a
    width that keeps the padded number within the string length of every
    engine), inside its range or not: the allocation is refused exactly when
    the next number is a multiple of [10^length], and the code it returns
    otherwise is the next number modulo [10^length], zero-padded to [length]
    digits. *)
Theorem allocate_code_is_residue (col : string) (a : Autonumber) :
  1 <= an_length a → js_exact a → 0 <= an_current a →
  allocate col a
  = if decide ((an_current a + 1) mod 10 ^ an_length a = 0)
    then inl (exhausted col)
    else inr (an_current a + 1,
              zero_padded (Z.to_nat (an_length a))
                          ((an_current a + 1) mod 10 ^ an_length a)).
Proof.
  intros Hlen (Hwidth & _ & _) Hcur. unfold max_string_length in Hwidth.
  rewrite allocate_spec by lia.
  case_decide; [done|]. by rewrite residue_code by lia.
Qed.

(** X6. Two records of the same positive width on which JavaScript computes
    exactly (safe integers that are not negative, a width that keeps the padded
    number within the string length of every engine) and that are both
    served get the same code exactly when their next numbers are congruent
    modulo [10^length]; so inside the range different numbers get different
    codes, and a served record stays inside the range. *)
Theorem allocate_codes_collide_iff (col : string) (a b : Autonumber)
    (n m : Z) (code_a code_b : string) :
  1 <= an_length a → an_length b = an_length a →
  js_exact a → js_exact b →
  0 <= an_current a → 0 <= an_current b →
  allocate col a = inr (n, code_a) →
  allocate col b = inr (m, code_b) →
  (code_a = code_b
   ↔ (an_current a + 1) mod 10 ^ an_length a = (an_current b + 1) mod 10 ^ an_length a)
  ∧ (an_current a < 10 ^ an_length a → an_current b < 10 ^ an_length a →
     code_a = code_b → an_current a = an_current b)
  ∧ (an_current a < 10 ^ an_length a → 0 <= n < 10 ^ an_length a).
Proof.
  intros Hlen Hsame (Hwidth & _ & _) _ Ha Hb Ealloc_a Ealloc_b.
  unfold max_string_length in Hwidth.
  assert (0 < 10 ^ an_length a) as Hpow by (apply Z.pow_pos_nonneg; lia).
  rewrite allocate_spec in Ealloc_a, Ealloc_b by lia.
  rewrite Hsame in Ealloc_b.
  destruct (decide ((an_current a + 1) mod 10 ^ an_length a = 0)) as [|Hna];
    [discriminate|].
  destruct (decide ((an_current b + 1) mod 10 ^ an_length a = 0)) as [|Hnb];
    [discriminate|].
  injection Ealloc_a as <- <-. injection Ealloc_b as <- <-.
  assert (str (low_digits (Z.to_nat (an_length a)) (Z.to_N (an_current a + 1)))
          = str (low_digits (Z.to_nat (an_length a)) (Z.to_N (an_current b + 1)))
          ↔ (an_current a + 1) mod 10 ^ an_length a
            = (an_current b + 1) mod 10 ^ an_length a) as Hiff.
  { split.
    - intros E. apply (f_equal chars) in E. rewrite !chars_str in E.
      apply low_digits_inj in E. apply (f_equal Z.of_N) in E.
      rewrite !N2Z.inj_mod, !N2Z.inj_pow, !Z2N.id, nat_N_Z, Z2Nat.id in E by lia.
      exact E.
    - intros E. rewrite !residue_code by lia. by rewrite E. }
  split; [exact Hiff|]. split.
  - intros Ha' Hb' E. apply Hiff in E.
    destruct (decide (an_current a + 1 = 10 ^ an_length a)) as [Ea|Ea].
    { rewrite Ea, Z_mod_same_full in Hna. done. }
    destruct (decide (an_current b + 1 = 10 ^ an_length a)) as [Eb|Eb].
    { rewrite Eb, Z_mod_same_full in Hnb. done. }
    rewrite !Z.mod_small in E by lia. lia.
  - intros Ha'. split; [lia|].
    destruct (decide (an_current a + 1 = 10 ^ an_length a)) as [Ea|Ea]; [|lia].
    rewrite Ea, Z_mod_same_full in Hna. done.
Qed.

(** X7. A width below 0 or of at least [2^32], which is no array length,
    makes the allocation throw the RangeError of [Array], whatever the
    current number; with the width 0 and safe integers nothing is ever
    refused and the code is the next number as it is written, without
    padding. *)
Theorem allocate_width_edges (col : string) (a : Autonumber) :
  (an_length a < 0 ∨ 2 ^ 32 <= an_length a →
   allocate col a = inl (RangeError "Invalid array length"))
  ∧ (an_length a = 0 → js_exact a →
     allocate col a = inr (an_current a + 1, number_to_string (an_current a + 1))).
Proof.
  split.
  - intros Hlen. unfold allocate, Array_join.
    destruct (Z.leb_spec 0 (an_length a)); [|done].
    destruct (Z.leb_spec (an_length a) (2 ^ 32 - 1)); [lia|done].
  - intros Hlen _. unfold allocate. rewrite Hlen.
    change (Array_join 0 "0") with (inr "" : result string).
    change (Array_join (0 + 1) "0") with (inr "" : result string).
    cbv iota beta. rewrite append_nil. change (- 0) with 0. rewrite slice_0.
    destruct (String.eqb_spec (number_to_string (an_current a + 1)) "") as [E|E];
      [by apply number_to_string_nonempty in E | done].
Qed.

End AllocateMore.

(** ** More on [create] *)
Section CreateMore.
Context {host : Host}.

Lemma assign_data key v i :
  key ≠ "tokenMap" → assign key v i = set_attrs (<[key := v]> (attrs i)) i.
Proof. intros Hne. unfold assign. by rewrite decide_False. Qed.

Lemma rest_of_this_all i :
  tokenMap_enumerable i = false → rest_of_this [] i = inr (attrs i).
Proof.
  intros Hen. unfold rest_of_this. rewrite Hen. f_equal.
  apply map_filter_id. intros k v _. apply not_elem_of_nil.
Qed.

(** What lines 269-277 do when the [tokenMap] accessor is not enumerable. *)
Lemma create_prepare_run docId w :
  tokenMap_enumerable (this w) = false →
  create_prepare docId w
  = (inr ((priv_collection (this w), create_id docId w), create_stamped docId w),
     create_prepared docId w).
Proof.
  intros Hen. unfold create_prepare.
  unfold bind at 1. unfold gets at 1.
  assert (∀ (k : string → M (DocRef * Doc)),
            (bind (match docId with
                   | Some s => if String.eqb s "" then new_doc_id else ret s
                   | None => new_doc_id
                   end) k) w
            = k (create_id docId w)
                {| this := this w; store := store w;
                   currentUser_uid := currentUser_uid w;
                   ticks := create_clock docId w; trace := trace w |}) as Hid.
  { intros k. unfold bind, create_id, create_clock, new_doc_id, ret, tick.
    destruct docId as [s|]; [destruct (String.eqb s "")|]; try done.
    by destruct w. }
  rewrite Hid. clear Hid.
  unfold bind, set_attr, modify, dateUtc_getTime, dateJst_toLocaleString, gets.
  cbn [this store ticks trace currentUser_uid set_this tick fst snd].
  rewrite !assign_data by done.
  cbn [attrs set_attrs priv_collection priv_hasMany priv_tokenFields tokenMap_enumerable].
  rewrite rest_of_this_all by done.
  reflexivity.
Qed.

Lemma keeps_store_bind {A B} (m : M A) (k : A → M B) :
  keeps_store m → (∀ a, keeps_store (k a)) → keeps_store (bind m k).
Proof.
  intros Hm Hk w r w'. unfold bind.
  destruct (m w) as [[e|a] w1] eqn:Em.
  - intros [= <- <-]. by eapply Hm.
  - intros Hka. rewrite (Hk _ _ _ _ Hka). by eapply Hm.
Qed.

Lemma keeps_store_ret {A} (a : A) : keeps_store (ret a).
Proof. by intros w r w' [= <- <-]. Qed.

Lemma keeps_store_gets {A} (f : World → A) : keeps_store (gets f).
Proof. by intros w r w' [= <- <-]. Qed.

Lemma keeps_store_set_attr key v : keeps_store (set_attr key v).
Proof. by intros w r w' [= <- <-]. Qed.

Lemma keeps_store_clock :
  keeps_store dateUtc_getTime ∧ keeps_store dateJst_toLocaleString
  ∧ keeps_store new_doc_id.
Proof. repeat split; by intros w r w' [= <- <-]. Qed.

Lemma keeps_store_lift {A} (f : World → result A) :
  keeps_store (fun w => lift (f w) w).
Proof. intros w r w'. destruct (f w); by intros [= <- <-]. Qed.

Lemma keeps_store_create_prepare docId : keeps_store (create_prepare docId).
Proof.
  destruct keeps_store_clock as (Hutc & Hjst & Hid).
  unfold create_prepare.
  repeat (first [ apply keeps_store_ret | apply keeps_store_gets
                | apply keeps_store_set_attr | exact Hutc | exact Hjst
                | apply (keeps_store_lift (fun w => rest_of_this [] (this w)))
                | apply keeps_store_bind; [|intros ?] ]).
  destruct docId as [s|]; [destruct (String.eqb s "")|];
    first [exact Hid | apply keeps_store_ret].
Qed.

Lemma create_prepare_store docId w1 r w2 :
  create_prepare docId w1 = (r, w2) → store w2 = store w1.
Proof. apply keeps_store_create_prepare. Qed.

Lemma create_commit_rejected ref item w2 e w3 :
  create_commit ref item w2 = (inl e, w3) → store w3 = store w2.
Proof.
  unfold create_commit, bind, gets, catch_log, run_transaction.
  destruct (create_transaction _ _ _ _ _) as [e'|[[] ws]]; [|discriminate].
  cbn. by intros [= <- <-].
Qed.

End CreateMore.

Section CreateBase.
Context {host : Host}.

Lemma call_hook_base h message w :
  @call_hook base_class h message w = (inr tt, emit (HookCalled h) w).
Proof. reflexivity. Qed.

Lemma create_called_run docId w :
  ∃ e, create_called docId w = (inr tt, emit e w).
Proof.
  unfold create_called.
  destruct docId as [s|]; [destruct (String.eqb s "")|]; eexists; reflexivity.
Qed.

(** With the default hooks, a [create] whose transaction commits. *)
Lemma create_base_committed docId w ws :
  tokenMap_enumerable (this w) = false →
  create_transaction (priv_collection (this w))
    (priv_collection (this w), create_id docId w) (create_stamped docId w)
    (store w) [] = inr (tt, ws) →
  ∃ w', @create base_class host docId w
        = (inr (priv_collection (this w), create_id docId w), w')
        ∧ store w' = commit (store w) ws
        ∧ this w' = set_attrs (create_stamped docId w) (this w).
Proof.
  intros Hen Htx. destruct (create_called_run docId w) as [e0 Hcalled].
  unfold create. rewrite (bind_step _ _ _ _ _ Hcalled).
  eexists. split.
  - apply try_catch_inr.
    rewrite (bind_step _ _ _ _ _ (call_hook_base _ _ _)).
    rewrite (bind_step _ _ _ _ _
               (create_prepare_run docId
                  (emit (HookCalled beforeCreate) (emit e0 w)) Hen)).
    cbn [fst snd].
    unfold create_commit at 1. unfold bind at 1. unfold gets at 1.
    unfold bind at 1. unfold catch_log, run_transaction.
    change (store (create_prepared docId (emit (HookCalled beforeCreate) (emit e0 w))))
      with (store w).
    change (priv_collection
              (this (create_prepared docId (emit (HookCalled beforeCreate) (emit e0 w)))))
      with (priv_collection (this w)).
    change (create_id docId (emit (HookCalled beforeCreate) (emit e0 w)))
      with (create_id docId w).
    change (create_stamped docId (emit (HookCalled beforeCreate) (emit e0 w)))
      with (create_stamped docId w).
    rewrite !this_emit. rewrite Htx.
    rewrite (bind_step _ _ _ _ _ (call_hook_base _ _ _)).
    reflexivity.
  - split; reflexivity.
Qed.

(** With the default hooks, a [create] that rejects has written nothing. *)
Lemma create_base_rejected docId w e w' :
  @create base_class host docId w = (inl e, w') → store w' = store w.
Proof.
  destruct (create_called_run docId w) as [e0 Hcalled].
  unfold create. rewrite (bind_step _ _ _ _ _ Hcalled).
  unfold try_catch.
  rewrite (bind_step _ _ _ _ _ (call_hook_base _ _ _)).
  destruct (create_prepare docId (emit (HookCalled beforeCreate) (emit e0 w)))
    as [[e1|[ref item]] w2] eqn:Eprep.
  - apply create_prepare_store in Eprep as Hs.
    rewrite (bind_inl _ _ _ _ _ Eprep).
    destruct (message_of e1); cbn; intros [= <- <-];
      rewrite ?store_emit, ?Hs; reflexivity.
  - apply create_prepare_store in Eprep as Hs.
    rewrite (bind_step _ _ _ _ _ Eprep). cbn [fst snd].
    destruct (create_commit ref item w2) as [[e2|[]] w3] eqn:Ecommit.
    + apply create_commit_rejected in Ecommit as Hs3.
      rewrite (bind_inl _ _ _ _ _ Ecommit).
      destruct (message_of e2); cbn; intros [= <- <-];
        rewrite ?store_emit, ?Hs3, ?Hs; reflexivity.
    + rewrite (bind_step _ _ _ _ _ Ecommit).
      rewrite (bind_step _ _ _ _ _ (call_hook_base _ _ _)).
      cbn. discriminate.
Qed.

End CreateBase.

Section CreateTheorems.
Context {host : Host}.

Lemma FireModel_eq (i j : FireModel) :
  priv_collection i = priv_collection j → priv_hasMany i = priv_hasMany j →
  priv_tokenFields i = priv_tokenFields j →
  tokenMap_enumerable i = tokenMap_enumerable j → attrs i = attrs j → i = j.
Proof. destruct i, j. simpl. by intros -> -> -> -> ->. Qed.

Lemma create_transaction_plain col ref item s :
  (∀ a, autonumbers s !! col = Some a → an_condition a = false) →
  create_transaction col ref item s [] = inr (tt, [WSet ref item]).
Proof.
  intros Hoff. rewrite create_transaction_run.
  destruct (autonumbers s !! col) as [a|] eqn:Ea; [|done].
  by rewrite (Hoff a eq_refl).
Qed.

(** X8. With the default hooks, without an enumerable [tokenMap] and without
    numbering for the collection (no record, or [condition] false),
    [create] resolves with the reference of the given or generated id; the
    stored document is exactly the attributes of the instance as stamped,
    whatever was stored under that id before; every other document and
    every autonumber record is as before. *)
Theorem create_plain_stores_instance (docId : option string) (w : World) :
  tokenMap_enumerable (this w) = false →
  (∀ a, autonumbers (store w) !! priv_collection (this w) = Some a →
        an_condition a = false) →
  ∃ w', @create base_class host docId w
        = (inr (priv_collection (this w), create_id docId w), w')
        ∧ attrs (this w') = create_stamped docId w
        ∧ attrs (this w') !! "docId" = Some (VStr (create_id docId w))
        ∧ docs (store w') !! (priv_collection (this w), create_id docId w)
          = Some (attrs (this w'))
        ∧ (∀ ref, ref ≠ (priv_collection (this w), create_id docId w) →
                  docs (store w') !! ref = docs (store w) !! ref)
        ∧ autonumbers (store w') = autonumbers (store w).
Proof.
  intros Hen Hoff.
  destruct (create_base_committed docId w _ Hen
              (create_transaction_plain _ _ _ _ Hoff)) as (w' & E & Hs & Ht).
  exists w'. rewrite Hs, Ht. cbn.
  split; [exact E|]. split; [done|]. split.
  { unfold create_stamped. by rewrite !lookup_insert_ne, lookup_insert_eq by done. }
  split; [apply lookup_insert_eq|]. split; [|done].
  intros ref Hne. by rewrite lookup_insert_ne.
Qed.

(** X9. With the default hooks, a [create] that rejects, for whatever
    reason, has written nothing: the documents and the autonumber records
    are as before. *)
Theorem create_rejected_writes_nothing (docId : option string) (w : World)
    (e : thrown) (w' : World) :
  @create base_class host docId w = (inl e, w') → store w' = store w.
Proof. apply create_base_rejected. Qed.

(** X10. With the default hooks and numbering enabled on a record inside
    its range that is not exhausted and whose width keeps the padded number
    within the string length of every engine, [create] resolves: the
    record's [current] goes up by one and the stored document is the stamped
    attributes with the zero-padded code in the record's field.  The
    instance itself gets the stamps only, not the code. *)
Theorem create_numbered_resolves (docId : option string) (w : World)
    (a : Autonumber) :
  tokenMap_enumerable (this w) = false →
  autonumbers (store w) !! priv_collection (this w) = Some a →
  an_condition a = true →
  valid_autonumber a →
  js_exact a →
  an_current a + 1 < 10 ^ an_length a →
  ∃ w', @create base_class host docId w
        = (inr (priv_collection (this w), create_id docId w), w')
        ∧ attrs (this w') = create_stamped docId w
        ∧ docs (store w') !! (priv_collection (this w), create_id docId w)
          = Some (<[an_field a := VStr (zero_padded (Z.to_nat (an_length a))
                                                     (an_current a + 1))]>
                    (create_stamped docId w))
        ∧ autonumbers (store w') !! priv_collection (this w)
          = Some (set_current (an_current a + 1) a)
        ∧ (∀ col, col ≠ priv_collection (this w) →
                  autonumbers (store w') !! col = autonumbers (store w) !! col).
Proof.
  intros Hen Ha Hcond Hvalid _ Hfit.
  destruct (allocate_in_range (priv_collection (this w)) a Hvalid) as (_ & _ & Halloc).
  specialize (Halloc Hfit).
  destruct (create_base_committed docId w
              [WUpdateCurrent (priv_collection (this w)) (an_current a + 1);
               WSet (priv_collection (this w), create_id docId w)
                 (<[an_field a := VStr (zero_padded (Z.to_nat (an_length a))
                                                     (an_current a + 1))]>
                    (create_stamped docId w))] Hen)
    as (w' & E & Hs & Ht).
  { by rewrite create_transaction_run, Ha, Hcond, Halloc. }
  exists w'. rewrite Hs, Ht. cbn.
  split; [exact E|]. split; [done|]. split; [apply lookup_insert_eq|]. split.
  - by rewrite lookup_alter_eq, Ha.
  - intros col Hne. by rewrite lookup_alter_ne.
Qed.

End CreateTheorems.

(** ** More on [fetch] *)
Section FetchMore.
Context {subclass : Subclass} {host : Host}.

Lemma fetch_present_run (id : string) (w : World) (data : Doc) :
  id ≠ "" →
  docs (store w) !! (priv_collection (this w), id) = Some data →
  ∃ w', fetch (Some id) w = (inr tt, w')
        ∧ store w' = store w ∧ ticks w' = ticks w
        ∧ this w' = copy_from data (this w).
Proof.
  intros Hid Hdata. apply String.eqb_neq in Hid. eexists.
  unfold fetch, try_catch, catch_log, bind, gets, sendConsole, modify, getDoc.
  rewrite Hid. cbn. rewrite Hdata. cbn. done.
Qed.

Lemma fetch_invalid_run (docId : option string) (w : World) :
  docId = None ∨ docId = Some "" →
  fetch docId w
  = (inl (Error "fetch() requires docId as argument."),
     emit (Console error "[FireModel] fetch() requires docId as argument." [])
       (emit (Console info "[FireModel] fetch() is called." []) w)).
Proof. by intros [-> | ->]. Qed.

Lemma copy_from_attrs_tokenMap data i :
  attrs (copy_from data i) !! "tokenMap" = attrs i !! "tokenMap".
Proof.
  unfold copy_from. rewrite copy_keys_attrs.
  by rewrite decide_False by (intros [_ ?]; done).
Qed.

Lemma copy_from_private data i :
  priv_collection (copy_from data i) = priv_collection i
  ∧ priv_hasMany (copy_from data i) = priv_hasMany i
  ∧ priv_tokenFields (copy_from data i) = priv_tokenFields i
  ∧ tokenMap_enumerable (copy_from data i) = tokenMap_enumerable i.
Proof. apply copy_keys_private. Qed.

Lemma copy_from_dom data i k :
  is_Some (attrs (copy_from data i) !! k) ↔ is_Some (attrs i !! k).
Proof.
  destruct (decide (k = "tokenMap")) as [->|Hk].
  - by rewrite copy_from_attrs_tokenMap.
  - rewrite copy_from_attrs by done. destruct (attrs i !! k); [|done].
    split; eauto.
Qed.

(** A payload that agrees with the instance changes nothing. *)
Lemma copy_from_same data i :
  (∀ k v, attrs i !! k = Some v → k ≠ "tokenMap" →
          data !! k = Some v ∨ data !! k = None) →
  copy_from data i = i.
Proof.
  intros Hagree. destruct (copy_from_private data i) as (?&?&?&?).
  apply FireModel_eq; try done.
  apply map_eq. intros k. destruct (decide (k = "tokenMap")) as [->|Hk].
  - apply copy_from_attrs_tokenMap.
  - rewrite copy_from_attrs by done.
    destruct (attrs i !! k) as [v|] eqn:Ek; [|done].
    by destruct (Hagree k v Ek Hk) as [-> | ->].
Qed.

(** X11. Without an id, or with the empty string, [fetch] rejects with its
    argument error before it reads anything: the trace gets the two console
    messages and no read, and the instance and the store are as before. *)
Theorem fetch_requires_docId (docId : option string) (w : World) :
  docId = None ∨ docId = Some "" →
  ∃ w', fetch docId w = (inl (Error "fetch() requires docId as argument."), w')
        ∧ this w' = this w ∧ store w' = store w
        ∧ trace w'
          = trace w
            ++ [Console info "[FireModel] fetch() is called." [];
                Console error "[FireModel] fetch() requires docId as argument." []].
Proof.
  intros Hbad. eexists. split; [by apply fetch_invalid_run|].
  rewrite !trace_emit, <- app_assoc. done.
Qed.

End FetchMore.

(** ** [fetch] in a class that keeps the base [initialize] *)
Section FetchBase.
Context {host : Host}.

Lemma fetch_absent_base (id : string) (w : World) :
  id ≠ "" →
  docs (store w) !! (priv_collection (this w), id) = None →
  ∃ w', @fetch base_class (Some id) w = (inr tt, w')
        ∧ store w' = store w ∧ ticks w' = ticks w
        ∧ this w' = initialize None (this w).
Proof.
  intros Hid Hdata. apply String.eqb_neq in Hid. eexists.
  unfold fetch, try_catch, catch_log, bind, gets, sendConsole, modify, getDoc.
  rewrite Hid. cbn. rewrite Hdata. cbn. done.
Qed.

(** X12. For a class that does not override [initialize]: whatever the id
    and however it ends, [fetch] writes nothing, leaves the private fields
    (collection, dependencies, token fields) as they are, and never adds or
    removes an attribute other than the six base ones. *)
Theorem fetch_frame (docId : option string) (w : World) :
  store (@fetch base_class docId w).2 = store w
  ∧ priv_collection (this (@fetch base_class docId w).2) = priv_collection (this w)
  ∧ priv_hasMany (this (@fetch base_class docId w).2) = priv_hasMany (this w)
  ∧ priv_tokenFields (this (@fetch base_class docId w).2) = priv_tokenFields (this w)
  ∧ (∀ k, k ∉ base_attrs.*1 →
          is_Some (attrs (this (@fetch base_class docId w).2) !! k)
          ↔ is_Some (attrs (this w) !! k)).
Proof.
  destruct docId as [id|]; [destruct (decide (id = "")) as [->|Hid]|].
  - rewrite (@fetch_invalid_run base_class (Some "") w) by auto. done.
  - destruct (docs (store w) !! (priv_collection (this w), id)) as [data|] eqn:Edoc.
    + destruct (@fetch_present_run base_class id w data Hid Edoc)
        as (w' & -> & Hs & _ & Ht).
      cbn [snd]. rewrite Hs, Ht.
      destruct (copy_from_private data (this w)) as (-> & -> & -> & _).
      repeat split; try done; apply copy_from_dom.
    + destruct (fetch_absent_base id w Hid Edoc) as (w' & -> & Hs & _ & Ht).
      cbn [snd]. rewrite Hs, Ht.
      destruct (initialize_None_private (this w)) as (-> & -> & -> & _).
      repeat split; try done; by rewrite initialize_None_other.
  - rewrite (@fetch_invalid_run base_class None w) by auto. done.
Qed.

(** X13. With the default hooks, without an enumerable [tokenMap] and
    without numbering, a [create] followed by the [fetch] of the id it
    returned resolves and leaves the instance exactly as [create] left it:
    what was stored is what the instance holds. *)
Theorem create_then_fetch (docId : option string) (w : World) :
  tokenMap_enumerable (this w) = false →
  (∀ a, autonumbers (store w) !! priv_collection (this w) = Some a →
        an_condition a = false) →
  create_id docId w ≠ "" →
  ∃ w' w'',
    @create base_class host docId w
    = (inr (priv_collection (this w), create_id docId w), w')
    ∧ @fetch base_class (Some (create_id docId w)) w' = (inr tt, w'')
    ∧ this w'' = this w'
    ∧ store w'' = store w'.
Proof.
  intros Hen Hoff Hid.
  destruct (create_base_committed docId w _ Hen
              (create_transaction_plain _ _ _ _ Hoff)) as (w' & E & Hs & Ht).
  assert (docs (store w') !! (priv_collection (this w'), create_id docId w)
          = Some (attrs (this w'))) as Hdoc.
  { rewrite Hs, Ht. cbn. apply lookup_insert_eq. }
  destruct (@fetch_present_run base_class _ w' _ Hid Hdoc) as (w'' & E' & Hs' & _ & Ht').
  exists w', w''. split; [exact E|]. split; [exact E'|]. split; [|exact Hs'].
  rewrite Ht'. apply copy_from_same. auto.
Qed.

(** X14. With the default hooks and numbering enabled on a record inside
    its range that is not exhausted and whose width keeps the padded number
    within the string length of every engine, the [fetch] that follows a
    [create] brings the allocated code into the instance when, and only
    when, the instance has an attribute of the record's field name; every
    other attribute stays as [create] left it. *)
Theorem create_numbered_then_fetch (docId : option string) (w : World)
    (a : Autonumber) :
  tokenMap_enumerable (this w) = false →
  autonumbers (store w) !! priv_collection (this w) = Some a →
  an_condition a = true →
  valid_autonumber a →
  js_exact a →
  an_current a + 1 < 10 ^ an_length a →
  create_id docId w ≠ "" →
  an_field a ≠ "tokenMap" →
  ∃ w' w'',
    @create base_class host docId w
    = (inr (priv_collection (this w), create_id docId w), w')
    ∧ @fetch base_class (Some (create_id docId w)) w' = (inr tt, w'')
    ∧ attrs (this w'') !! an_field a
      = (if decide (is_Some (create_stamped docId w !! an_field a))
         then Some (VStr (zero_padded (Z.to_nat (an_length a)) (an_current a + 1)))
         else None)
    ∧ (∀ k, k ≠ an_field a → attrs (this w'') !! k = attrs (this w') !! k).
Proof.
  intros Hen Ha Hcond Hvalid _ Hfit Hid Hfield.
  destruct (allocate_in_range (priv_collection (this w)) a Hvalid) as (_ & _ & Halloc).
  specialize (Halloc Hfit).
  destruct (create_base_committed docId w
              [WUpdateCurrent (priv_collection (this w)) (an_current a + 1);
               WSet (priv_collection (this w), create_id docId w)
                 (<[an_field a := VStr (zero_padded (Z.to_nat (an_length a))
                                                     (an_current a + 1))]>
                    (create_stamped docId w))] Hen)
    as (w' & E & Hs & Ht).
  { by rewrite create_transaction_run, Ha, Hcond, Halloc. }
  assert (docs (store w') !! (priv_collection (this w'), create_id docId w)
          = Some (<[an_field a := VStr (zero_padded (Z.to_nat (an_length a))
                                                     (an_current a + 1))]>
                    (create_stamped docId w))) as Hdoc.
  { rewrite Hs, Ht. cbn. apply lookup_insert_eq. }
  destruct (@fetch_present_run base_class _ w' _ Hid Hdoc) as (w'' & E' & _ & _ & Ht').
  exists w', w''. split; [exact E|]. split; [exact E'|].
  rewrite Ht', Ht. cbn [attrs set_attrs]. split.
  - rewrite copy_from_attrs by done. cbn [attrs set_attrs].
    rewrite lookup_insert_eq.
    destruct (create_stamped docId w !! an_field a) eqn:Ef.
    + by rewrite decide_True by eauto.
    + by rewrite decide_False by (intros [? ?]; done).
  - intros k Hk. destruct (decide (k = "tokenMap")) as [->|Htm].
    + by rewrite copy_from_attrs_tokenMap.
    + rewrite copy_from_attrs by done. cbn [attrs set_attrs].
      rewrite lookup_insert_ne by done.
      by destruct (create_stamped docId w !! k).
Qed.

End FetchBase.

(** ** More on [update], [delete] and the dependency check *)
Section LifecycleMore.
Context {host : Host}.

Lemma emit_all_snoc es e w :
  emit_all (es ++ [e]) w = emit e (emit_all es w).
Proof. unfold emit_all. by rewrite foldl_app. Qed.

(** The loop of [#hasChild()] as a search. *)
Lemma hasChild_from_find docId : ∀ items w,
  get_attr "docId" (this w) = Some docId →
  hasChild_from items w
  = (inr (List.find (has_child (store w) docId) items),
     emit_all (map (query_of docId) (visited (has_child (store w) docId) items)) w).
Proof.
  induction items as [|x items IH]; intros w Hid; [done|].
  cbn [hasChild_from List.find visited]. unfold bind at 1.
  unfold query_children at 1. rewrite Hid. unfold has_child at 1 3.
  destruct (getDocs _ _ _ _ _ _ _) eqn:E; [|done].
  rewrite IH by done. done.
Qed.

Lemma visited_all (has : Dependency → bool) items :
  Forall (fun x => has x = false) items → visited has items = items.
Proof.
  induction 1 as [|x l Hx _ IH]; [done|]. cbn. by rewrite Hx, IH.
Qed.

Lemma find_none (has : Dependency → bool) items :
  Forall (fun x => has x = false) items → List.find has items = None.
Proof. induction 1 as [|x l Hx _ IH]; [done|]. cbn. by rewrite Hx. Qed.

Lemma docId_string_set w id :
  get_attr "docId" (this w) = Some (VStr id) → id ≠ "" → docId_unset w = false.
Proof.
  intros Hid Hne. unfold docId_unset. rewrite Hid. cbn.
  destruct id; [done|reflexivity].
Qed.

Lemma doc_of_string col id :
  id ≠ "" → doc_of col (Some (VStr id)) = inr (col, id).
Proof. intros Hne. cbn. by apply String.eqb_neq in Hne as ->. Qed.

(** What lines 389-394 do when the [tokenMap] accessor is not
    enumerable. *)
Lemma update_prepare_run w id :
  get_attr "docId" (this w) = Some (VStr id) → id ≠ "" →
  tokenMap_enumerable (this w) = false →
  update_prepare w
  = (inr ((priv_collection (this w), id), update_payload w),
     {| this := set_attrs (update_stamped w) (this w); store := store w;
        currentUser_uid := currentUser_uid w; ticks := S (S (ticks w));
        trace := trace w |}).
Proof.
  intros Hid Hne Hen. unfold update_prepare.
  unfold bind at 1. rewrite Hid, (doc_of_string _ _ Hne). cbn [lift].
  unfold ret at 1. cbn beta iota.
  unfold bind, set_attr, modify, dateUtc_getTime, dateJst_toLocaleString, gets.
  cbn [this store ticks trace currentUser_uid set_this tick fst snd].
  rewrite !assign_data by done.
  cbn [attrs set_attrs priv_collection priv_hasMany priv_tokenFields tokenMap_enumerable].
  unfold rest_of_this.
  cbn [attrs set_attrs priv_collection priv_hasMany priv_tokenFields tokenMap_enumerable].
  rewrite Hen. reflexivity.
Qed.

Lemma update_payload_lookup w k :
  update_payload w !! k
  = if decide (k = "createAt" ∨ k = "createDate") then None
    else update_stamped w !! k.
Proof.
  unfold update_payload. destruct (decide _) as [Hk|Hk].
  - apply map_lookup_filter_None. right. intros v _ Hn. cbn in Hn.
    apply Hn. rewrite !elem_of_cons. tauto.
  - destruct (update_stamped w !! k) as [v|] eqn:E.
    + apply map_lookup_filter_Some. split; [done|]. cbn.
      rewrite !not_elem_of_cons. repeat split; try tauto. apply not_elem_of_nil.
    + apply map_lookup_filter_None. by left.
Qed.

(** [update] with the default hooks when the document is stored. *)
Lemma update_base_present w id old :
  get_attr "docId" (this w) = Some (VStr id) → id ≠ "" →
  tokenMap_enumerable (this w) = false →
  docs (store w) !! (priv_collection (this w), id) = Some old →
  ∃ w', @update base_class host w = (inr (priv_collection (this w), id), w')
        ∧ this w' = set_attrs (update_stamped w) (this w)
        ∧ store w'
          = {| docs := <[(priv_collection (this w), id) := update_payload w ∪ old]>
                         (docs (store w));
               autonumbers := autonumbers (store w) |}
        ∧ ticks w' = S (S (ticks w)).
Proof.
  intros Hid Hne Hen Hold. unfold update.
  rewrite (bind_step _ _ _ _ _ (sendConsole_run _ _ _ _)).
  eexists. split.
  - apply try_catch_inr.
    unfold bind at 1. unfold gets at 1.
    rewrite docId_unset_emit, (docId_string_set _ _ Hid Hne).
    unfold bind at 1. unfold ret at 1.
    rewrite (bind_step _ _ _ _ _ (call_hook_base _ _ _)).
    rewrite (bind_step _ _ _ _ _
               (update_prepare_run
                  (emit (HookCalled beforeUpdate)
                     (emit (Console info ("[FireModel] " +:+ "update() is called.") []) w))
                  id Hid Hne Hen)).
    cbn [fst snd].
    unfold update_write at 1. unfold bind at 1. unfold catch_log, updateDoc.
    cbn [store this emit priv_collection set_attrs]. rewrite Hold.
    cbn [fst snd set_store].
    rewrite (bind_step _ _ _ _ _ (call_hook_base _ _ _)).
    reflexivity.
  - repeat split; reflexivity.
Qed.


Lemma update_stamped_lookup w k :
  update_stamped w !! k
  = if decide (k = "uid") then Some (VStr (current_uid w))
    else if decide (k = "updateDate") then Some (VStr (clock_jst (S (ticks w))))
    else if decide (k = "updateAt") then Some (VNum (clock_utc (ticks w)))
    else attrs (this w) !! k.
Proof.
  unfold update_stamped. repeat case_decide; subst; by simplify_map_eq.
Qed.

Lemma create_stamped_docId docId w :
  create_stamped docId w !! "docId" = Some (VStr (create_id docId w)).
Proof. unfold create_stamped. by simplify_map_eq. Qed.

(** With the default hooks, [delete] when no dependency has a child. *)
Lemma delete_base_run w id :
  get_attr "docId" (this w) = Some (VStr id) → id ≠ "" →
  Forall (fun x => has_child (store w) (VStr id) x = false) (priv_hasMany (this w)) →
  @delete base_class host w
  = (inr tt,
     emit (Console info
             "[FireModel] A document was successfully deleted in the %s collection with document id %s."
             [priv_collection (this w); id])
       (emit (HookCalled afterDelete)
          (emit (DeleteDoc (priv_collection (this w), id))
             (set_store (deleteDoc (priv_collection (this w), id) (store w))
                (emit (HookCalled beforeDelete)
                   (emit_all (map (query_of (VStr id)) (priv_hasMany (this w)))
                      (emit (Console info "[FireModel] delete() is called." []) w))))))).
Proof.
  intros Hid Hne Hnone. unfold delete.
  rewrite (bind_step _ _ _ _ _ (sendConsole_run _ _ _ _)).
  apply try_catch_inr.
  unfold bind at 1. unfold gets at 1.
  rewrite docId_unset_emit, (docId_string_set _ _ Hid Hne).
  unfold bind at 1. unfold ret at 1.
  unfold bind at 1. unfold hasChild at 1. rewrite this_emit.
  rewrite (hasChild_from_find (VStr id)) by done.
  rewrite store_emit, (find_none _ _ Hnone), (visited_all _ _ Hnone).
  set (wq := emit_all _ _).
  destruct (emit_all_fields (map (query_of (VStr id)) (priv_hasMany (this w)))
              (emit (Console info ("[FireModel] " +:+ "delete() is called.") []) w))
    as (_ & Hs & Ht).
  fold wq in Hs, Ht. rewrite this_emit in Ht. rewrite store_emit in Hs.
  rewrite (bind_step _ _ _ _ _ (call_hook_base _ _ _)).
  unfold delete_write at 1. unfold bind at 1. unfold bind at 1.
  rewrite this_emit, Ht, Hid, (doc_of_string _ _ Hne). cbn [lift].
  unfold ret at 1. cbn beta iota.
  unfold bind at 1. unfold catch_log, modify. cbn beta iota.
  unfold ret at 1. cbn beta iota.
  rewrite (bind_step _ _ _ _ _ (call_hook_base _ _ _)).
  unfold bind at 1. unfold gets at 1.
  cbn [this emit set_store store]. rewrite Ht, Hs. reflexivity.
Qed.



(** X17. With the default hooks, without an enumerable [tokenMap] and
    without numbering, a [create] followed by an [update] resolves, and the
    stored document is then exactly the attributes of the instance: the
    write of [update] leaves out [createAt] and [createDate], and the merge
    keeps the ones [create] stored. *)
Theorem create_then_update_mirrors_instance (docId : option string) (w : World) :
  tokenMap_enumerable (this w) = false →
  (∀ a, autonumbers (store w) !! priv_collection (this w) = Some a →
        an_condition a = false) →
  create_id docId w ≠ "" →
  ∃ w' w'',
    @create base_class host docId w
    = (inr (priv_collection (this w), create_id docId w), w')
    ∧ @update base_class host w'
      = (inr (priv_collection (this w), create_id docId w), w'')
    ∧ docs (store w'') !! (priv_collection (this w), create_id docId w)
      = Some (attrs (this w''))
    ∧ attrs (this w'') !! "createAt" = create_stamped docId w !! "createAt"
    ∧ attrs (this w'') !! "createDate" = create_stamped docId w !! "createDate".
Proof.
  intros Hen Hoff Hne.
  destruct (create_base_committed docId w _ Hen
              (create_transaction_plain _ _ _ _ Hoff)) as (w' & E & Hs & Ht).
  assert (get_attr "docId" (this w') = Some (VStr (create_id docId w))) as Hid.
  { unfold get_attr. rewrite Ht. apply create_stamped_docId. }
  assert (tokenMap_enumerable (this w') = false) as Hen' by (by rewrite Ht).
  assert (priv_collection (this w') = priv_collection (this w)) as Hcol
    by (by rewrite Ht).
  assert (docs (store w') !! (priv_collection (this w'), create_id docId w)
          = Some (create_stamped docId w)) as Hold.
  { rewrite Hs, Hcol. cbn. apply lookup_insert_eq. }
  assert (attrs (this w') = create_stamped docId w) as Hattrs by (by rewrite Ht).
  destruct (update_base_present w' _ _ Hid Hne Hen' Hold) as (w'' & E' & Ht' & Hs' & _).
  rewrite Hcol in E', Hs'.
  exists w', w''. split; [exact E|]. split; [exact E'|].
  rewrite Hs', Ht'. cbn [docs attrs set_attrs].
  split; [|split].
  - rewrite lookup_insert_eq. f_equal. apply map_eq. intros k.
    rewrite lookup_union, update_payload_lookup.
    case_decide as Hk.
    + rewrite update_stamped_lookup, Hattrs.
      destruct Hk as [-> | ->]; cbn; by destruct (create_stamped docId w !! _).
    + destruct (update_stamped w' !! k) as [v|] eqn:Ek.
      * by destruct (create_stamped docId w !! k).
      * rewrite update_stamped_lookup in Ek. repeat case_decide; try done.
        by rewrite <- Hattrs, Ek.
  - by rewrite update_stamped_lookup, Hattrs.
  - by rewrite update_stamped_lookup, Hattrs.
Qed.

(** X18. The loop of [#hasChild()] is a search for the first declared
    dependency that has a child: it returns that entry, or nothing when
    there is none, after one query for each entry up to and including the
    one found; it changes neither the store nor the instance. *)
Theorem hasChild_finds_first (w : World) (docId : value) :
  get_attr "docId" (this w) = Some docId →
  ∃ w',
    hasChild w
    = (inr (List.find (has_child (store w) docId) (priv_hasMany (this w))), w')
    ∧ trace w'
      = trace w
        ++ map (query_of docId)
             (visited (has_child (store w) docId) (priv_hasMany (this w)))
    ∧ store w' = store w
    ∧ this w' = this w
    ∧ (List.find (has_child (store w) docId) (priv_hasMany (this w)) = None →
       visited (has_child (store w) docId) (priv_hasMany (this w))
       = priv_hasMany (this w)).
Proof.
  intros Hid. eexists. split.
  - unfold hasChild. by apply hasChild_from_find.
  - destruct (emit_all_fields
                (map (query_of docId)
                   (visited (has_child (store w) docId) (priv_hasMany (this w)))) w)
      as (-> & -> & ->).
    repeat split. intros Hnone. apply visited_all.
    apply Forall_forall. intros x Hx.
    destruct (has_child (store w) docId x) eqn:Ex; [|done].
    apply list_elem_of_In in Hx.
    by apply (List.find_none _ _ Hnone) in Hx as Hf; rewrite Ex in Hf.
Qed.

(** X19. With the default hooks and a non-empty string [docId], when no
    declared dependency has a child, [delete] resolves: every dependency is
    queried once, in order, between the two hooks the one document is
    deleted, no other document and no numbering record changes, and the
    instance keeps its attributes, the [docId] included.  It resolves
    whether or not the document was stored. *)
Theorem delete_removes_document (w : World) (id : string) :
  get_attr "docId" (this w) = Some (VStr id) →
  id ≠ "" →
  Forall (fun x => has_child (store w) (VStr id) x = false) (priv_hasMany (this w)) →
  ∃ w',
    @delete base_class host w = (inr tt, w')
    ∧ docs (store w') = base.delete (priv_collection (this w), id) (docs (store w))
    ∧ autonumbers (store w') = autonumbers (store w)
    ∧ this w' = this w
    ∧ trace w'
      = trace w
        ++ [Console info "[FireModel] delete() is called." []]
        ++ map (query_of (VStr id)) (priv_hasMany (this w))
        ++ [HookCalled beforeDelete;
            DeleteDoc (priv_collection (this w), id);
            HookCalled afterDelete;
            Console info
              "[FireModel] A document was successfully deleted in the %s collection with document id %s."
              [priv_collection (this w); id]].
Proof.
  intros Hid Hne Hnone. eexists. split; [by apply delete_base_run|].
  destruct (emit_all_fields (map (query_of (VStr id)) (priv_hasMany (this w)))
              (emit (Console info "[FireModel] delete() is called." []) w))
    as (Htr & Hs & Ht).
  rewrite !store_emit, !this_emit, !trace_emit.
  cbn [set_store store this trace deleteDoc docs autonumbers].
  rewrite ?this_emit, ?trace_emit, Ht, Htr.
  rewrite ?this_emit, ?trace_emit.
  repeat split. by rewrite <- !app_assoc.
Qed.

End LifecycleMore.

(** ** Hooks that reject after the write *)
Section LateRejection.
Context {subclass : Subclass} {host : Host}.

(** What [create] rejects with when a hook rejected with [e]: [e] itself
    when it has a readable [message], and otherwise the TypeError that
    reading the message raises. *)
Lemma try_catch_rejected {A} (body : M A) w e w1 :
  body w = (inl e, w1) →
  ∃ w', try_catch body w
        = (inl (match message_of e with inl t => t | inr _ => e end), w')
        ∧ store w' = store w1 ∧ this w' = this w1.
Proof.
  intros Hbody. unfold try_catch. rewrite Hbody.
  destruct (message_of e) as [t|m]; eexists; (split; [reflexivity|done]).
Qed.

(** X20. A rejection of [afterCreate] comes too late to undo the write.  In
    a class whose [beforeCreate] resolves and whose [afterCreate] rejects,
    both leaving the instance and the store as they are, without an
    enumerable [tokenMap] and without numbering: [create] rejects, with the
    reason of the hook when that has a readable [message] and with the
    TypeError of reading the message otherwise, and the document is stored
    all the same. *)
Theorem create_rejected_after_write_keeps_document (docId : option string)
    (w : World) (e : thrown) :
  (∀ w0, hooks beforeCreate w0 = (Resolved, w0)) →
  (∀ w0, hooks afterCreate w0 = (Rejected e, w0)) →
  tokenMap_enumerable (this w) = false →
  (∀ a, autonumbers (store w) !! priv_collection (this w) = Some a →
        an_condition a = false) →
  ∃ w',
    create docId w
    = (inl (match message_of e with inl t => t | inr _ => e end), w')
    ∧ docs (store w') !! (priv_collection (this w), create_id docId w)
      = Some (create_stamped docId w)
    ∧ attrs (this w') = create_stamped docId w.
Proof.
  intros Hbefore Hafter Hen Hoff.
  destruct (create_called_run docId w) as [e0 Hcalled].
  unfold create. rewrite (bind_step _ _ _ _ _ Hcalled).
  edestruct (try_catch_rejected (A := DocRef)) as (w' & E & Hs & Ht);
    [|exists w'; split; [exact E|]; rewrite Hs, Ht].
  - assert (call_hook beforeCreate
              "An error has occured at beforeCreate() in create()." (emit e0 w)
            = (inr tt, emit (HookCalled beforeCreate) (emit e0 w))) as Hb
      by (unfold call_hook; by rewrite Hbefore).
    rewrite (bind_step _ _ _ _ _ Hb).
    rewrite (bind_step _ _ _ _ _
               (create_prepare_run docId
                  (emit (HookCalled beforeCreate) (emit e0 w)) Hen)).
    cbn [fst snd].
    assert (create_commit (priv_collection (this w), create_id docId w)
              (create_stamped docId w)
              (create_prepared docId (emit (HookCalled beforeCreate) (emit e0 w)))
            = (inr tt,
               emit (Transaction
                       (Some [WSet (priv_collection (this w), create_id docId w)
                                (create_stamped docId w)]))
                 (set_store
                    (commit (store w)
                       [WSet (priv_collection (this w), create_id docId w)
                          (create_stamped docId w)])
                    (create_prepared docId
                       (emit (HookCalled beforeCreate) (emit e0 w)))))) as Hc.
    { unfold create_commit, bind, gets, catch_log, run_transaction.
      change (store (create_prepared docId (emit (HookCalled beforeCreate) (emit e0 w))))
        with (store w).
      change (priv_collection
                (this (create_prepared docId (emit (HookCalled beforeCreate) (emit e0 w)))))
        with (priv_collection (this w)).
      by rewrite (create_transaction_plain _ _ _ _ Hoff). }
    change (create_id docId (emit (HookCalled beforeCreate) (emit e0 w)))
      with (create_id docId w).
    change (create_stamped docId (emit (HookCalled beforeCreate) (emit e0 w)))
      with (create_stamped docId w).
    change (priv_collection (this (emit (HookCalled beforeCreate) (emit e0 w))))
      with (priv_collection (this w)).
    rewrite (bind_step _ _ _ _ _ Hc).
    apply bind_inl. apply call_hook_rejected. apply Hafter.
  - cbn. split; [apply lookup_insert_eq | reflexivity].
Qed.

End LateRejection.

(** ** More on [initialize] *)
Section InitializeMore.
Context {subclass : Subclass}.

(** The loop of [initialize(item)] over the entries of [item]. *)
Lemma assign_items_attrs (l : list (string * value)) : ∀ (acc : FireModel) k,
  NoDup l.*1 → k ≠ "tokenMap" →
  attrs (foldl (fun acc kv => if in_this kv.1 acc then assign kv.1 kv.2 acc else acc)
               acc l) !! k
  = match attrs acc !! k with
    | Some d => Some (default d ((list_to_map l : gmap string value) !! k))
    | None => None
    end.
Proof.
  induction l as [|[key v] l IH]; intros acc k Hnd Hk.
  - cbn. by destruct (attrs acc !! k).
  - apply NoDup_cons in Hnd as [Hkey Hnd]. cbn [foldl fst snd].
    rewrite IH by done. clear IH. rewrite list_to_map_cons.
    destruct (decide (key = k)) as [->|Hne].
    + rewrite lookup_insert_eq.
      rewrite (not_elem_of_list_to_map_1 _ _ Hkey).
      unfold in_this. rewrite bool_decide_eq_false_2 by done. cbn [orb].
      destruct (attrs acc !! k) as [d|] eqn:Ek.
      * rewrite bool_decide_eq_true_2 by eauto.
        rewrite assign_attrs, decide_True by done. done.
      * rewrite bool_decide_eq_false_2 by (intros [? ?]; done). by rewrite Ek.
    + rewrite lookup_insert_ne by done.
      destruct (in_this key acc); [|done].
      rewrite assign_attrs. by rewrite decide_False by (intros [? _]; done).
Qed.

Lemma assign_items_tokenMap (l : list (string * value)) : ∀ acc : FireModel,
  attrs (foldl (fun acc kv => if in_this kv.1 acc then assign kv.1 kv.2 acc else acc)
               acc l) !! "tokenMap"
  = attrs acc !! "tokenMap".
Proof.
  induction l as [|[key v] l IH]; intros acc; [done|].
  cbn [foldl fst snd]. rewrite IH. destruct (in_this key acc); [|done].
  rewrite assign_attrs. by rewrite decide_False by (intros [-> ?]; done).
Qed.

Lemma assign_items_private (l : list (string * value)) : ∀ acc : FireModel,
  let r := foldl (fun acc kv => if in_this kv.1 acc then assign kv.1 kv.2 acc else acc)
                 acc l in
  priv_collection r = priv_collection acc
  ∧ priv_hasMany r = priv_hasMany acc
  ∧ priv_tokenFields r = priv_tokenFields acc
  ∧ tokenMap_enumerable r = tokenMap_enumerable acc.
Proof.
  induction l as [|[key v] l IH]; intros acc; cbn [foldl fst snd]; [done|].
  destruct (IH (if in_this key acc then assign key v acc else acc))
    as (-> & -> & -> & ->).
  destruct (in_this key acc); [apply assign_private | done].
Qed.

Lemma or_else_default (o : option value) (d : value) :
  default (or_else o d) o = default d o.
Proof. by destruct o. Qed.

(** What [initialize(item)] leaves in each attribute. *)
Lemma initialize_Some_attrs (it : Doc) (i : FireModel) k :
  k ≠ "tokenMap" →
  attrs (initialize (Some it) i) !! k
  = match attrs (initialize None i) !! k with
    | Some d => Some (default d (it !! k))
    | None => None
    end.
Proof.
  intros Hk. unfold initialize at 1.
  rewrite assign_items_attrs by (done || apply NoDup_fst_map_to_list).
  rewrite list_to_map_to_list.
  rewrite initialize_None_attrs.
  change (attrs (assign "uid" ?a (assign "updateDate" ?b (assign "updateAt" ?c
            (assign "createDate" ?d (assign "createAt" ?e (assign "docId" ?f i)))))))
    with (<["uid" := a]> (<["updateDate" := b]> (<["updateAt" := c]>
            (<["createDate" := d]> (<["createAt" := e]> (<["docId" := f]> (attrs i))))))).
  cbn [mbind option_bind].
  destruct (decide (k = "uid")) as [->|];
    [rewrite !lookup_insert_eq; by rewrite or_else_default|].
  rewrite !(lookup_insert_ne _ "uid") by done.
  destruct (decide (k = "updateDate")) as [->|];
    [rewrite !lookup_insert_eq; by rewrite or_else_default|].
  rewrite !(lookup_insert_ne _ "updateDate") by done.
  destruct (decide (k = "updateAt")) as [->|];
    [rewrite !lookup_insert_eq; by rewrite or_else_default|].
  rewrite !(lookup_insert_ne _ "updateAt") by done.
  destruct (decide (k = "createDate")) as [->|];
    [rewrite !lookup_insert_eq; by rewrite or_else_default|].
  rewrite !(lookup_insert_ne _ "createDate") by done.
  destruct (decide (k = "createAt")) as [->|];
    [rewrite !lookup_insert_eq; by rewrite or_else_default|].
  rewrite !(lookup_insert_ne _ "createAt") by done.
  destruct (decide (k = "docId")) as [->|];
    [rewrite !lookup_insert_eq; by rewrite or_else_default|].
  by rewrite !(lookup_insert_ne _ "docId") by done.
Qed.

Lemma initialize_Some_tokenMap (it : Doc) (i : FireModel) :
  attrs (initialize (Some it) i) !! "tokenMap" = attrs i !! "tokenMap".
Proof.
  unfold initialize. rewrite assign_items_tokenMap, !assign_attrs.
  by rewrite !decide_False by (intros [? _]; done).
Qed.

Lemma initialize_Some_private (it : Doc) (i : FireModel) :
  priv_collection (initialize (Some it) i) = priv_collection i
  ∧ priv_hasMany (initialize (Some it) i) = priv_hasMany i
  ∧ priv_tokenFields (initialize (Some it) i) = priv_tokenFields i
  ∧ tokenMap_enumerable (initialize (Some it) i) = tokenMap_enumerable i.
Proof.
  unfold initialize.
  destruct (assign_items_private (map_to_list it)
    (assign "uid" (or_else (it !! "uid") (VStr ""))
       (assign "updateDate" (or_else (it !! "updateDate") (VStr ""))
          (assign "updateAt" (or_else (it !! "updateAt") VNull)
             (assign "createDate" (or_else (it !! "createDate") (VStr ""))
                (assign "createAt" (or_else (it !! "createAt") VNull)
                   (assign "docId" (or_else (it !! "docId") (VStr "")) i)))))))
    as (H1 & H2 & H3 & H4).
  cbn [mbind option_bind]. rewrite H1, H2, H3, H4. done.
Qed.

(** X21. For an instance of a class and an item such that the keys of the
    item and the attributes of the instance are data names (none is the
    name of an accessor or method of the base class or of the class itself,
    or of a member of [Object.prototype]): the base [initialize(item)] is
    the reset of the six base attributes followed by the copy loop of
    [fetch]; the loop over the keys of [item] that the instance has and the
    loop over the keys of the instance that the payload has leave the same
    instance. *)
Theorem initialize_item_resets_then_copies (it : Doc) (i : FireModel) :
  data_names it →
  data_names (attrs i) →
  initialize (Some it) i = copy_from it (initialize None i).
Proof.
  intros _ _.
  destruct (initialize_Some_private it i) as (?&?&?&?).
  destruct (copy_from_private it (initialize None i)) as (?&?&?&?).
  destruct (initialize_None_private i) as (?&?&?&?).
  apply FireModel_eq; try congruence.
  apply map_eq. intros k. destruct (decide (k = "tokenMap")) as [->|Hk].
  - rewrite initialize_Some_tokenMap, copy_from_attrs_tokenMap.
    rewrite initialize_None_other; [done|]. cbn.
    rewrite !not_elem_of_cons. repeat split; try done. apply not_elem_of_nil.
  - by rewrite initialize_Some_attrs, copy_from_attrs.
Qed.

(** X22. For an instance of a class and an item whose keys are data names
    (none is the name of an accessor or method of the base class or of the
    class itself, or of a member of [Object.prototype]): after the base
    [initialize(item)] a base attribute holds the item's value
    whenever the item has the key, falsy values included, so the [||]
    defaults show only for keys the item lacks; another attribute of the
    instance takes the item's value or stays; a key the instance lacks is
    not added.  Initializing again with the same item changes nothing. *)
Theorem initialize_item_attributes (it : Doc) (i : FireModel) :
  data_names it →
  (∀ k d, (k, d) ∈ base_attrs →
          attrs (initialize (Some it) i) !! k = Some (default d (it !! k)))
  ∧ (∀ k, k ∉ base_attrs.*1 → k ≠ "tokenMap" →
          attrs (initialize (Some it) i) !! k
          = match attrs i !! k with
            | Some v => Some (default v (it !! k))
            | None => None
            end)
  ∧ initialize (Some it) (initialize (Some it) i) = initialize (Some it) i.
Proof.
  intros _. split; [|split].
  - intros k d Hk. rewrite initialize_Some_attrs.
    + by rewrite (initialize_None_base i k d Hk).
    + intros ->. unfold base_attrs in Hk.
      repeat (apply elem_of_cons in Hk as [[=]|Hk]). by apply elem_of_nil in Hk.
  - intros k Hk Htm. rewrite initialize_Some_attrs by done.
    by rewrite initialize_None_other.
  - destruct (initialize_Some_private it (initialize (Some it) i)) as (?&?&?&?).
    apply FireModel_eq; try done.
    apply map_eq. intros k. destruct (decide (k = "tokenMap")) as [->|Htm].
    + by rewrite initialize_Some_tokenMap.
    + rewrite initialize_Some_attrs by done.
      destruct (decide (k ∈ base_attrs.*1)) as [Hin|Hout].
      * apply list_elem_of_fmap in Hin as ([k' d] & -> & Hin). cbn [fst] in *.
        rewrite (initialize_None_base _ k' d Hin).
        rewrite initialize_Some_attrs by done.
        by rewrite (initialize_None_base i k' d Hin).
      * rewrite initialize_None_other by done.
        destruct (attrs (initialize (Some it) i) !! k) as [v|] eqn:Ev; [|done].
        rewrite initialize_Some_attrs in Ev by done.
        destruct (attrs (initialize None i) !! k) as [d|]; [|done].
        injection Ev as <-. by destruct (it !! k).
Qed.

End InitializeMore.

(** ** The master-data store *)
Section MastersFacts.
Import Masters.

Lemma same_docId_id_of (d x : Doc) (id : string) :
  id_of d = Some id → same_docId d x = bool_decide (id_of x = Some id).
Proof.
  unfold id_of, same_docId. intros Hd.
  destruct (d !! "docId") as [[| | |s| |]|]; try discriminate.
  injection Hd as ->.
  destruct (x !! "docId") as [[| | |t| |]|]; cbn;
    try (by rewrite bool_decide_eq_false_2 by discriminate).
  destruct (String.eqb_spec t id) as [->|Hne].
  - by rewrite bool_decide_eq_true_2.
  - rewrite bool_decide_eq_false_2; [done|]. congruence.
Qed.

Lemma filter_all {A} (P : A → Prop) `{∀ x, Decision (P x)} (l : list A) :
  Forall P l → filter P l = l.
Proof.
  induction 1 as [|x l Hx _ IH]; [done|]. by rewrite filter_cons_True, IH.
Qed.

Lemma ids_cons x l :
  ids (x :: l) = match id_of x with Some id => id :: ids l | None => ids l end.
Proof. unfold ids. cbn. by destruct (id_of x). Qed.

Lemma by_id_cons x l :
  by_id (x :: l)
  = match id_of x with Some id => <[id := x]> (by_id l) | None => by_id l end.
Proof. unfold by_id. cbn. by destruct (id_of x). Qed.

Lemma ids_app l1 l2 : ids (l1 ++ l2) = ids l1 ++ ids l2.
Proof. unfold ids. apply omap_app. Qed.

Lemma by_id_dom l id : by_id l !! id = None ↔ id ∉ ids l.
Proof.
  induction l as [|x l IH].
  - split; [intros _; apply not_elem_of_nil | done].
  - rewrite by_id_cons, ids_cons. destruct (id_of x) as [i|]; [|done].
    rewrite not_elem_of_cons. destruct (decide (id = i)) as [->|Hne].
    + rewrite lookup_insert_eq. split; [done|]. by intros [? _].
    + rewrite lookup_insert_ne by done. rewrite IH. tauto.
Qed.

(** No record has the id: [findIndex] gives [-1]. *)
Lemma findIndex_none d id l :
  id_of d = Some id → id ∉ ids l → findIndex (same_docId d) l = None.
Proof.
  intros Hd. induction l as [|x l IH]; intros Hid; [done|].
  cbn. rewrite (same_docId_id_of _ _ _ Hd). rewrite ids_cons in Hid.
  destruct (id_of x) as [i|] eqn:Ex.
  - apply not_elem_of_cons in Hid as [Hne Hid].
    rewrite bool_decide_eq_false_2 by congruence. by rewrite IH.
  - rewrite bool_decide_eq_false_2 by congruence. by rewrite IH.
Qed.

(** Some record has the id: [findIndex] gives the position of the first. *)
Lemma findIndex_some d id l :
  id_of d = Some id → id ∈ ids l →
  ∃ n x, findIndex (same_docId d) l = Some n ∧ l !! n = Some x
         ∧ id_of x = Some id.
Proof.
  intros Hd. induction l as [|x l IH]; intros Hid; [by apply elem_of_nil in Hid|].
  cbn. rewrite (same_docId_id_of _ _ _ Hd).
  destruct (decide (id_of x = Some id)) as [Hx|Hx].
  - rewrite bool_decide_eq_true_2 by done. by exists O, x.
  - rewrite bool_decide_eq_false_2 by done.
    rewrite ids_cons in Hid.
    assert (id ∈ ids l) as Hin.
    { destruct (id_of x) as [i|]; [|done].
      apply elem_of_cons in Hid as [->|]; [congruence|done]. }
    destruct (IH Hin) as (n & y & -> & Hy & Hidy). by exists (S n), y.
Qed.

Lemma ids_insert l : ∀ n x d,
  l !! n = Some x → id_of x = id_of d → ids (<[n := d]> l) = ids l.
Proof.
  induction l as [|y l IH]; intros [|n] x d Hx Heq; try done.
  - injection Hx as ->. cbn [list_insert]. change (<[0%nat := d]> (x :: l)) with (d :: l).
    by rewrite !ids_cons, Heq.
  - change (<[S n := d]> (y :: l)) with (y :: <[n := d]> l).
    rewrite !ids_cons. by rewrite (IH n x d Hx Heq).
Qed.

Lemma by_id_insert l : ∀ n x d id,
  l !! n = Some x → id_of x = Some id → id_of d = Some id → NoDup (ids l) →
  by_id (<[n := d]> l) = <[id := d]> (by_id l).
Proof.
  induction l as [|y l IH]; intros [|n] x d id Hx Hidx Hidd Hnd; try done.
  - injection Hx as ->. change (<[0%nat := d]> (x :: l)) with (d :: l).
    rewrite !by_id_cons, Hidx, Hidd. by rewrite insert_insert_eq.
  - change (<[S n := d]> (y :: l)) with (y :: <[n := d]> l).
    cbn in Hx. rewrite !by_id_cons. rewrite ids_cons in Hnd.
    destruct (id_of y) as [i|] eqn:Ey.
    + apply NoDup_cons in Hnd as [Hi Hnd].
      rewrite (IH n x d id Hx Hidx Hidd Hnd).
      apply insert_insert_ne. intros ->. apply Hi.
      unfold ids. apply list_elem_of_omap. exists x. split; [|done].
      by eapply list_elem_of_lookup_2.
    + by apply (IH n x d id).
Qed.

Lemma by_id_lookup l : ∀ n x id,
  l !! n = Some x → id_of x = Some id → NoDup (ids l) → by_id l !! id = Some x.
Proof.
  induction l as [|y l IH]; intros [|n] x id Hx Hidx Hnd; try done.
  - injection Hx as ->. by rewrite by_id_cons, Hidx, lookup_insert_eq.
  - cbn in Hx. rewrite by_id_cons. rewrite ids_cons in Hnd.
    destruct (id_of y) as [i|] eqn:Ey.
    + apply NoDup_cons in Hnd as [Hi Hnd].
      rewrite lookup_insert_ne; [by apply (IH n)|].
      intros ->. apply Hi. unfold ids. apply list_elem_of_omap.
      exists x. split; [|done]. by eapply list_elem_of_lookup_2.
    + by apply (IH n).
Qed.

Lemma ids_delete l : ∀ n x id,
  l !! n = Some x → id_of x = Some id → NoDup (ids l) →
  ids (base.delete n l) = filter (fun i => i ≠ id) (ids l).
Proof.
  induction l as [|y l IH]; intros [|n] x id Hx Hidx Hnd; try done.
  - injection Hx as ->. change (base.delete 0%nat (x :: l)) with l.
    rewrite ids_cons, Hidx in Hnd |- *. apply NoDup_cons in Hnd as [Hi Hnd].
    rewrite filter_cons_False by (intros H; by apply H).
    symmetry. apply filter_all. apply Forall_forall. intros i Hin ->. done.
  - change (base.delete (S n) (y :: l)) with (y :: base.delete n l).
    cbn in Hx. rewrite !ids_cons. rewrite ids_cons in Hnd.
    destruct (id_of y) as [i|] eqn:Ey.
    + apply NoDup_cons in Hnd as [Hi Hnd].
      rewrite filter_cons_True.
      * by rewrite (IH n x id Hx Hidx Hnd).
      * intros ->. apply Hi. unfold ids. apply list_elem_of_omap.
        exists x. split; [|done]. by eapply list_elem_of_lookup_2.
    + by apply (IH n x id).
Qed.

Lemma by_id_delete l : ∀ n x id,
  l !! n = Some x → id_of x = Some id → NoDup (ids l) →
  by_id (base.delete n l) = base.delete id (by_id l).
Proof.
  induction l as [|y l IH]; intros [|n] x id Hx Hidx Hnd; try done.
  - injection Hx as ->. change (base.delete 0%nat (x :: l)) with l.
    rewrite by_id_cons, Hidx. rewrite ids_cons, Hidx in Hnd.
    apply NoDup_cons in Hnd as [Hi Hnd].
    rewrite delete_insert_eq. symmetry. apply delete_id. by apply by_id_dom.
  - change (base.delete (S n) (y :: l)) with (y :: base.delete n l).
    cbn in Hx. rewrite !by_id_cons. rewrite ids_cons in Hnd.
    destruct (id_of y) as [i|] eqn:Ey.
    + apply NoDup_cons in Hnd as [Hi Hnd].
      rewrite (IH n x id Hx Hidx Hnd).
      symmetry. apply delete_insert_ne. intros ->. apply Hi.
      unfold ids. apply list_elem_of_omap. exists x. split; [|done].
      by eapply list_elem_of_lookup_2.
    + by apply (IH n x id).
Qed.

Lemma items_of_array c s items :
  c ≠ "listeners" → arrays s !! c = Some items → items_of c s = inr items.
Proof.
  intros Hc Hitems. unfold items_of, state_get.
  apply String.eqb_neq in Hc as ->. by rewrite Hitems.
Qed.

(** [addMaster] on an array: the record replaces the first one of its id,
    or goes to the end. *)
Lemma addMaster_run w c d items id :
  c ≠ "" → c ≠ "listeners" → arrays (state w) !! c = Some items →
  NoDup (ids items) → id_of d = Some id →
  ∃ items',
    addMaster (Some c) (Some d) w
    = (inr tt, set_state (set_array c items' (state w)) w)
    ∧ by_id items' = <[id := d]> (by_id items)
    ∧ NoDup (ids items')
    ∧ ids items' = (if decide (id ∈ ids items) then ids items else ids items ++ [id])
    ∧ (by_id items !! id = Some d → items' = items).
Proof.
  intros Hc Hl Hitems Hnd Hd. unfold addMaster. cbn [no_collection].
  apply String.eqb_neq in Hc as ->. rewrite (items_of_array _ _ _ Hl Hitems).
  destruct (decide (id ∈ ids items)) as [Hin|Hout].
  - destruct (findIndex_some d id items Hd Hin) as (n & x & -> & Hx & Hidx).
    exists (<[n := d]> items). split; [done|].
    rewrite (by_id_insert _ _ _ _ _ Hx Hidx Hd Hnd).
    rewrite (ids_insert _ _ _ _ Hx) by congruence.
    repeat split; try done.
    intros Hsame. apply list_insert_id. rewrite Hx. f_equal.
    rewrite (by_id_lookup _ _ _ _ Hx Hidx Hnd) in Hsame. by injection Hsame.
  - rewrite (findIndex_none d id items Hd Hout).
    exists (items ++ [d]). split; [done|].
    assert (ids [d] = [id]) as Hone by (by rewrite ids_cons, Hd).
    assert (by_id [d] = {[ id := d ]}) as Hmap by (by rewrite by_id_cons, Hd).
    repeat split.
    + unfold by_id in *. rewrite omap_app, list_to_map_app.
      rewrite Hmap. symmetry. apply insert_union_singleton_r. by apply by_id_dom.
    + rewrite ids_app, Hone. apply NoDup_app. split; [done|]. split.
      * intros i Hi ->%list_elem_of_singleton. done.
      * apply NoDup_singleton.
    + by rewrite ids_app, Hone.
    + intros Hsame. apply by_id_dom in Hout. congruence.
Qed.

(** [removeMaster] on an array: the first record of the id goes. *)
Lemma removeMaster_run w c d items id :
  c ≠ "" → c ≠ "listeners" → arrays (state w) !! c = Some items →
  NoDup (ids items) → id_of d = Some id →
  ∃ items',
    (removeMaster (Some c) (Some d) w).1 = inr tt
    ∧ state (removeMaster (Some c) (Some d) w).2 = set_array c items' (state w)
    ∧ log (removeMaster (Some c) (Some d) w).2 = log w
    ∧ by_id items' = base.delete id (by_id items)
    ∧ NoDup (ids items')
    ∧ ids items' = filter (fun i => i ≠ id) (ids items).
Proof.
  intros Hc Hl Hitems Hnd Hd. unfold removeMaster. cbn [no_collection].
  apply String.eqb_neq in Hc as ->. rewrite (items_of_array _ _ _ Hl Hitems).
  destruct (decide (id ∈ ids items)) as [Hin|Hout].
  - destruct (findIndex_some d id items Hd Hin) as (n & x & -> & Hx & Hidx).
    exists (base.delete n items).
    rewrite (by_id_delete _ _ _ _ Hx Hidx Hnd), (ids_delete _ _ _ _ Hx Hidx Hnd).
    repeat split; try done. by apply NoDup_filter.
  - rewrite (findIndex_none d id items Hd Hout). exists items.
    repeat split; try done.
    + cbn. unfold set_array. rewrite insert_id by done. by destruct (state w).
    + symmetry. apply delete_id. by apply by_id_dom.
    + symmetry. apply filter_all. apply Forall_forall. intros i Hi ->. done.
Qed.

Lemma set_array_id c items s :
  arrays s !! c = Some items → set_array c items s = s.
Proof. intros H. unfold set_array. rewrite insert_id by done. by destruct s. Qed.

Lemma set_array_twice c items1 items2 s :
  set_array c items2 (set_array c items1 s) = set_array c items2 s.
Proof. unfold set_array. cbn. by rewrite insert_insert_eq. Qed.

Lemma set_state_id w : set_state (state w) w = w.
Proof. by destruct w. Qed.

(** One change of a snapshot. *)
Lemma on_change_run w c ch items :
  c ≠ "" → c ≠ "listeners" → arrays (state w) !! c = Some items →
  NoDup (ids items) → is_Some (id_of ch.2) →
  ∃ items',
    (on_change c ch w).1 = inr tt
    ∧ state (on_change c ch w).2 = set_array c items' (state w)
    ∧ log (on_change c ch w).2 = log w
    ∧ by_id items' = change_map ch (by_id items)
    ∧ NoDup (ids items')
    ∧ (ch.1 = added → by_id items !! default "" (id_of ch.2) = Some ch.2 →
       items' = items).
Proof.
  intros Hc Hl Hitems Hnd [id Hid]. unfold on_change, change_map. rewrite Hid.
  destruct ch as [[| |] d]; cbn [fst snd] in *.
  - destruct (addMaster_run w c d items id Hc Hl Hitems Hnd Hid)
      as (items' & -> & Hmap & Hnd' & _ & Hsame). exists items'. by repeat split.
  - destruct (addMaster_run w c d items id Hc Hl Hitems Hnd Hid)
      as (items' & -> & Hmap & Hnd' & _ & Hsame). exists items'. by repeat split.
  - destruct (removeMaster_run w c d items id Hc Hl Hitems Hnd Hid)
      as (items' & H1 & H2 & H3 & Hmap & Hnd' & _). exists items'. by repeat split.
Qed.

Lemma on_snapshot_run c : ∀ changes w items,
  c ≠ "" → c ≠ "listeners" → arrays (state w) !! c = Some items →
  NoDup (ids items) → Forall (fun ch => is_Some (id_of ch.2)) changes →
  ∃ items',
    (on_snapshot c changes w).1 = inr tt
    ∧ state (on_snapshot c changes w).2 = set_array c items' (state w)
    ∧ log (on_snapshot c changes w).2 = log w
    ∧ by_id items' = foldl (fun m ch => change_map ch m) (by_id items) changes
    ∧ NoDup (ids items').
Proof.
  induction changes as [|ch changes IH]; intros w items Hc Hl Hitems Hnd Hall.
  - exists items. cbn. by rewrite set_array_id.
  - apply Forall_cons in Hall as [Hch Hall].
    destruct (on_change_run w c ch items Hc Hl Hitems Hnd Hch)
      as (items1 & H1 & H2 & H3 & Hmap & Hnd1 & _).
    cbn [on_snapshot foldl].
    destruct (on_change c ch w) as [[e|u] w1]; cbn [fst snd] in *; [discriminate|].
    destruct (IH w1 items1 Hc Hl) as (items' & H1' & H2' & H3' & Hmap' & Hnd');
      [by rewrite H2; apply lookup_insert_eq|done|done|].
    exists items'. rewrite H1', H2', H3', H2, H3, Hmap', Hmap, set_array_twice. done.
Qed.

(** Changes of type [added] whose records the array already holds. *)
Lemma on_snapshot_known c : ∀ ds w items,
  c ≠ "" → c ≠ "listeners" → arrays (state w) !! c = Some items →
  NoDup (ids items) →
  Forall (fun d => ∃ id, id_of d = Some id ∧ by_id items !! id = Some d) ds →
  on_snapshot c (map (fun d => (added, d)) ds) w = (inr tt, w).
Proof.
  induction ds as [|d ds IH]; intros w items Hc Hl Hitems Hnd Hall; [done|].
  apply Forall_cons in Hall as [(id & Hid & Hd) Hall].
  cbn [map on_snapshot].
  destruct (on_change_run w c (added, d) items Hc Hl Hitems Hnd)
    as (items1 & H1 & H2 & H3 & _ & _ & Hsame); [by cbn; eauto|].
  rewrite Hsame in H2 by (by cbn; rewrite ?Hid).
  rewrite set_array_id in H2 by done.
  destruct (on_change c (added, d) w) as [[e|u] w1]; cbn [fst snd] in *; [discriminate|].
  assert (w1 = w) as -> by (destruct w1, w; cbn in *; congruence).
  by apply (IH w items).
Qed.

Lemma foldl_insert_lookup (ds : list Doc) : ∀ (m : gmap string Doc) d id,
  NoDup (ids ds) → d ∈ ds → id_of d = Some id →
  foldl (fun m ch => change_map ch m) m (map (fun d => (added, d)) ds) !! id
  = Some d.
Proof.
  induction ds as [|x ds IH]; intros m d id Hnd Hin Hid;
    [by apply elem_of_nil in Hin|].
  cbn [map foldl]. rewrite ids_cons in Hnd.
  apply elem_of_cons in Hin as [->|Hin].
  - rewrite Hid in Hnd. apply NoDup_cons in Hnd as [Hfresh _].
    unfold change_map at 2. cbn [fst snd]. rewrite Hid.
    clear IH. revert m. induction ds as [|y ds IH]; intros m.
    + apply lookup_insert_eq.
    + cbn [map foldl]. rewrite ids_cons in Hfresh.
      unfold change_map at 2. cbn [fst snd].
      destruct (id_of y) as [i|] eqn:Ey.
      * apply not_elem_of_cons in Hfresh as [Hne Hfresh].
        rewrite insert_insert_ne by done. by apply IH.
      * by apply IH.
  - apply IH; [|done|done]. destruct (id_of x); [by apply NoDup_cons in Hnd as [_ ?]|done].
Qed.

(** The loop that empties the arrays, when each key has its array. *)
Lemma clear_arrays_run : ∀ keys s,
  Forall (fun k => k ≠ "listeners" ∧ is_Some (arrays s !! k)) keys →
  ∃ s', clear_arrays keys s = (inr tt, s')
        ∧ listeners s' = listeners s
        ∧ ∀ k, arrays s' !! k
               = if decide (k ∈ keys) then Some [] else arrays s !! k.
Proof.
  induction keys as [|key keys IH]; intros s Hall.
  - exists s. split; [done|]. split; [done|]. intros k.
    by rewrite decide_False by apply not_elem_of_nil.
  - apply Forall_cons in Hall as [[Hl [items Hitems]] Hall].
    cbn [clear_arrays]. unfold state_get at 1.
    apply String.eqb_neq in Hl as ->. rewrite Hitems. cbn [fmap option_fmap option_map].
    destruct (IH (set_array key [] s)) as (s' & -> & Hls & Harr).
    { eapply Forall_impl; [exact Hall|]. intros k [Hk [its Hits]]. split; [done|].
      cbn. destruct (decide (k = key)) as [->|Hne].
      - rewrite lookup_insert_eq. eauto.
      - rewrite lookup_insert_ne by done. eauto. }
    exists s'. split; [done|]. split; [done|]. intros k. rewrite Harr. cbn.
    destruct (decide (k ∈ keys)) as [Hin|Hout].
    + by rewrite decide_True by (by right).
    + destruct (decide (k = key)) as [->|Hne].
      * rewrite lookup_insert_eq. by rewrite decide_True by (by left).
      * rewrite lookup_insert_ne by done.
        by rewrite decide_False by (intros [?|?]%elem_of_cons; done).
Qed.

Lemma removeListener_run w c l :
  c ≠ "" → listener_of c (listeners (state w)) = Some l →
  Forall (fun k => k ≠ "listeners" ∧ is_Some (arrays (state w) !! k))
         (listeners (state w)).*1 →
  ∃ w', removeListener (Some c) w = (inr tt, w')
        ∧ listeners (state w') = listeners (state w)
        ∧ log w' = log w ++ match l with
                            | Some n => [ListenerCalled n]
                            | None => []
                            end
        ∧ ∀ k, arrays (state w') !! k
               = if decide (k ∈ (listeners (state w)).*1) then Some []
                 else arrays (state w) !! k.
Proof.
  intros Hc Hl Hall. unfold removeListener. cbn [no_collection].
  apply String.eqb_neq in Hc as ->. rewrite Hl.
  assert (state (match l with Some n => emit (ListenerCalled n) w | None => w end)
          = state w) as Hst by (by destruct l).
  rewrite Hst.
  destruct (clear_arrays_run _ _ Hall) as (s' & -> & Hls & Harr).
  eexists. split; [reflexivity|]. cbn [fst snd set_state state log].
  split; [done|]. split; [|done].
  destruct l; cbn; [done|by rewrite app_nil_r].
Qed.

Lemma listener_of_elem (ls : list (string * option nat)) key l :
  NoDup ls.*1 → (key, l) ∈ ls → listener_of key ls = Some l.
Proof.
  induction ls as [|[k v] ls IH]; intros Hnd Hin; [by apply elem_of_nil in Hin|].
  cbn in Hnd. apply NoDup_cons in Hnd as [Hk Hnd]. cbn [listener_of].
  apply elem_of_cons in Hin as [[= -> ->]|Hin].
  - by rewrite String.eqb_refl.
  - destruct (String.eqb_spec k key) as [->|Hne]; [|by apply IH].
    exfalso. apply Hk. apply list_elem_of_fmap. by exists (key, l).
Qed.

Lemma removeListener_each_run (L : list (string * option nat)) : ∀ ls w,
  listeners (state w) = L → NoDup L.*1 → ls ⊆ L →
  Forall (fun k => k ≠ "" ∧ k ≠ "listeners" ∧ is_Some (arrays (state w) !! k)) L.*1 →
  ∃ w', removeListener_each ls.*1 w = (inr tt, w')
        ∧ listeners (state w') = L
        ∧ log w' = log w ++ listener_calls ls
        ∧ ∀ k, arrays (state w') !! k
               = if decide (k ∈ L.*1 ∧ ls ≠ []) then Some []
                 else arrays (state w) !! k.
Proof.
  induction ls as [|[key l] ls IH]; intros w HL Hnd Hsub Hall.
  - exists w. cbn. rewrite app_nil_r. repeat split; try done.
    intros k. by rewrite decide_False by (intros [_ ?]; done).
  - cbn [fmap list_fmap fst removeListener_each].
    assert ((key, l) ∈ L) as Hin by (apply Hsub; by left).
    assert (key ≠ "") as Hkey.
    { rewrite Forall_forall in Hall. apply (Hall key).
      apply list_elem_of_fmap. by exists (key, l). }
    destruct (removeListener_run w key l Hkey) as (w1 & -> & Hls1 & Hlog1 & Harr1).
    { rewrite HL. by apply listener_of_elem. }
    { rewrite HL. eapply Forall_impl; [exact Hall|]. by intros k (_ & ? & ?). }
    rewrite HL in Hls1, Harr1.
    destruct (IH w1) as (w' & -> & Hls' & Hlog' & Harr'); [done|done| | |].
    { intros x Hx. apply Hsub. by right. }
    { apply Forall_forall. intros k Hk. rewrite Forall_forall in Hall.
      destruct (Hall k Hk) as (?&?&_). repeat split; [done..|].
      rewrite Harr1, decide_True by done. eauto. }
    exists w'. split; [done|]. split; [done|]. split.
    + rewrite Hlog', Hlog1, <- app_assoc. f_equal. unfold listener_calls. cbn.
      by destruct l.
    + intros k. rewrite Harr', Harr1.
      destruct (decide (k ∈ L.*1)) as [Hk|Hk].
      * rewrite (decide_True (P := k ∈ L.*1 ∧ (key, l) :: ls ≠ [])) by done.
        by destruct (decide (k ∈ L.*1 ∧ ls ≠ [])).
      * by rewrite !decide_False by (intros [? _]; done).
Qed.

Lemma set_listener_keys c v (ls : list (string * option nat)) :
  (map (fun kv : string * option nat =>
          if String.eqb kv.1 c then (kv.1, v) else kv) ls).*1 = ls.*1.
Proof.
  induction ls as [|[k x] ls IH]; [done|]. cbn [map fmap list_fmap fst].
  change (list_fmap _ _ fst ?l) with (l.*1). rewrite IH.
  by destruct (String.eqb k c).
Qed.

Lemma elem_of_listeners c (ls : list (string * option nat)) :
  c ∈ ls.*1 ↔ is_Some (listener_of c ls).
Proof.
  induction ls as [|[k x] ls IH].
  - cbn. split; [by intros ?%elem_of_nil | by intros [? ?]].
  - cbn [fmap list_fmap fst listener_of]. change (list_fmap _ _ fst ?l) with (l.*1).
    rewrite elem_of_cons, IH.
    destruct (String.eqb_spec k c) as [->|Hne]; [split; [by eauto|by left]|].
    split; [intros [?|?]; [congruence|done] | by right].
Qed.

Lemma listener_of_set c v k (ls : list (string * option nat)) :
  listener_of k (map (fun kv : string * option nat =>
                        if String.eqb kv.1 c then (kv.1, v) else kv) ls)
  = if decide (k = c)
    then (if decide (c ∈ ls.*1) then Some v else None)
    else listener_of k ls.
Proof.
  induction ls as [|[k' x] ls IH].
  - cbn. destruct (decide (k = c)); [|done].
    by rewrite decide_False by apply not_elem_of_nil.
  - cbn [map fst fmap list_fmap]. change (list_fmap _ _ fst ?l) with (l.*1).
    destruct (String.eqb_spec k' c) as [->|Hne]; cbn [listener_of].
    + destruct (String.eqb_spec c k) as [->|Hck].
      * rewrite decide_True by done. by rewrite decide_True by (by left).
      * rewrite IH. by rewrite !decide_False by done.
    + destruct (String.eqb_spec k' k) as [->|Hk'k].
      * by rewrite decide_False by done.
      * rewrite IH. destruct (decide (k = c)); [|done].
        destruct (decide (c ∈ ls.*1)).
        -- by rewrite decide_True by (by right).
        -- by rewrite decide_False by (intros [?|?]%elem_of_cons; done).
Qed.

(** X23. [addMaster] treats the array as a map keyed by [docId]: on an
    array without two records of one id, a record with a string id
    replaces the record of that id where it stands, or goes to the end when
    there is none; the ids stay distinct, and nothing but that array
    changes. *)
Theorem addMaster_upserts_by_id (w : World) (c : string) (d : Doc)
    (items : list Doc) (id : string) :
  c ≠ "" → c ≠ "listeners" →
  arrays (state w) !! c = Some items →
  NoDup (ids items) →
  id_of d = Some id →
  ∃ items',
    addMaster (Some c) (Some d) w
    = (inr tt, set_state (set_array c items' (state w)) w)
    ∧ by_id items' = <[id := d]> (by_id items)
    ∧ NoDup (ids items')
    ∧ ids items' = (if decide (id ∈ ids items) then ids items else ids items ++ [id]).
Proof.
  intros Hc Hl Hitems Hnd Hd.
  destruct (addMaster_run w c d items id Hc Hl Hitems Hnd Hd)
    as (items' & E & Hmap & Hnd' & Hids & _).
  by exists items'.
Qed.

(** X24. [removeMaster] is the deletion from that map: the record of the
    payload's id goes, the other records keep their order, and removing an
    id the array lacks changes nothing. *)
Theorem removeMaster_deletes_by_id (w : World) (c : string) (d : Doc)
    (items : list Doc) (id : string) :
  c ≠ "" → c ≠ "listeners" →
  arrays (state w) !! c = Some items →
  NoDup (ids items) →
  id_of d = Some id →
  ∃ items',
    (removeMaster (Some c) (Some d) w).1 = inr tt
    ∧ state (removeMaster (Some c) (Some d) w).2 = set_array c items' (state w)
    ∧ log (removeMaster (Some c) (Some d) w).2 = log w
    ∧ by_id items' = base.delete id (by_id items)
    ∧ NoDup (ids items')
    ∧ ids items' = filter (fun i => i ≠ id) (ids items)
    ∧ (id ∉ ids items → items' = items).
Proof.
  intros Hc Hl Hitems Hnd Hd.
  destruct (removeMaster_run w c d items id Hc Hl Hitems Hnd Hd)
    as (items' & H1 & H2 & H3 & Hmap & Hnd' & Hids).
  exists items'. repeat split; try done.
  intros Hout. unfold removeMaster in H2. cbn [no_collection] in H2.
  apply String.eqb_neq in Hc. rewrite Hc, (items_of_array _ _ _ Hl Hitems) in H2.
  rewrite (findIndex_none d id items Hd Hout) in H2. cbn in H2.
  apply (f_equal (fun s => arrays s !! c)) in H2. cbn in H2.
  rewrite lookup_insert_eq, Hitems in H2. by injection H2.
Qed.

(** X25. The snapshot callback mirrors the collection: after the changes of
    a snapshot, all with string ids, the array read as a map is the map
    before with each [added] and [modified] record inserted and each
    [removed] one deleted, in order; the callback does not throw, the ids
    stay distinct, and nothing but that array changes. *)
Theorem on_snapshot_mirrors_changes (w : World) (c : string)
    (changes : list (change_type * Doc)) (items : list Doc) :
  c ≠ "" → c ≠ "listeners" →
  arrays (state w) !! c = Some items →
  NoDup (ids items) →
  Forall (fun ch => is_Some (id_of ch.2)) changes →
  ∃ items',
    (on_snapshot c changes w).1 = inr tt
    ∧ state (on_snapshot c changes w).2 = set_array c items' (state w)
    ∧ log (on_snapshot c changes w).2 = log w
    ∧ by_id items' = foldl (fun m ch => change_map ch m) (by_id items) changes
    ∧ NoDup (ids items').
Proof. apply on_snapshot_run. Qed.

(** X26. Loading a collection twice does no harm: after the records that
    [getDocs] returned were committed, the first snapshot of the listener,
    which reports the same records as [added], leaves the state exactly as
    it is; no record is doubled. *)
Theorem snapshot_after_preload_changes_nothing (w : World) (c : string)
    (ds items : list Doc) :
  c ≠ "" → c ≠ "listeners" →
  arrays (state w) !! c = Some items →
  NoDup (ids items) →
  Forall (fun d => is_Some (id_of d)) ds →
  NoDup (ids ds) →
  (preload c ds w).1 = inr tt
  ∧ on_snapshot c (map (fun d => (added, d)) ds) (preload c ds w).2
    = (inr tt, (preload c ds w).2)
  ∧ ∃ items',
      arrays (state (preload c ds w).2) !! c = Some items'
      ∧ ∀ d, d ∈ ds → d ∈ items'.
Proof.
  intros Hc Hl Hitems Hnd Hkeyed Hdocs. unfold preload.
  destruct (on_snapshot_run c (map (fun d => (added, d)) ds) w items Hc Hl Hitems Hnd)
    as (items' & H1 & H2 & H3 & Hmap & Hnd').
  { apply Forall_fmap. eapply Forall_impl; [exact Hkeyed|]. done. }
  assert (arrays (state (on_snapshot c (map (fun d => (added, d)) ds) w).2) !! c
          = Some items') as Harr by (rewrite H2; apply lookup_insert_eq).
  assert (∀ d, d ∈ ds → ∃ id, id_of d = Some id ∧ by_id items' !! id = Some d)
    as Hheld.
  { intros d Hd. rewrite Forall_forall in Hkeyed. destruct (Hkeyed d Hd) as [id Hid].
    exists id. split; [done|]. rewrite Hmap. by apply foldl_insert_lookup. }
  split; [done|]. split.
  - apply (on_snapshot_known c ds _ items'); try done.
    apply Forall_forall. exact Hheld.
  - exists items'. split; [done|]. intros d Hd.
    destruct (Hheld d Hd) as (id & Hid & Hlook).
    unfold by_id in Hlook. apply elem_of_list_to_map_2 in Hlook.
    apply list_elem_of_omap in Hlook as (y & Hy & Hyd).
    destruct (id_of y); [|done]. cbn in Hyd. by injection Hyd as -> ->.
Qed.

(** X27. [removeListener] for a registered collection calls that
    collection's listener, when it has one, and then empties the array of
    every registered collection, not only its own; the listener stays
    registered, and arrays of other names are untouched. *)
Theorem removeListener_clears_every_array (w : World) (c : string)
    (l : option nat) :
  c ≠ "" →
  listener_of c (listeners (state w)) = Some l →
  Forall (fun k => k ≠ "listeners" ∧ is_Some (arrays (state w) !! k))
         (listeners (state w)).*1 →
  ∃ w',
    removeListener (Some c) w = (inr tt, w')
    ∧ listeners (state w') = listeners (state w)
    ∧ log w' = log w ++ match l with
                        | Some n => [ListenerCalled n]
                        | None => []
                        end
    ∧ ∀ k, arrays (state w') !! k
           = if decide (k ∈ (listeners (state w)).*1) then Some []
             else arrays (state w) !! k.
Proof. apply removeListener_run. Qed.

(** X28. [unsubscribe], when every registered collection has its array,
    resolves after calling each registered listener exactly once, in the
    order of [listeners]; it leaves every registered array empty and the
    listeners registered as before. *)
Theorem unsubscribe_calls_each_listener_once (w : World) :
  NoDup (listeners (state w)).*1 →
  Forall (fun k => k ≠ "" ∧ k ≠ "listeners" ∧ is_Some (arrays (state w) !! k))
         (listeners (state w)).*1 →
  ∃ w',
    unsubscribe w = (inr tt, w')
    ∧ listeners (state w') = listeners (state w)
    ∧ log w' = log w ++ listener_calls (listeners (state w))
    ∧ ∀ k, arrays (state w') !! k
           = if decide (k ∈ (listeners (state w)).*1) then Some []
             else arrays (state w) !! k.
Proof.
  intros Hnd Hall.
  destruct (removeListener_each_run (listeners (state w)) (listeners (state w)) w)
    as (w' & E & Hls & Hlog & Harr); try done.
  exists w'. unfold unsubscribe. rewrite E. repeat split; try done.
  intros k. rewrite Harr.
  destruct (decide (k ∈ (listeners (state w)).*1)) as [Hk|Hk].
  - rewrite decide_True; [done|]. split; [done|].
    intros Hnil. rewrite Hnil in Hk. by apply elem_of_nil in Hk.
  - by rewrite decide_False by (intros [? _]; done).
Qed.

(** X29. For a payload whose collection is not the name of a member of
    [Object.prototype]: [addListener] never adds a collection, the names in
    [listeners] and all arrays are as before.  It registers the listener
    only for a non-empty name that [listeners] already has; every other
    such payload changes nothing and logs one console error. *)
Theorem addListener_registers_known_only (collection : option string)
    (listener : option nat) (w : World) :
  (∀ c, collection = Some c → c ∉ object_prototype_names) →
  (listeners (state (addListener collection listener w))).*1
  = (listeners (state w)).*1
  ∧ arrays (state (addListener collection listener w)) = arrays (state w)
  ∧ (∀ c l, collection = Some c → listener = Some l → c ≠ "" →
            c ∈ (listeners (state w)).*1 →
            log (addListener collection listener w) = log w
            ∧ ∀ k, listener_of k (listeners (state (addListener collection listener w)))
                   = if decide (k = c) then Some (Some l)
                     else listener_of k (listeners (state w)))
  ∧ ((∀ c, collection = Some c → c = "" ∨ c ∉ (listeners (state w)).*1)
     ∨ listener = None →
     state (addListener collection listener w) = state w
     ∧ ∃ message, log (addListener collection listener w)
                  = log w ++ [ConsoleError message]).
Proof.
  intros _.
  unfold addListener.
  destruct collection as [c|], listener as [l|]; cbn [no_collection];
    try (repeat split; [done..|]; by eauto).
  destruct (String.eqb_spec c "") as [->|Hc];
    [split; [done|]; split; [done|]; split; [by intros c l' [= <-] _ ?|by eauto]|].
  unfold in_listeners.
  destruct (listener_of c (listeners (state w))) as [old|] eqn:Eold.
  - assert (c ∈ (listeners (state w)).*1) as Hin
      by (apply elem_of_listeners; rewrite Eold; eauto).
    cbn [set_state set_listener state listeners arrays log].
    rewrite set_listener_keys. split; [done|]. split; [done|]. split.
    + intros c' l' [= <-] [= <-] _ _. split; [done|]. intros k.
      rewrite listener_of_set. destruct (decide (k = c)); [|done].
      by rewrite decide_True.
    + intros [Hbad|Hbad]; [|discriminate].
      by destruct (Hbad c eq_refl).
  - assert (c ∉ (listeners (state w)).*1) as Hout.
    { intros Hin%elem_of_listeners. rewrite Eold in Hin. by destruct Hin. }
    split; [done|]. split; [done|]. split; [by intros c' l' [= <-]|by eauto].
Qed.

End MastersFacts.

(** ** The statements at concrete inputs *)

Lemma update_delete_require_docId_witness :
  docId_unset fresh_users = true
  ∧ (@update base_class equality_host fresh_users).1
    = inl (Error "update() should have docId as a property. Call fetch() first.")
  ∧ (@delete base_class equality_host fresh_users).1
    = inl (Error "delete() should have docId as a property. Call fetch() first.").
Proof.
  split; [reflexivity|].
  destruct (@update_delete_require_docId base_class equality_host fresh_users eq_refl)
    as [(w1 & E1 & _) (w2 & E2 & _)].
  rewrite E1, E2. split; reflexivity.
Defined.

(** [length = 2], [current = 99]: the last code is used up. *)
Lemma allocate_exhausted_iff_full_witness :
  valid_autonumber {| an_current := 99; an_length := 2;
                      an_field := "code"; an_condition := true |}
  ∧ allocate "Users" {| an_current := 99; an_length := 2;
                        an_field := "code"; an_condition := true |}
    = inl (exhausted "Users").
Proof.
  assert (valid_autonumber {| an_current := 99; an_length := 2;
                              an_field := "code"; an_condition := true |}) as Hvalid.
  { unfold valid_autonumber. simpl. lia. }
  split; [exact Hvalid|].
  apply (allocate_exhausted_iff_full "Users" _ Hvalid).
  - unfold js_exact, max_string_length. simpl. lia.
  - simpl. lia.
Defined.

(** C3 does not hold past the range.  [length = 3], [current = 1000]: the next number
    1001 needs four digits, yet the allocation succeeds, with the code of
    the number 1. *)
Lemma allocate_wraps_past_capacity :
  10 ^ 3 <= 1000 + 1
  ∧ allocate "Users" {| an_current := 1000; an_length := 3;
                        an_field := "code"; an_condition := true |}
    = inr (1001, "001")
  ∧ allocate "Users" {| an_current := 0; an_length := 3;
                        an_field := "code"; an_condition := true |}
    = inr (1, "001")
  ∧ ¬ (allocate "Users" {| an_current := 1000; an_length := 3;
                           an_field := "code"; an_condition := true |}
       = inl (exhausted "Users")
       ↔ 10 ^ 3 <= 1000 + 1).
Proof.
  split; [lia|]. split; [reflexivity|]. split; [reflexivity|].
  intros [_ H]. specialize (H ltac:(lia)). vm_compute in H. discriminate.
Qed.

(** [length = 2], [current = 99], default hooks: [create()] rejects with
    the exhaustion error and the store is the one it started from. *)
Lemma create_exhausted_writes_nothing_witness :
  (@create base_class equality_host None (numbered_users 99 2)).1
  = inl (exhausted "Users")
  ∧ store (@create base_class equality_host None (numbered_users 99 2)).2
    = numbered_store 99 2.
Proof.
  pose (w0 := (create_called None (numbered_users 99 2)).2).
  pose (w1 := (@call_hook base_class beforeCreate
                 "An error has occured at beforeCreate() in create()." w0).2).
  pose (p := resolved (("", ""), ∅) (@create_prepare equality_host None w1)).
  pose (w2 := (@create_prepare equality_host None w1).2).
  destruct (@create_exhausted_writes_nothing base_class equality_host
              (numbered_users 99 2) w0 w1 w2 None p.1 p.2
              {| an_current := 99; an_length := 2;
                 an_field := "code"; an_condition := true |})
    as (w' & E & _ & Hs & _).
  - vm_compute. reflexivity.
  - vm_compute. reflexivity.
  - vm_compute. reflexivity.
  - vm_compute. reflexivity.
  - reflexivity.
  - unfold valid_autonumber. simpl. lia.
  - simpl. lia.
  - rewrite E. split; [reflexivity | exact Hs].
Defined.

(** C1 does not hold past the range.  [length = 2], [current = 100]: the next number
    101 does not fit in two digits, yet [create()] resolves, the document is
    written and [current] becomes 101. *)
Lemma create_past_capacity_not_refused :
  10 ^ 2 <= 100 + 1
  ∧ (@create base_class equality_host (Some "d1") (numbered_users 100 2)).1
    = inr ("Users", "d1")
  ∧ (docs (store (@create base_class equality_host (Some "d1")
                    (numbered_users 100 2)).2) !! ("Users", "d1")) ≫= (.!! "code")
    = Some (VStr "01")
  ∧ an_current <$> autonumbers (store (@create base_class equality_host (Some "d1")
                                         (numbered_users 100 2)).2) !! "Users"
    = Some 101.
Proof.
  split; [lia|]. split; [vm_compute; reflexivity|].
  split; vm_compute; reflexivity.
Qed.

(** [length = 5], [current = 41]: the record goes to 42 and the document
    gets the code [00042]. *)
Lemma create_allocates_next_code_witness :
  (@create base_class equality_host (Some "d1") (numbered_users 41 5)).1
  = inr ("Users", "d1")
  ∧ ∃ w3 item,
      docs (store w3) !! ("Users", "d1") = Some (<["code" := VStr "00042"]> item)
      ∧ autonumbers (store w3) !! "Users"
        = Some {| an_current := 42; an_length := 5;
                  an_field := "code"; an_condition := true |}.
Proof.
  assert ((@create base_class equality_host (Some "d1") (numbered_users 41 5)).1
          = inr ("Users", "d1")) as E by (vm_compute; reflexivity).
  split; [exact E|].
  destruct (@create base_class equality_host (Some "d1") (numbered_users 41 5))
    as [r w'] eqn:Ecreate.
  simpl in E. subst r.
  destruct (@create_allocates_next_code base_class equality_host
              (numbered_users 41 5) (Some "d1") ("Users", "d1") w' Ecreate)
    as (w0 & w1 & w2 & w3 & w4 & item & Hcalled & Hbefore & Hprep & _ & _ & _ & Hall).
  injection Hcalled as <-.
  apply (proj1 (call_hook_inr _ _ _ _ _)) in Hbefore. injection Hbefore as <-.
  destruct (create_prepare_inv _ _ _ _ _ Hprep) as (Hstore & _ & _ & Hcol).
  destruct (Hall {| an_current := 41; an_length := 5;
                    an_field := "code"; an_condition := true |})
    as (newCode & Hrecord & Hdoc & Hcode).
  { rewrite Hstore, Hcol. reflexivity. }
  { reflexivity. }
  { unfold js_exact, max_string_length. simpl. lia. }
  destruct Hcode as (-> & _ & _); [unfold valid_autonumber; simpl; lia|].
  rewrite Hcol in Hrecord.
  exists w3, item. split; [exact Hdoc | exact Hrecord].
Defined.

(** C2 does not hold past the range.  [length = 2], [current = 1234]: [create()]
    resolves and writes the code [35], which is not 1235 zero-padded to two
    digits. *)
Lemma create_writes_truncated_code :
  (@create base_class equality_host (Some "d1") (numbered_users 1234 2)).1
  = inr ("Users", "d1")
  ∧ (docs (store (@create base_class equality_host (Some "d1")
                    (numbered_users 1234 2)).2) !! ("Users", "d1")) ≫= (.!! "code")
    = Some (VStr "35")
  ∧ zero_padded 2 (1234 + 1) = "1235"
  ∧ "35" ≠ zero_padded 2 (1234 + 1).
Proof.
  split; [vm_compute; reflexivity|]. split; [vm_compute; reflexivity|].
  split; [reflexivity|]. vm_compute. discriminate.
Qed.

(** [c1] has no invoice, an order and a ticket: [Invoices] and [Orders] are
    queried, [Tickets] is not, and the error names [Orders]. *)
Lemma delete_refused_by_first_dependency_witness :
  (@delete base_class equality_host customer_world).1
  = inl (Error ("関連する情報が登録されているため削除できません。"
                +:+ String "010" "Collection: Orders"
                +:+ String "010" "docId: c1"))
  ∧ store (@delete base_class equality_host customer_world).2 = store customer_world
  ∧ queries (trace (@delete base_class equality_host customer_world).2)
    = [GetDocs "Invoices" "customerId" "==" (VStr "c1") 1;
       GetDocs "Orders" "customerId" "==" (VStr "c1") 1].
Proof.
  assert (get_attr "docId" (this customer_world) = Some (VStr "c1")) as Hid
    by (vm_compute; reflexivity).
  assert (Exists (fun x => @has_child equality_host (store customer_world) (VStr "c1") x
                           = true)
                 (priv_hasMany (this customer_world))) as Hex.
  { apply Exists_cons_tl, Exists_cons_hd. vm_compute. reflexivity. }
  destruct (@delete_refused_by_first_dependency base_class equality_host
              customer_world (VStr "c1") Hid eq_refl eq_refl Hex)
    as (pre & d & post & w' & message & Hmany & Hpre & Hd & Hm & E & Hs & _ & Ht & _).
  assert (pre = [{| collection := "Invoices"; field := "customerId"; condition := "==" |}]
          ∧ d = {| collection := "Orders"; field := "customerId"; condition := "==" |})
    as [-> ->].
  { change (priv_hasMany (this customer_world))
      with [ {| collection := "Invoices"; field := "customerId"; condition := "==" |};
             {| collection := "Orders"; field := "customerId"; condition := "==" |};
             {| collection := "Tickets"; field := "customerId"; condition := "==" |} ]
      in Hmany.
    destruct pre as [|x [|y pre]].
    - injection Hmany as <- _. vm_compute in Hd. discriminate Hd.
    - injection Hmany as <- <- _. split; reflexivity.
    - injection Hmany as <- <- _. apply Forall_cons in Hpre as [_ Hpre].
      apply Forall_cons in Hpre as [Hy _]. vm_compute in Hy. discriminate Hy. }
  assert (message = "関連する情報が登録されているため削除できません。"
                    +:+ String "010" "Collection: Orders"
                    +:+ String "010" "docId: c1") as Hm'
    by (rewrite Hm; vm_compute; reflexivity).
  split; [exact (eq_trans (f_equal fst E) (f_equal (fun m => inl (Error m)) Hm'))|].
  split; [exact (eq_trans (f_equal (fun r => store r.2) E) Hs)|].
  refine (eq_trans (f_equal (fun r => queries (trace r.2)) E) _).
  cbn [snd]. rewrite Ht, Hm'. vm_compute. reflexivity.
Defined.

Lemma token_map_exact_witness :
  getNgramTokenMap "A b" !! "ab" = Some true
  ∧ getNgramTokenMap "A b" !! "A" = None
  ∧ tokenMap_get book = inr (Some (getNgramTokenMap "A b"))
  ∧ ∃ m, tokenMap_get book = inr (Some m).
Proof.
  destruct token_map_exact as (Hstring & Hprop & Htotal & Hone).
  split; [|split; [|split]].
  - apply Hstring. split; [done|]. exists 0%nat, 2%nat.
    split; [by right|]. split; [vm_compute; lia | reflexivity].
  - vm_compute. reflexivity.
  - apply (Hone book "title"); reflexivity.
  - apply (Htotal book); [discriminate|].
    intros f v Hf Hv. apply list_elem_of_singleton in Hf as ->.
    vm_compute in Hv. injection Hv as <-. eauto.
Defined.

Lemma tokenMap_absent_and_derived_witness :
  tokenMap_get (new_FireModel "Users") = inr None
  ∧ tokenMap_get (new_FireModel "Users") ≠ inr (Some ∅)
  ∧ tokenMap_get (assign "title" (VStr "Cd") book)
    = inr (Some (getNgramTokenMap "Cd"))
  ∧ tokenMap_get (tokenMap_set (VStr "x") book) = tokenMap_get book.
Proof.
  destruct tokenMap_absent_and_derived as (Hnull & Hset & _ & Hread).
  destruct (Hnull (new_FireModel "Users") eq_refl) as [H1 H2].
  split; [exact H1|]. split; [exact H2|]. split.
  - apply Hread; [reflexivity | discriminate].
  - apply Hset.
Defined.

(** [Items/i1] holds [name] and [price]; the instance has [name] but no
    [price]: [name] is copied, [price] is not taken, and the attributes the
    payload lacks stay.  [Items/none] is absent: the six base attributes are
    reset and [name] stays. *)
Lemma fetch_absent_resets_base_present_copies_witness :
  (∃ w', @fetch base_class (Some "i1") (world_of item_named item_store) = (inr tt, w')
         ∧ attrs (this w') !! "name" = Some (VStr "ink")
         ∧ attrs (this w') !! "docId" = Some (VStr "i1")
         ∧ attrs (this w') !! "price" = None
         ∧ attrs (this w') !! "uid" = Some (VStr ""))
  ∧ (∃ w', @fetch base_class (Some "none") (world_of item_named item_store)
           = (inr tt, w')
           ∧ attrs (this w') !! "docId" = Some (VStr "")
           ∧ attrs (this w') !! "name" = Some (VStr "pen")).
Proof.
  split.
  - destruct (@fetch_absent_resets_base_present_copies base_class
                (world_of item_named item_store) "i1" ltac:(discriminate))
      as [_ Hpresent].
    destruct (Hpresent _ eq_refl) as (w' & E & _ & _ & Hattrs & _).
    exists w'. split; [exact E|].
    rewrite !Hattrs by discriminate. repeat split; reflexivity.
  - destruct (@fetch_absent_resets_base_present_copies base_class
                (world_of item_named item_store) "none" ltac:(discriminate))
      as [Habsent _].
    destruct (Habsent eq_refl) as (_ & _ & _ & Hbase).
    destruct (Hbase ltac:(reflexivity)) as (w' & E & _ & _ & Hsix & Hother & _).
    exists w'. split; [exact E|]. split.
    + apply Hsix. by left.
    + rewrite Hother; [reflexivity|]. vm_compute.
      intros H. repeat (apply elem_of_cons in H as [H|H]; [discriminate|]).
      by apply elem_of_nil in H.
Defined.

(** C9 does not hold of an attribute outside the six in a class that keeps
    the base [initialize].  The instance was constructed with [name] empty
    and now holds [name = "pen"]; after the [fetch] of an absent id, [name]
    is still [pen]: the instance is not in its constructed state. *)
Lemma fetch_absent_keeps_subclass_attribute :
  (@fetch base_class (Some "none") (world_of item_named item_store)).1 = inr tt
  ∧ attrs (this (@fetch base_class (Some "none") (world_of item_named item_store)).2)
      !! "name"
    = Some (VStr "pen")
  ∧ attrs item_constructed !! "name" = Some (VStr "")
  ∧ this (@fetch base_class (Some "none") (world_of item_named item_store)).2
    ≠ item_constructed.
Proof.
  split; [vm_compute; reflexivity|].
  split; [vm_compute; reflexivity|]. split; [vm_compute; reflexivity|].
  intros E. apply (f_equal (fun i => attrs i !! "name")) in E.
  vm_compute in E. discriminate.
Qed.

(** [Customers/c1] is stored with [createAt = 5] and a field [legacy] that
    the instance does not have; after [update()] both are as before and the
    stamps of the update are stored. *)
Lemma update_writes_all_but_creation_stamps_witness :
  (@update base_class equality_host customer_world).1 = inr ("Customers", "c1")
  ∧ ∃ w3 new,
      docs (store w3) !! ("Customers", "c1") = Some new
      ∧ new !! "createAt" = Some (VNum 5)
      ∧ new !! "legacy" = Some (VBool true)
      ∧ new !! "uid" = Some (VStr "u1")
      ∧ new !! "updateAt" = Some (VNum 1700000000000).
Proof.
  split; [vm_compute; reflexivity|].
  assert (@update base_class equality_host customer_world
          = (inr ("Customers", "c1"),
             (@update base_class equality_host customer_world).2)) as Eupdate
    by (vm_compute; reflexivity).
  destruct (@update_writes_all_but_creation_stamps base_class equality_host
              customer_world ("Customers", "c1") _ Eupdate)
    as (w1 & w2 & w3 & w4 & item & old & Hbefore & Hprep & Hwrite & Hafter
        & Hstore & _ & _ & _ & Hold & Hnew & HcA & _ & Hkeep & Hput & _).
  clear Eupdate Hstore Hafter Hwrite.
  apply (proj1 (call_hook_inr _ _ _ _ _)) in Hbefore. injection Hbefore as <-.
  destruct (update_prepare_inv _ _ _ _ Hprep) as (Hs2 & _ & _).
  rewrite Hs2 in Hold. clear Hs2.
  assert (Some old = Some customer_doc) as Eold.
  { rewrite <- Hold. vm_compute. reflexivity. }
  injection Eold as ->. clear Hold.
  pose proof (f_equal (fun r => (resolved (("", ""), ∅) r).2) Hprep) as Eitem.
  cbv beta in Eitem. change ((resolved _ (inr (_, item), w2)).2) with item in Eitem.
  clear Hprep. subst item.
  eexists w3, _. split; [exact Hnew|].
  split; [exact (eq_trans HcA ltac:(vm_compute; reflexivity))|].
  split; [refine (eq_trans (Hkeep "legacy" _) _); vm_compute; reflexivity|].
  split; apply Hput; vm_compute; reflexivity.
Defined.

(** ** The further statements at concrete inputs *)

(** ["A b"] and ["ab"] differ in white space and case only. *)
Lemma getNgramTokenMap_normalized_witness :
  normalized "A b" = normalized "ab"
  ∧ getNgramTokenMap "A b" = getNgramTokenMap "ab".
Proof.
  assert (normalized "A b" = normalized "ab") as H by (vm_compute; reflexivity).
  split; [exact H | exact (getNgramTokenMap_normalized "A b" "ab" H)].
Defined.

(** The query ["B c"] occurs in ["a bC d"]. *)
Lemma getNgramTokenMap_of_substring_witness :
  normalized "a bC d" = chars "a" ++ normalized "B c" ++ chars "d"
  ∧ getNgramTokenMap "B c" ⊆ getNgramTokenMap "a bC d".
Proof.
  assert (normalized "a bC d" = chars "a" ++ normalized "B c" ++ chars "d") as H
    by (vm_compute; reflexivity).
  split; [exact H|].
  exact (getNgramTokenMap_of_substring "B c" "a bC d" (chars "a") (chars "d") H).
Defined.

(** A string of blanks has no token. *)
Lemma getNgramTokenMap_keys_shape_witness :
  strip_whitespace (chars "   ") = [] ∧ getNgramTokenMap "   " = ∅.
Proof.
  assert (strip_whitespace (chars "   ") = []) as H by (vm_compute; reflexivity).
  split; [exact H|].
  exact (proj2 (proj1 (getNgramTokenMap_keys_shape "   ")) H).
Defined.

(** A number in the declared field [title] makes the getter throw. *)
Lemma tokenMap_get_throws_iff_witness :
  attrs book_numbered !! "title" = Some (VNum 7)
  ∧ ∃ e, tokenMap_get book_numbered = inl e.
Proof.
  assert (attrs book_numbered !! "title" = Some (VNum 7)) as H
    by (vm_compute; reflexivity).
  split; [exact H|].
  apply (proj2 (proj1 (tokenMap_get_throws_iff book_numbered))).
  exists "title", (VNum 7). split; [|split; [exact H | reflexivity]].
  apply list_elem_of_singleton. reflexivity.
Defined.

(** [length = 3], [current = 1000]: the code of 1001 is that of 1. *)
Lemma allocate_code_is_residue_witness :
  allocate "Users" {| an_current := 1000; an_length := 3;
                      an_field := "code"; an_condition := true |}
  = inr (1001, zero_padded 3 1).
Proof.
  rewrite (allocate_code_is_residue "Users"
             {| an_current := 1000; an_length := 3;
                an_field := "code"; an_condition := true |});
    [reflexivity | simpl; lia
     | unfold js_exact, max_string_length; simpl; lia | simpl; lia].
Defined.

(** [length = 3]: the currents 0 and 1000 are served the same code. *)
Lemma allocate_codes_collide_iff_witness :
  allocate "Users" {| an_current := 0; an_length := 3;
                      an_field := "code"; an_condition := true |}
  = inr (1, "001")
  ∧ allocate "Users" {| an_current := 1000; an_length := 3;
                        an_field := "code"; an_condition := true |}
    = inr (1001, "001")
  ∧ ("001" = "001" ↔ (0 + 1) mod 10 ^ 3 = (1000 + 1) mod 10 ^ 3).
Proof.
  assert (allocate "Users" {| an_current := 0; an_length := 3;
                              an_field := "code"; an_condition := true |}
          = inr (1, "001")) as Ha by (vm_compute; reflexivity).
  assert (allocate "Users" {| an_current := 1000; an_length := 3;
                              an_field := "code"; an_condition := true |}
          = inr (1001, "001")) as Hb by (vm_compute; reflexivity).
  split; [exact Ha|]. split; [exact Hb|].
  refine (proj1 (allocate_codes_collide_iff "Users"
                   {| an_current := 0; an_length := 3;
                      an_field := "code"; an_condition := true |}
                   {| an_current := 1000; an_length := 3;
                      an_field := "code"; an_condition := true |}
                   1 1001 "001" "001" _ eq_refl _ _ _ _ Ha Hb));
    unfold js_exact, max_string_length; simpl; lia.
Defined.

(** The width -1 throws; the width 0 gives the bare number. *)
Lemma allocate_width_edges_witness :
  allocate "Users" users_negative = inl (RangeError "Invalid array length")
  ∧ allocate "Users" users_unpadded = inr (8, "8").
Proof.
  split.
  - apply (proj1 (allocate_width_edges "Users" users_negative)). left. simpl. lia.
  - apply (proj2 (allocate_width_edges "Users" users_unpadded)); [reflexivity|].
    unfold js_exact, max_string_length. simpl. lia.
Defined.

(** A fresh [Users] model is created under the id [d1]. *)
Lemma create_plain_stores_instance_witness :
  tokenMap_enumerable (this fresh_users) = false
  ∧ (@create base_class equality_host (Some "d1") fresh_users).1
    = inr ("Users", "d1")
  ∧ docs (store (@create base_class equality_host (Some "d1") fresh_users).2)
      !! ("Users", "d1")
    = Some (attrs (this (@create base_class equality_host (Some "d1") fresh_users).2)).
Proof.
  split; [reflexivity|].
  destruct (@create_plain_stores_instance equality_host (Some "d1") fresh_users eq_refl)
    as (w' & E & _ & _ & Hdoc & _).
  - intros a Ha. vm_compute in Ha. discriminate Ha.
  - rewrite E. split; [reflexivity | exact Hdoc].
Defined.

(** [length = 2], [current = 99]: the rejected [create] leaves the store. *)
Lemma create_rejected_writes_nothing_witness :
  (@create base_class equality_host None (numbered_users 99 2)).1
  = inl (exhausted "Users")
  ∧ store (@create base_class equality_host None (numbered_users 99 2)).2
    = store (numbered_users 99 2).
Proof.
  assert ((@create base_class equality_host None (numbered_users 99 2)).1
          = inl (exhausted "Users")) as H by (vm_compute; reflexivity).
  split; [exact H|].
  apply (@create_rejected_writes_nothing equality_host None (numbered_users 99 2)
           (exhausted "Users")).
  rewrite <- H. apply surjective_pairing.
Defined.

(** [length = 5], [current = 41]: the document gets [00042], the instance
    does not. *)
Lemma create_numbered_resolves_witness :
  valid_autonumber users_41
  ∧ (@create base_class equality_host (Some "d1") (numbered_users 41 5)).1
    = inr ("Users", "d1")
  ∧ autonumbers (store (@create base_class equality_host (Some "d1")
                          (numbered_users 41 5)).2) !! "Users"
    = Some (set_current 42 users_41).
Proof.
  assert (valid_autonumber users_41) as Hvalid
    by (unfold valid_autonumber; simpl; lia).
  split; [exact Hvalid|].
  destruct (@create_numbered_resolves equality_host (Some "d1") (numbered_users 41 5)
              users_41 eq_refl eq_refl eq_refl Hvalid
              ltac:(unfold js_exact, max_string_length; simpl; lia)
              ltac:(simpl; lia))
    as (w' & E & _ & _ & Hrec & _).
  rewrite E. split; [reflexivity | exact Hrec].
Defined.

(** [fetch()] without an id. *)
Lemma fetch_requires_docId_witness :
  (@fetch base_class None fresh_users).1
  = inl (Error "fetch() requires docId as argument.")
  ∧ this (@fetch base_class None fresh_users).2 = this fresh_users.
Proof.
  destruct (@fetch_requires_docId base_class None fresh_users (or_introl eq_refl))
    as (w' & E & Ht & _).
  rewrite E. split; [reflexivity | exact Ht].
Defined.

(** [fetch('i1')] on the named item leaves the store and [hasMany]. *)
Lemma fetch_frame_witness :
  store (@fetch base_class (Some "i1") item_world).2 = store item_world
  ∧ priv_collection (this (@fetch base_class (Some "i1") item_world).2) = "Items".
Proof.
  destruct (fetch_frame (Some "i1") item_world) as (Hs & Hc & _).
  split; [exact Hs | exact Hc].
Defined.

(** [create('d1')] then [fetch('d1')] on a fresh [Users] model. *)
Lemma create_then_fetch_witness :
  @create_id equality_host (Some "d1") fresh_users ≠ ""
  ∧ ∃ w' w'',
      @create base_class equality_host (Some "d1") fresh_users
      = (inr ("Users", "d1"), w')
      ∧ @fetch base_class (Some "d1") w' = (inr tt, w'')
      ∧ this w'' = this w'.
Proof.
  assert (@create_id equality_host (Some "d1") fresh_users ≠ "") as Hne by discriminate.
  split; [exact Hne|].
  destruct (@create_then_fetch equality_host (Some "d1") fresh_users eq_refl)
    as (w' & w'' & E & E' & Ht & _).
  - intros a Ha. vm_compute in Ha. discriminate Ha.
  - exact Hne.
  - exists w', w''. split; [exact E|]. split; [exact E' | exact Ht].
Defined.

(** With numbering, the fresh [Users] model has no attribute [code], so
    the fetched instance has none either. *)
Lemma create_numbered_then_fetch_witness :
  valid_autonumber users_41
  ∧ ∃ w' w'',
      @create base_class equality_host (Some "d1") (numbered_users 41 5)
      = (inr ("Users", "d1"), w')
      ∧ @fetch base_class (Some "d1") w' = (inr tt, w'')
      ∧ attrs (this w'') !! "code" = None.
Proof.
  assert (valid_autonumber users_41) as Hvalid
    by (unfold valid_autonumber; simpl; lia).
  split; [exact Hvalid|].
  destruct (@create_numbered_then_fetch equality_host (Some "d1")
              (numbered_users 41 5) users_41 eq_refl eq_refl eq_refl Hvalid
              ltac:(unfold js_exact, max_string_length; simpl; lia)
              ltac:(simpl; lia) ltac:(discriminate) ltac:(discriminate))
    as (w' & w'' & E & E' & Hcode & _).
  exists w', w''. split; [exact E|]. split; [exact E'|].
  exact (eq_trans Hcode ltac:(vm_compute; reflexivity)).
Defined.



(** [create('d1')] then [update()] on a fresh [Users] model. *)
Lemma create_then_update_mirrors_instance_witness :
  @create_id equality_host (Some "d1") fresh_users ≠ ""
  ∧ ∃ w' w'',
      @create base_class equality_host (Some "d1") fresh_users
      = (inr ("Users", "d1"), w')
      ∧ @update base_class equality_host w' = (inr ("Users", "d1"), w'')
      ∧ docs (store w'') !! ("Users", "d1") = Some (attrs (this w'')).
Proof.
  assert (@create_id equality_host (Some "d1") fresh_users ≠ "") as Hne by discriminate.
  split; [exact Hne|].
  destruct (@create_then_update_mirrors_instance equality_host (Some "d1")
              fresh_users eq_refl)
    as (w' & w'' & E & E' & Hdoc & _).
  - intros a Ha. vm_compute in Ha. discriminate Ha.
  - exact Hne.
  - exists w', w''. split; [exact E|]. split; [exact E' | exact Hdoc].
Defined.

(** The customer [c1] has no invoice but an order: the search stops at the
    second entry. *)
Lemma hasChild_finds_first_witness :
  get_attr "docId" (this customer_world) = Some (VStr "c1")
  ∧ collection <$> resolved None (@hasChild equality_host customer_world)
    = Some "Orders".
Proof.
  split; [reflexivity|].
  destruct (@hasChild_finds_first equality_host customer_world (VStr "c1") eq_refl)
    as (w' & E & _).
  unfold resolved. rewrite E. vm_compute. reflexivity.
Defined.

(** The customer [c1] without dependent documents is deleted. *)
Lemma delete_removes_document_witness :
  Forall (fun x => @has_child equality_host (store customer_alone) (VStr "c1") x = false)
         (priv_hasMany (this customer_alone))
  ∧ (@delete base_class equality_host customer_alone).1 = inr tt
  ∧ docs (store (@delete base_class equality_host customer_alone).2)
      !! ("Customers", "c1") = None
  ∧ get_attr "docId" (this (@delete base_class equality_host customer_alone).2)
    = Some (VStr "c1").
Proof.
  assert (Forall (fun x => @has_child equality_host (store customer_alone)
                             (VStr "c1") x = false)
                 (priv_hasMany (this customer_alone))) as Hnone.
  { unfold customer_alone, world_of, customer_c1, set_hasMany.
    cbn [this priv_hasMany].
    repeat first [apply List.Forall_nil
                 | apply List.Forall_cons; [vm_compute; reflexivity|]]. }
  split; [exact Hnone|].
  destruct (@delete_removes_document equality_host customer_alone "c1"
              eq_refl ltac:(discriminate) Hnone)
    as (w' & E & Hdocs & _ & Ht & _).
  rewrite E. cbn [fst snd]. split; [reflexivity|].
  rewrite Hdocs, Ht. split; [apply lookup_delete_eq | reflexivity].
Defined.

(** [afterCreate] rejects: [create] rejects, the document is stored. *)
Lemma create_rejected_after_write_keeps_document_witness :
  (@create rejecting_afterwards equality_host (Some "d1") fresh_users).1
  = inl (Error "late")
  ∧ is_Some (docs (store (@create rejecting_afterwards equality_host (Some "d1")
                            fresh_users).2) !! ("Users", "d1")).
Proof.
  destruct (@create_rejected_after_write_keeps_document rejecting_afterwards
              equality_host (Some "d1") fresh_users (Error "late"))
    as (w' & E & Hdoc & _).
  - reflexivity.
  - reflexivity.
  - reflexivity.
  - intros a Ha. vm_compute in Ha. discriminate Ha.
  - rewrite E. split; [reflexivity|]. exact (mk_is_Some _ _ Hdoc).
Defined.

(** [initialize(item)] with the stored customer on a fresh model. *)
Lemma initialize_item_resets_then_copies_witness :
  @data_names base_class customer_doc
  ∧ @data_names base_class (attrs (new_FireModel "Customers"))
  ∧ get_attr "createAt" (initialize (Some customer_doc) (new_FireModel "Customers"))
    = get_attr "createAt" (copy_from customer_doc (new_FireModel "Customers")).
Proof.
  assert (@data_names base_class customer_doc) as Hit
    by (refine (bool_decide_unpack _ _); vm_compute; exact I).
  assert (@data_names base_class (attrs (new_FireModel "Customers"))) as Hi
    by (refine (bool_decide_unpack _ _); vm_compute; exact I).
  split; [exact Hit|]. split; [exact Hi|].
  rewrite (@initialize_item_resets_then_copies base_class customer_doc
             (new_FireModel "Customers") Hit Hi).
  vm_compute. reflexivity.
Defined.

(** The item's [createAt] is taken, its [legacy] is not. *)
Lemma initialize_item_attributes_witness :
  @data_names base_class customer_doc
  ∧ attrs (initialize (Some customer_doc) (new_FireModel "Customers")) !! "createAt"
    = Some (VNum 5)
  ∧ attrs (initialize (Some customer_doc) (new_FireModel "Customers")) !! "legacy"
    = None.
Proof.
  assert (@data_names base_class customer_doc) as Hit
    by (refine (bool_decide_unpack _ _); vm_compute; exact I).
  split; [exact Hit|].
  destruct (@initialize_item_attributes base_class customer_doc
              (new_FireModel "Customers") Hit)
    as (Hbase & Hother & _).
  split.
  - rewrite (Hbase "createAt" VNull); [vm_compute; reflexivity|].
    unfold base_attrs. apply elem_of_cons. right. apply elem_of_cons. by left.
  - rewrite (Hother "legacy"); [vm_compute; reflexivity| |discriminate].
    unfold base_attrs. cbn. rewrite !not_elem_of_cons.
    repeat split; try discriminate. apply not_elem_of_nil.
Defined.

(** A newer record of [c2] takes the place of the old one. *)
Lemma addMaster_upserts_by_id_witness :
  Masters.arrays (Masters.state masters_demo) !! "Customers" = Some demo_customers
  ∧ NoDup (ids demo_customers)
  ∧ ∃ items',
      Masters.addMaster (Some "Customers") (Some master_c2) masters_demo
      = (inr tt,
         Masters.set_state
           (Masters.set_array "Customers" items' (Masters.state masters_demo))
           masters_demo)
      ∧ by_id items' = <["c2" := master_c2]> (by_id demo_customers)
      ∧ ids items' = ids demo_customers.
Proof.
  assert (Masters.arrays (Masters.state masters_demo) !! "Customers"
          = Some demo_customers) as Harr by (vm_compute; reflexivity).
  assert (NoDup (ids demo_customers)) as Hnd
    by (refine (bool_decide_unpack _ _); vm_compute; exact I).
  split; [exact Harr|]. split; [exact Hnd|].
  destruct (addMaster_upserts_by_id masters_demo "Customers" master_c2
              demo_customers "c2"
              ltac:(discriminate) ltac:(discriminate) Harr Hnd
              ltac:(vm_compute; reflexivity))
    as (items' & E & Hmap & _ & Hids).
  exists items'. split; [exact E|]. split; [exact Hmap|].
  exact (eq_trans Hids ltac:(vm_compute; reflexivity)).
Defined.

(** The record of [c2] is removed from the array. *)
Lemma removeMaster_deletes_by_id_witness :
  Masters.arrays (Masters.state masters_demo) !! "Customers" = Some demo_customers
  ∧ NoDup (ids demo_customers)
  ∧ ∃ items',
      Masters.state (Masters.removeMaster (Some "Customers") (Some master_c2)
                       masters_demo).2
      = Masters.set_array "Customers" items' (Masters.state masters_demo)
      ∧ by_id items' = base.delete "c2" (by_id demo_customers)
      ∧ ids items' = ["c1"].
Proof.
  assert (Masters.arrays (Masters.state masters_demo) !! "Customers"
          = Some demo_customers) as Harr by (vm_compute; reflexivity).
  assert (NoDup (ids demo_customers)) as Hnd
    by (refine (bool_decide_unpack _ _); vm_compute; exact I).
  split; [exact Harr|]. split; [exact Hnd|].
  destruct (removeMaster_deletes_by_id masters_demo "Customers" master_c2
              demo_customers "c2"
              ltac:(discriminate) ltac:(discriminate) Harr Hnd
              ltac:(vm_compute; reflexivity))
    as (items' & _ & Hst & _ & Hmap & _ & Hids & _).
  exists items'. split; [exact Hst|]. split; [exact Hmap|].
  exact (eq_trans Hids ltac:(vm_compute; reflexivity)).
Defined.

(** A snapshot that adds [c3] and removes [c2]. *)
Lemma on_snapshot_mirrors_changes_witness :
  Masters.arrays (Masters.state masters_demo) !! "Customers" = Some demo_customers
  ∧ NoDup (ids demo_customers)
  ∧ ∃ items',
      Masters.state (Masters.on_snapshot "Customers"
                       [(Masters.added, master_c3); (Masters.removed, master_c2)]
                       masters_demo).2
      = Masters.set_array "Customers" items' (Masters.state masters_demo)
      ∧ by_id items'
        = base.delete "c2" (<["c3" := master_c3]> (by_id demo_customers)).
Proof.
  assert (Masters.arrays (Masters.state masters_demo) !! "Customers"
          = Some demo_customers) as Harr by (vm_compute; reflexivity).
  assert (NoDup (ids demo_customers)) as Hnd
    by (refine (bool_decide_unpack _ _); vm_compute; exact I).
  split; [exact Harr|]. split; [exact Hnd|].
  destruct (on_snapshot_mirrors_changes masters_demo "Customers"
              [(Masters.added, master_c3); (Masters.removed, master_c2)]
              demo_customers
              ltac:(discriminate) ltac:(discriminate) Harr Hnd)
    as (items' & _ & Hst & _ & Hmap & _).
  - refine (bool_decide_unpack _ _); vm_compute; exact I.
  - exists items'. split; [exact Hst | exact Hmap].
Defined.

(** [c3] and the newer [c2] are loaded, then reported again as added. *)
Lemma snapshot_after_preload_changes_nothing_witness :
  NoDup (ids [master_c3; master_c2])
  ∧ Masters.on_snapshot "Customers"
      [(Masters.added, master_c3); (Masters.added, master_c2)]
      (Masters.preload "Customers" [master_c3; master_c2] masters_demo).2
    = (inr tt, (Masters.preload "Customers" [master_c3; master_c2] masters_demo).2).
Proof.
  assert (Masters.arrays (Masters.state masters_demo) !! "Customers"
          = Some demo_customers) as Harr by (vm_compute; reflexivity).
  assert (NoDup (ids demo_customers)) as Hnd
    by (refine (bool_decide_unpack _ _); vm_compute; exact I).
  assert (NoDup (ids [master_c3; master_c2])) as Hnd'
    by (refine (bool_decide_unpack _ _); vm_compute; exact I).
  split; [exact Hnd'|].
  destruct (snapshot_after_preload_changes_nothing masters_demo "Customers"
              [master_c3; master_c2] demo_customers
              ltac:(discriminate) ltac:(discriminate) Harr Hnd)
    as (_ & Hsame & _).
  - refine (bool_decide_unpack _ _); vm_compute; exact I.
  - exact Hnd'.
  - exact Hsame.
Defined.

(** Removing the listener of [Customers] empties [Sites] as well. *)
Lemma removeListener_clears_every_array_witness :
  Masters.listener_of "Customers" (Masters.listeners (Masters.state masters_demo))
  = Some (Some 7%nat)
  ∧ ∃ w',
      Masters.removeListener (Some "Customers") masters_demo = (inr tt, w')
      ∧ Masters.log w' = [Masters.ListenerCalled 7]
      ∧ Masters.arrays (Masters.state w') !! "Sites" = Some []
      ∧ Masters.listeners (Masters.state w')
        = Masters.listeners (Masters.state masters_demo).
Proof.
  split; [reflexivity|].
  destruct (removeListener_clears_every_array masters_demo "Customers" (Some 7%nat)
              ltac:(discriminate) eq_refl)
    as (w' & E & Hls & Hlog & Harr).
  - refine (bool_decide_unpack _ _); vm_compute; exact I.
  - exists w'. split; [exact E|]. split; [exact Hlog|]. split; [|exact Hls].
    rewrite Harr. apply decide_True. refine (bool_decide_unpack _ _); vm_compute; exact I.
Defined.

(** [unsubscribe] calls the one listener and empties both arrays. *)
Lemma unsubscribe_calls_each_listener_once_witness :
  NoDup (Masters.listeners (Masters.state masters_demo)).*1
  ∧ ∃ w',
      Masters.unsubscribe masters_demo = (inr tt, w')
      ∧ Masters.log w' = [Masters.ListenerCalled 7]
      ∧ Masters.arrays (Masters.state w') !! "Customers" = Some [].
Proof.
  assert (NoDup (Masters.listeners (Masters.state masters_demo)).*1) as Hnd
    by (refine (bool_decide_unpack _ _); vm_compute; exact I).
  split; [exact Hnd|].
  destruct (unsubscribe_calls_each_listener_once masters_demo Hnd)
    as (w' & E & _ & Hlog & Harr).
  - refine (bool_decide_unpack _ _); vm_compute; exact I.
  - exists w'. split; [exact E|]. split; [exact Hlog|].
    rewrite Harr. apply decide_True. refine (bool_decide_unpack _ _); vm_compute; exact I.
Defined.

(** A listener for [Sites] is registered; one for [Orders] is not. *)
Lemma addListener_registers_known_only_witness :
  ("Sites" ∉ object_prototype_names)
  ∧ Masters.listener_of "Sites"
      (Masters.listeners
         (Masters.state (Masters.addListener (Some "Sites") (Some 9%nat) masters_demo)))
    = Some (Some 9%nat)
  ∧ Masters.state (Masters.addListener (Some "Orders") (Some 9%nat) masters_demo)
    = Masters.state masters_demo.
Proof.
  assert ("Sites" ∉ object_prototype_names) as Hsites
    by (refine (bool_decide_unpack _ _); vm_compute; exact I).
  assert ("Orders" ∉ object_prototype_names) as Horders
    by (refine (bool_decide_unpack _ _); vm_compute; exact I).
  split; [exact Hsites|]. split.
  - destruct (addListener_registers_known_only (Some "Sites") (Some 9%nat) masters_demo)
      as (_ & _ & Hreg & _); [by intros c [= <-]|].
    destruct (Hreg "Sites" 9%nat eq_refl eq_refl ltac:(discriminate)) as (_ & Hl).
    + refine (bool_decide_unpack _ _); vm_compute; exact I.
    + rewrite Hl. apply decide_True. reflexivity.
  - destruct (addListener_registers_known_only (Some "Orders") (Some 9%nat) masters_demo)
      as (_ & _ & _ & Hbad); [by intros c [= <-]|].
    apply Hbad. left. intros c [= <-]. right.
    refine (bool_decide_unpack _ _); vm_compute; exact I.
Defined.
